(** * Semantic content-relevance engine (crawl4ai-service/semantic_analysis.py)

    A shallow embedding of [RateLimiter] and [SemanticAnalysisService]:
    the sliding-window rate limiter, the hash-keyed embedding cache with
    its FIFO eviction, [encode_texts], [calculate_similarity] and
    [analyze_content_relevance] with its recommendation rules.

    Modelling conventions.
    - A Python [str] is a [string]; a character stands for one code point
      below 256, and [str.strip] removes the code points Python treats as
      white space in that range.
    - Floats (time stamps, similarities, scores) are rationals [Q]; rounding
      of the binary representation is not modelled.
    - Exceptions are values of [exn]; a function that may raise returns
      [result A], and the service state is threaded explicitly.
    - [async]/[await], the thread pool and the lock only sequence the steps
      of one call; calls are modelled one at a time, so the flag
      [self._loading], which makes a concurrent caller wait for a running
      [initialize], is always unset when a call starts and is left out.
      Log lines and the sleeps between retries have no effect on results.
    - What the source imports from elsewhere (the builtin [hash], the
      sentence-transformers model, scikit-learn's [cosine_similarity],
      numpy's [argsort]) is collected in the record [Externals]. *)

From Stdlib Require Import ZArith QArith Qminmax Qround Lqa Lia.
From Stdlib Require Import Ascii String List Permutation Sorted.
From stdpp Require Import gmap strings list sorting pretty.

Import ListNotations.
Local Open Scope string_scope.
Local Open Scope list_scope.

(* ===================================================================== *)
(** ** Python strings *)
(* ===================================================================== *)

Module PyStr.

(** [str.isspace] on the code points below 256: TAB..CR, FS..US, SPACE,
    NEL (0x85) and NBSP (0xA0). *)
Definition is_space (c : ascii) : bool :=
  let n := nat_of_ascii c in
  (((9 <=? n) && (n <=? 13)) || ((28 <=? n) && (n <=? 32))
   || (n =? 133) || (n =? 160))%nat.

(** [len(s)] *)
Definition len (s : string) : nat := String.length s.

Fixpoint lstrip (s : string) : string :=
  match s with
  | EmptyString => EmptyString
  | String c r => if is_space c then lstrip r else s
  end.

Fixpoint rstrip (s : string) : string :=
  match s with
  | EmptyString => EmptyString
  | String c r =>
      match rstrip r with
      | EmptyString => if is_space c then EmptyString else String c EmptyString
      | r' => String c r'
      end
  end.

(** [s.strip()] *)
Definition strip (s : string) : string := rstrip (lstrip s).

(** [s[:n]] *)
Fixpoint take (n : nat) (s : string) : string :=
  match n, s with
  | O, _ => EmptyString
  | _, EmptyString => EmptyString
  | S n', String c r => String c (take n' r)
  end.

End PyStr.

(* ===================================================================== *)
(** ** Rational comparisons as booleans *)
(* ===================================================================== *)

(** [a < b] on floats *)
Definition Qltb (a b : Q) : bool :=
  match Qcompare a b with Lt => true | _ => false end.

(* ===================================================================== *)
(** ** RateLimiter *)
(* ===================================================================== *)

(** [self.max_calls], [self.window] and the [defaultdict(list)] of call
    times.  A missing key of the [defaultdict] reads as the empty list. *)
Record RateLimiter := mkRateLimiter {
  max_calls : Z;
  window : Z;
  calls : gmap string (list Q)
}.

(** [RateLimiter(max_calls, window)] *)
Definition new_rate_limiter (mc w : Z) : RateLimiter :=
  mkRateLimiter mc w ∅.

(** [self.calls[identifier]] *)
Definition calls_of (rl : RateLimiter) (identifier : string) : list Q :=
  default [] (calls rl !! identifier).

Definition set_calls (rl : RateLimiter) (identifier : string) (l : list Q)
  : RateLimiter :=
  mkRateLimiter (max_calls rl) (window rl) (<[identifier := l]> (calls rl)).

(** The comprehension [[t for t in self.calls[identifier] if now - t < self.window]]. *)
Definition prune (rl : RateLimiter) (now : Q) (identifier : string) : list Q :=
  List.filter (fun call_time => Qltb (now - call_time) (inject_Z (window rl)))
              (calls_of rl identifier).

(** [is_allowed]; [now] is the value [time.time()] returns inside it. *)
Definition is_allowed (rl : RateLimiter) (now : Q) (identifier : string)
  : RateLimiter * bool :=
  let kept := prune rl now identifier in
  if (max_calls rl <=? Z.of_nat (length kept))%Z
  then (set_calls rl identifier kept, false)
  else (set_calls rl identifier (kept ++ [now]), true).

(** Consecutive calls of [is_allowed] for one identifier. *)
Fixpoint is_allowed_seq (rl : RateLimiter) (identifier : string)
    (times : list Q) : RateLimiter * list bool :=
  match times with
  | [] => (rl, [])
  | now :: rest =>
      let '(rl1, b) := is_allowed rl now identifier in
      let '(rl2, bs) := is_allowed_seq rl1 identifier rest in
      (rl2, b :: bs)
  end.

(* ===================================================================== *)
(** ** Python values, exceptions and results *)
(* ===================================================================== *)

(** The values a caller can put where the type hints say [str] or [Any]. *)
Inductive pyval :=
| PyStr (s : string)
| PyInt (n : Z)
| PyNone.

(** The exceptions of the engine; all derive from [Exception]. *)
Inductive exn :=
| Exception (msg : string)
| IndexError (msg : string)
| ValueError (msg : string)
| TypeError (msg : string).

(** [str(e)] *)
Definition str_exn (e : exn) : string :=
  match e with
  | Exception m | IndexError m | ValueError m | TypeError m => m
  end.

Inductive result (A : Type) :=
| Ok (a : A)
| Raise (e : exn).
Arguments Ok {A} a.
Arguments Raise {A} e.

Definition bind {A B} (r : result A) (k : A -> result B) : result B :=
  match r with
  | Ok a => k a
  | Raise e => Raise e
  end.

Notation "'do' x <- r ; k" := (bind r (fun x => k))
  (at level 10, x name, r at level 100, k at level 200).

(** A two-dimensional float array, row by row; [np.array([])] is [[]]. *)
Definition ndarray := list (list Q).

(** [a.size] *)
Definition size (a : ndarray) : nat := length (concat a).

(* ===================================================================== *)
(** ** What the module imports *)
(* ===================================================================== *)

(** - [hash]: the builtin on a tuple of strings;
    - [SentenceTransformer k]: the outcome of the [k]-th construction of the
      model, [None] when it succeeds and the exception otherwise;
    - [model_encode k texts]: the outcome of the [k]-th call of
      [self.model.encode];
    - [cosine_similarity]: scikit-learn's, which may raise;
    - [argsort]: numpy's, on one row. *)
Record Externals := mkExternals {
  hash : list string -> Z;
  SentenceTransformer : nat -> option exn;
  model_encode : nat -> list string -> result ndarray;
  cosine_similarity : ndarray -> ndarray -> result ndarray;
  argsort : list Q -> list nat
}.

(* ===================================================================== *)
(** ** The embedding cache: an insertion-ordered dict *)
(* ===================================================================== *)

Module Dict.

Definition t := list (Z * ndarray).

(** [k in d] and [d[k]] *)
Fixpoint get (k : Z) (d : t) : option ndarray :=
  match d with
  | [] => None
  | (k', v) :: r => if (k =? k')%Z then Some v else get k r
  end.

(** [d[k] = v]: a present key keeps its place, a new one goes last. *)
Fixpoint set (k : Z) (v : ndarray) (d : t) : t :=
  match d with
  | [] => [(k, v)]
  | (k', v') :: r =>
      if (k =? k')%Z then (k, v) :: r else (k', v') :: set k v r
  end.

(** [list(d.keys())] *)
Definition keys (d : t) : list Z := map fst d.

(** [del d[k]] *)
Definition del (k : Z) (d : t) : t :=
  List.filter (fun kv => negb (k =? fst kv)%Z) d.

End Dict.

(* ===================================================================== *)
(** ** SemanticAnalysisService *)
(* ===================================================================== *)

(** [model] tells whether [self.model] is set.  [loads] and [encodes]
    count the constructions of the model and the calls of
    [self.model.encode] made so far; they index the outcomes in
    [Externals]. *)
Record Service := mkService {
  model_name : string;
  model : bool;
  rate_limiter : RateLimiter;
  _cache : Dict.t;
  loads : nat;
  encodes : nat
}.

(** [SemanticAnalysisService()] with [SEMANTIC_MAX_CALLS] and
    [SEMANTIC_WINDOW] read from the environment. *)
Definition new_service (semantic_max_calls semantic_window : Z) : Service :=
  mkService "sentence-transformers/all-MiniLM-L6-v2" false
            (new_rate_limiter semantic_max_calls semantic_window) [] 0 0.

(** The service as the module creates it when the environment sets neither. *)
Definition semantic_service : Service := new_service 1000 3600.

Definition with_rate_limiter (st : Service) (rl : RateLimiter) : Service :=
  mkService (model_name st) (model st) rl (_cache st) (loads st) (encodes st).

Definition with_cache (st : Service) (c : Dict.t) : Service :=
  mkService (model_name st) (model st) (rate_limiter st) c (loads st) (encodes st).

(** The retry loop of [initialize]: [attempts] constructions are left,
    [k] were made before. *)
Fixpoint load_attempts (E : Externals) (k attempts : nat)
    (last_error : option exn) : nat * result unit :=
  match attempts with
  | O =>
      (k, Raise (match last_error with
                 | Some e => e
                 | None => TypeError "exceptions must derive from BaseException"
                 end))
  | S a =>
      match SentenceTransformer E k with
      | None => (S k, Ok tt)
      | Some e => load_attempts E (S k) a (Some e)
      end
  end.

(** [initialize(retry_count)] *)
Definition initialize (E : Externals) (st : Service) (retry_count : nat)
  : Service * result unit :=
  if model st then (st, Ok tt)
  else
    let '(k, r) := load_attempts E (loads st) retry_count None in
    (mkService (model_name st)
               (match r with Ok _ => true | Raise _ => false end)
               (rate_limiter st) (_cache st) k (encodes st), r).

(** The cleaning loop of [encode_texts]. *)
Fixpoint clean_texts (texts : list pyval) : list string :=
  match texts with
  | [] => []
  | PyStr text :: rest =>
      if (0 <? PyStr.len (PyStr.strip text))%nat
      then PyStr.take 1000 (PyStr.strip text) :: clean_texts rest
      else clean_texts rest
  | _ :: rest => clean_texts rest
  end.

(** The eviction after an insertion. *)
Definition evict (c : Dict.t) : Dict.t :=
  if (1000 <? length c)%nat
  then fold_left (fun d key => Dict.del key d) (take 100 (Dict.keys c)) c
  else c.

Definition rate_limit_message : string :=
  "Rate limit exceeded. Please try again later.".

(** [encode_texts(texts, use_cache, client_id)]; [now] is the clock value
    read by the rate limiter. *)
Definition encode_texts (E : Externals) (st : Service) (now : Q)
    (texts : list pyval) (use_cache : bool) (client_id : string)
  : Service * result ndarray :=
  let '(rl, allowed) := is_allowed (rate_limiter st) now client_id in
  let st1 := with_rate_limiter st rl in
  if negb allowed then (st1, Raise (Exception rate_limit_message))
  else
    match initialize E st1 3 with
    | (st2, Raise e) => (st2, Raise e)
    | (st2, Ok _) =>
        match texts with
        | [] => (st2, Ok [])
        | _ =>
            let cleaned_texts := clean_texts texts in
            match cleaned_texts with
            | [] => (st2, Ok [])
            | _ =>
                let cache_key := hash E cleaned_texts in
                match (if use_cache then Dict.get cache_key (_cache st2)
                       else None) with
                | Some cached => (st2, Ok cached)
                | None =>
                    let st3 :=
                      mkService (model_name st2) (model st2) (rate_limiter st2)
                                (_cache st2) (loads st2) (S (encodes st2)) in
                    match model_encode E (encodes st2) cleaned_texts with
                    | Raise e =>
                        (st3, Raise (Exception
                           ("Embedding generation failed: " +:+ str_exn e)))
                    | Ok embeddings =>
                        (if use_cache
                         then with_cache st3
                                (evict (Dict.set cache_key embeddings (_cache st3)))
                         else st3,
                         Ok embeddings)
                    end
                end
            end
        end
    end.

(** [calculate_similarity] *)
Definition calculate_similarity (E : Externals)
    (query_embeddings content_embeddings : ndarray) : result ndarray :=
  if ((size query_embeddings =? 0) || (size content_embeddings =? 0))%nat
  then Ok []
  else cosine_similarity E query_embeddings content_embeddings.

(* ===================================================================== *)
(** ** analyze_content_relevance *)
(* ===================================================================== *)

(** An element of [content_chunks]: a dict, of which only the keys
    ['text'] and ['type'] are read, or something else. *)
Inductive chunk :=
| ChunkDict (text : option pyval) (type : option pyval)
| NotADict (v : pyval).

(** An entry of [content_metadata]. *)
Record metadata := mkMetadata {
  md_type : pyval;
  original_text : string;
  md_length : nat
}.

(** An entry of [top_matches]. *)
Record top_match := mkTopMatch {
  tm_content : string;
  tm_score : Q;
  tm_type : pyval
}.

(** An entry of [query_analysis]. *)
Record verdict := mkVerdict {
  query : pyval;
  is_answered : bool;
  confidence : Q;
  max_similarity : Q;
  best_match : string;
  top_matches : list top_match
}.

(** A recommendation; the formatted ones keep the values they print. *)
Inductive recommendation :=
| Literal (s : string)
| AnalysisFailed (msg : string)
| LowCoverage (content_coverage : Q)
| NoRelevantContent (n : nat) (previews : list string)
| WeakMatches (n : nat).

(** The dict [analyze_content_relevance] returns; a key that is not always
    present is an [option]. *)
Record report := mkReport {
  overall_score : Q;
  query_analysis : list verdict;
  content_coverage : Q;
  recommendations : list recommendation;
  queries_answered : option nat;
  total_queries : option nat;
  analysis_metadata : option (nat * nat * string);
  error : option string
}.

Definition zero_report (recs : list recommendation) (err : option string)
  : report :=
  mkReport 0 [] 0 recs None None None err.

Definition no_content_message : string :=
  "No meaningful content found for analysis".

(** ['original_text']: [text[:200] + '...' if len(text) > 200 else text] *)
Definition preview (text : string) : string :=
  if (200 <? PyStr.len text)%nat
  then PyStr.take 200 text +:+ "..."
  else text.

(** The body of the loop over [content_chunks]: what one chunk adds to
    [content_texts] and [content_metadata]. *)
Definition extract_chunk (c : chunk) : option (string * metadata) :=
  match c with
  | ChunkDict (Some (PyStr text)) type =>
      if (10 <? PyStr.len (PyStr.strip text))%nat
      then Some (PyStr.strip text,
                 mkMetadata (default (PyStr "content") type)
                            (preview text) (PyStr.len text))
      else None
  | _ => None
  end.

Definition extract_content (content_chunks : list chunk)
  : list (string * metadata) :=
  omap extract_chunk content_chunks.

(** [np.max] *)
Definition np_max (row : list Q) : result Q :=
  match row with
  | [] => Raise (ValueError
      "zero-size array to reduction operation maximum which has no identity")
  | x :: r => Ok (fold_left (fun m y => if Qltb m y then y else m) r x)
  end.

Fixpoint argmax_from (best_idx : nat) (best : Q) (i : nat) (l : list Q) : nat :=
  match l with
  | [] => best_idx
  | y :: r =>
      if Qltb best y then argmax_from i y (S i) r
      else argmax_from best_idx best (S i) r
  end.

(** [np.argmax]: the first index of the maximum. *)
Definition np_argmax (row : list Q) : result nat :=
  match row with
  | [] => Raise (ValueError "attempt to get argmax of an empty sequence")
  | x :: r => Ok (argmax_from 0 x 1 r)
  end.

(** [a[i]] on an array of [n] entries along its first axis. *)
Definition index_error (i n : nat) : exn :=
  IndexError ("index " +:+ pretty i +:+ " is out of bounds for axis 0 with size "
              +:+ pretty n).

Definition np_index {A} (a : list A) (i : nat) : result A :=
  match a !! i with
  | Some x => Ok x
  | None => Raise (index_error i (length a))
  end.

(** [l[i]] on a Python list. *)
Definition list_index {A} (l : list A) (i : nat) : result A :=
  match l !! i with
  | Some x => Ok x
  | None => Raise (IndexError "list index out of range")
  end.

(** [a[-n:]] *)
Definition last_n {A} (n : nat) (a : list A) : list A :=
  drop (length a - n) a.

(** [np.argsort(query_similarities)[-3:][::-1]] *)
Definition top_indices (E : Externals) (query_similarities : list Q)
  : list nat :=
  rev (last_n 3 (argsort E query_similarities)).

(** The loop over [top_indices]. *)
Fixpoint collect_top_matches (query_similarities : list Q)
    (content_metadata : list metadata) (indices : list nat)
  : result (list top_match) :=
  match indices with
  | [] => Ok []
  | idx :: rest =>
      do s <- np_index query_similarities idx;
      if Qltb (1 # 10) s
      then
        do m <- list_index content_metadata idx;
        do more <- collect_top_matches query_similarities content_metadata rest;
        Ok (mkTopMatch (original_text m) s (md_type m) :: more)
      else collect_top_matches query_similarities content_metadata rest
  end.

(** One round of the loop over [enumerate(queries)]. *)
Definition analyze_query (E : Externals) (similarity_matrix : ndarray)
    (content_metadata : list metadata) (i : nat) (q : pyval)
  : result verdict :=
  do query_similarities <- np_index similarity_matrix i;
  do max_sim <- np_max query_similarities;
  do best_match_idx <- np_argmax query_similarities;
  do top <- collect_top_matches query_similarities content_metadata
              (top_indices E query_similarities);
  Ok (mkVerdict q
        (Qltb (4 # 10) max_sim)
        (Qmin (max_sim * 2) 1)
        max_sim
        (match content_metadata !! best_match_idx with
         | Some m => original_text m
         | None => ""
         end)
        top).

(** The loop over [enumerate(queries)], from index [i] on. *)
Fixpoint analyze_queries (E : Externals) (similarity_matrix : ndarray)
    (content_metadata : list metadata) (i : nat) (queries : list pyval)
  : result (list verdict) :=
  match queries with
  | [] => Ok []
  | q :: rest =>
      do v <- analyze_query E similarity_matrix content_metadata i q;
      do vs <- analyze_queries E similarity_matrix content_metadata (S i) rest;
      Ok (v :: vs)
  end.

(** [total_score] after the loop. *)
Definition total_score (query_analysis : list verdict) : Q :=
  fold_left (fun acc v => acc + confidence v)%Q query_analysis 0%Q.

(** [round(x, 2)]: to the nearest hundredth, halves to even. *)
Definition round2 (x : Q) : Q :=
  let y := (x * 100)%Q in
  let f := Qfloor y in
  let n := match Qcompare (y - inject_Z f) (1 # 2) with
           | Lt => f
           | Gt => (f + 1)%Z
           | Eq => if Z.even f then f else (f + 1)%Z
           end in
  (inject_Z n / 100)%Q.

Definition Qnat (n : nat) : Q := inject_Z (Z.of_nat n).

(** [q['query'][:50]] inside [', '.join] *)
Definition query_preview (v : verdict) : result string :=
  match query v with
  | PyStr s => Ok (PyStr.take 50 s)
  | _ => Raise (TypeError "object is not subscriptable")
  end.

Fixpoint query_previews (vs : list verdict) : result (list string) :=
  match vs with
  | [] => Ok []
  | v :: rest =>
      do p <- query_preview v;
      do ps <- query_previews rest;
      Ok (p :: ps)
  end.

(** [_generate_recommendations] *)
Definition _generate_recommendations (query_analysis : list verdict)
    (coverage : Q) : result (list recommendation) :=
  let unanswered_queries :=
    List.filter (fun qa => negb (is_answered qa)) query_analysis in
  let low_confidence_queries :=
    List.filter (fun qa => is_answered qa && Qltb (confidence qa) (6 # 10))
                query_analysis in
  let r1 := if Qltb coverage 50 then [LowCoverage coverage] else [] in
  do r2 <-
    (if (0 <? length unanswered_queries)%nat
     then do ps <- query_previews (take 3 unanswered_queries);
          Ok [NoRelevantContent (length unanswered_queries) ps]
     else Ok []);
  let r3 := if (0 <? length low_confidence_queries)%nat
            then [WeakMatches (length low_confidence_queries)] else [] in
  let r4 :=
    if negb (Qltb coverage 80)
    then [Literal "Excellent content coverage! Consider adding FAQ schema markup for better AEO performance."]
    else if negb (Qltb coverage 60)
    then [Literal "Good content coverage. Focus on improving answer clarity and adding structured data."]
    else [] in
  Ok (r1 ++ r2 ++ r3 ++ r4).

(** What follows the two [encode_texts] calls inside the [try]. *)
Definition analyze_embeddings (E : Externals) (st : Service)
    (queries : list pyval) (content : list (string * metadata))
    (query_embeddings content_embeddings : ndarray) : result report :=
  if ((size query_embeddings =? 0) || (size content_embeddings =? 0))%nat
  then Ok (zero_report [Literal "Failed to generate embeddings"] None)
  else
    do similarity_matrix <-
      calculate_similarity E query_embeddings content_embeddings;
    do qa <- analyze_queries E similarity_matrix (content.*2) 0 queries;
    let overall := (total_score qa / Qnat (length queries) * 100)%Q in
    let answered_count := length (List.filter is_answered qa) in
    let coverage := (Qnat answered_count / Qnat (length queries) * 100)%Q in
    do recs <- _generate_recommendations qa coverage;
    Ok (mkReport (round2 overall) qa (round2 coverage) recs
                 (Some answered_count) (Some (length queries))
                 (Some (length queries, length content, model_name st))
                 None).

(** The body of the [try]; [now1] and [now2] are the clock values read by
    the two [encode_texts] calls. *)
Definition analyze_try (E : Externals) (st : Service) (now1 now2 : Q)
    (queries : list pyval) (content : list (string * metadata))
    (client_id : string) : Service * result report :=
  match encode_texts E st now1 queries true client_id with
  | (st1, Raise e) => (st1, Raise e)
  | (st1, Ok query_embeddings) =>
      match encode_texts E st1 now2 (map PyStr (content.*1)) true client_id with
      | (st2, Raise e) => (st2, Raise e)
      | (st2, Ok content_embeddings) =>
          (st2, analyze_embeddings E st2 queries content
                  query_embeddings content_embeddings)
      end
  end.

(** The report of the [except] clause. *)
Definition error_report (e : exn) : report :=
  zero_report [AnalysisFailed (str_exn e)] (Some (str_exn e)).

(** [analyze_content_relevance(queries, content_chunks, client_id)] *)
Definition analyze_content_relevance (E : Externals) (st : Service)
    (now1 now2 : Q) (queries : list pyval) (content_chunks : list chunk)
    (client_id : string) : Service * report :=
  match queries, content_chunks with
  | [], _ | _, [] => (st, zero_report [] None)
  | _, _ =>
      let content := extract_content content_chunks in
      match content with
      | [] => (st, zero_report [Literal no_content_message] None)
      | _ =>
          match analyze_try E st now1 now2 queries content client_id with
          | (st', Ok r) => (st', r)
          | (st', Raise e) => (st', error_report e)
          end
      end
  end.

(* ===================================================================== *)
(** ** A stub environment *)
(* ===================================================================== *)

(** A deterministic embedder for examples: every text is mapped to a unit
    vector of dimension 4 chosen by its first character, the model always
    loads, and sorting is numpy's insertion sort for short rows.  On unit
    vectors the cosine similarity is the dot product. *)
Module Stub.

Definition vector (text : string) : list Q :=
  match text with
  | String "A" _ => [1; 0; 0; 0]
  | String "B" _ => [0; 1; 0; 0]
  | String "N" _ => [-(1); 0; 0; 0]
  | String "H" _ => [3 # 5; 4 # 5; 0; 0]
  | String "T" _ => [2 # 5; 4 # 5; 2 # 5; 1 # 5]
  | _ => [0; 0; 1; 0]
  end%Q.

Fixpoint dot (u v : list Q) : Q :=
  match u, v with
  | x :: u', y :: v' => Qred (x * y + dot u' v')
  | _, _ => 0
  end%Q.

Definition cosine (X Y : ndarray) : result ndarray :=
  Ok (map (fun x => map (fun y => dot x y) Y) X).

(** Insertion of index [i] into the indices [sorted], ascending by value
    and after the indices of equal value. *)
Fixpoint insert_index (row : list Q) (i : nat) (sorted : list nat)
  : list nat :=
  match sorted with
  | [] => [i]
  | j :: rest =>
      if Qltb (nth i row 0%Q) (nth j row 0%Q) then i :: j :: rest
      else j :: insert_index row i rest
  end.

Definition stable_argsort (row : list Q) : list nat :=
  fold_left (fun sorted i => insert_index row i sorted)
            (seq 0 (length row)) [].

Fixpoint string_hash (acc : Z) (s : string) : Z :=
  match s with
  | EmptyString => acc
  | String c r =>
      string_hash ((acc * 1000003 + Z.of_nat (nat_of_ascii c))
                     mod 2 ^ 64)%Z r
  end.

Definition tuple_hash (l : list string) : Z :=
  (fold_left (fun acc s => (acc * 31 + string_hash 7 s + 1) mod 2 ^ 64) l 17
   - 2 ^ 63)%Z.

Definition env : Externals :=
  mkExternals tuple_hash (fun _ => None)
              (fun _ texts => Ok (map vector texts))
              cosine stable_argsort.

(** The same, with a model that cannot be loaded. *)
Definition env_no_model : Externals :=
  mkExternals tuple_hash (fun _ => Some (Exception "model not found"))
              (fun _ texts => Ok (map vector texts))
              cosine stable_argsort.

(** The same, with an embedder that fails on every batch. *)
Definition env_failing : Externals :=
  mkExternals tuple_hash (fun _ => None)
              (fun _ _ => Raise (Exception "CUDA out of memory"))
              cosine stable_argsort.

End Stub.

(* ===================================================================== *)
(** ** The vocabulary of the statements *)
(* ===================================================================== *)

(** The calls of [l] that a check at time [now] would keep. *)
Definition recent (w : Z) (now : Q) (l : list Q) : list Q :=
  List.filter (fun t => Qltb (now - t) (inject_Z w)) l.

(** Closed comparisons of rationals. *)
Ltac Qclosed :=
  vm_compute; first [reflexivity | discriminate | (intro; discriminate)].

(** [st] after one more call of [self.model.encode]. *)
Definition bump_encodes (st : Service) : Service :=
  mkService (model_name st) (model st) (rate_limiter st) (_cache st)
            (loads st) (S (encodes st)).

(** The service once the rate limiter has seen the call, and once
    [initialize] has run after that. *)
Definition checked (st : Service) (now : Q) (client_id : string) : Service :=
  with_rate_limiter st (fst (is_allowed (rate_limiter st) now client_id)).

Definition ready (E : Externals) (st : Service) (now : Q) (client_id : string)
  : Service :=
  fst (initialize E (checked st now client_id) 3).

Definition admitted (st : Service) (now : Q) (client_id : string) : Prop :=
  snd (is_allowed (rate_limiter st) now client_id) = true.

Definition loaded (E : Externals) (st : Service) (now : Q) (client_id : string)
  : Prop :=
  snd (initialize E (checked st now client_id) 3) = Ok tt.

(** [cache_key] of a batch. *)
Definition cache_key (E : Externals) (texts : list pyval) : Z :=
  hash E (clean_texts texts).

(** The six ways a call of [encode_texts] ends. *)
Inductive encode_outcome (E : Externals) (st : Service) (now : Q)
    (texts : list pyval) (use_cache : bool) (client_id : string)
  : Service * result ndarray -> Prop :=
| enc_denied :
    snd (is_allowed (rate_limiter st) now client_id) = false ->
    encode_outcome E st now texts use_cache client_id
      (checked st now client_id, Raise (Exception rate_limit_message))
| enc_init_failed e :
    admitted st now client_id ->
    snd (initialize E (checked st now client_id) 3) = Raise e ->
    encode_outcome E st now texts use_cache client_id
      (ready E st now client_id, Raise e)
| enc_empty :
    admitted st now client_id ->
    loaded E st now client_id ->
    clean_texts texts = [] ->
    encode_outcome E st now texts use_cache client_id
      (ready E st now client_id, Ok [])
| enc_hit cached :
    admitted st now client_id ->
    loaded E st now client_id ->
    clean_texts texts <> [] ->
    use_cache = true ->
    Dict.get (cache_key E texts) (_cache st) = Some cached ->
    encode_outcome E st now texts use_cache client_id
      (ready E st now client_id, Ok cached)
| enc_failed e :
    admitted st now client_id ->
    loaded E st now client_id ->
    clean_texts texts <> [] ->
    (use_cache = true -> Dict.get (cache_key E texts) (_cache st) = None) ->
    model_encode E (encodes st) (clean_texts texts) = Raise e ->
    encode_outcome E st now texts use_cache client_id
      (bump_encodes (ready E st now client_id),
       Raise (Exception ("Embedding generation failed: " +:+ str_exn e)))
| enc_encoded embeddings :
    admitted st now client_id ->
    loaded E st now client_id ->
    clean_texts texts <> [] ->
    (use_cache = true -> Dict.get (cache_key E texts) (_cache st) = None) ->
    model_encode E (encodes st) (clean_texts texts) = Ok embeddings ->
    encode_outcome E st now texts use_cache client_id
      (if use_cache
       then with_cache (bump_encodes (ready E st now client_id))
              (evict (Dict.set (cache_key E texts) embeddings (_cache st)))
       else bump_encodes (ready E st now client_id),
       Ok embeddings).

Definition is_ok {A} (r : result A) : bool :=
  match r with Ok _ => true | Raise _ => false end.

(** No key twice (a dict), and at most 1000 entries. *)
Definition cache_inv (st : Service) : Prop :=
  NoDup (Dict.keys (_cache st)) /\ length (_cache st) <= 1000.

(** The cache after [entry] is appended to [c] and the result trimmed. *)
Definition append_trim (c : Dict.t) (entry : Z * ndarray) : Dict.t :=
  if (1000 <? length (c ++ [entry]))%nat
  then drop 100 (c ++ [entry])
  else c ++ [entry].

(** The key a call stores in the cache, if any: it stores one exactly when
    it runs with the cache enabled, reaches [self.model.encode] and
    returns. *)
Definition inserted_key (E : Externals) (st : Service) (now : Q)
    (texts : list pyval) (use_cache : bool) (client_id : string) : list Z :=
  let r := encode_texts E st now texts use_cache client_id in
  if use_cache && (encodes (fst r) =? S (encodes st))%nat && is_ok (snd r)
  then [cache_key E texts]
  else [].

(** A call of [encode_texts] with its arguments and clock value. *)
Record encode_call := mkCall {
  call_now : Q;
  call_texts : list pyval;
  call_use_cache : bool;
  call_client : string
}.

Definition encode_step (E : Externals) (st : Service) (c : encode_call)
  : Service :=
  fst (encode_texts E st (call_now c) (call_texts c) (call_use_cache c)
         (call_client c)).

(** The service after a sequence of calls. *)
Definition encode_calls (E : Externals) (st : Service)
    (cs : list encode_call) : Service :=
  fold_left (encode_step E) cs st.

(** The keys the calls store, in the order they store them. *)
Fixpoint insertions (E : Externals) (st : Service) (cs : list encode_call)
  : list Z :=
  match cs with
  | [] => []
  | c :: rest =>
      inserted_key E st (call_now c) (call_texts c) (call_use_cache c)
                   (call_client c)
      ++ insertions E (encode_step E st c) rest
  end.

(** A chunk passes the filter when it is a dict whose ['text'] is a string
    of more than 10 characters once stripped. *)
Inductive meaningful : chunk -> string -> Prop :=
| meaningful_text text type :
    10 < PyStr.len (PyStr.strip text) ->
    meaningful (ChunkDict (Some (PyStr text)) type) text.

(** [query_similarities[idx]], 0 outside the row. *)
Definition score (row : list Q) (idx : nat) : Q := default 0%Q (row !! idx).

Definition ascending (row : list Q) (x y : nat) : Prop :=
  (score row x <= score row y)%Q.

Definition descending (row : list Q) (x y : nat) : Prop :=
  (score row y <= score row x)%Q.

(** What numpy promises of [argsort] on a row: the indices of the row,
    each once, in ascending order of their values.  The order of indices
    with equal values is not part of it. *)
Definition argsort_ok (E : Externals) (row : list Q) : Prop :=
  Permutation (argsort E row) (seq 0 (length row)) /\
  StronglySorted (ascending row) (argsort E row).

(** The test [query_similarities[idx] > 0.1]. *)
Definition above_threshold (row : list Q) (idx : nat) : bool :=
  Qltb (1 # 10) (score row idx).

(** [tm] is the entry of [top_matches] for the chunk of index [idx]: its
    score in the row, with the preview and the kind of its metadata. *)
Definition listed (row : list Q) (md : list metadata) (idx : nat)
    (tm : top_match) : Prop :=
  exists m,
    row !! idx = Some (tm_score tm) /\
    md !! idx = Some m /\
    tm_content tm = original_text m /\
    tm_type tm = md_type m.

(** A query that the cleaning step keeps. *)
Definition usable (q : pyval) : Prop :=
  exists s, q = PyStr s /\ 0 < PyStr.len (PyStr.strip s).

(** [v] has one non-empty row per text of [batch]. *)
Definition shaped (batch : list string) (v : ndarray) : Prop :=
  length v = length batch /\ Forall (fun row => row <> []) v.

(** The embedder returns one vector of positive dimension per text. *)
Definition encoder_shape (E : Externals) : Prop :=
  forall k texts emb, model_encode E k texts = Ok emb -> shaped texts emb.

(** [cosine_similarity(X, Y)] has one row per row of [X] and one column
    per row of [Y]. *)
Definition cosine_shape (E : Externals) : Prop :=
  forall X Y M,
    cosine_similarity E X Y = Ok M ->
    length M = length X /\ Forall (fun row => length row = length Y) M.

(** What the cache holds under the key of [batch], if anything, has the
    shape of an embedding of [batch]: the key is not taken by a batch of
    another shape. *)
Definition faithful_at (E : Externals) (c : Dict.t) (batch : list string)
  : Prop :=
  forall v, Dict.get (hash E batch) c = Some v -> shaped batch v.

(** A row the loop can process: not empty, as long as the metadata, and
    sorted as numpy promises. *)
Definition row_ok (E : Externals) (md : list metadata) (row : list Q) : Prop :=
  row <> [] /\ length md = length row /\ argsort_ok E row.

(* ===================================================================== *)
(** ** The callers in main.py *)
(* ===================================================================== *)

(** Truth value of a Python value in a condition. *)
Definition truthy (v : pyval) : bool :=
  match v with
  | PyStr EmptyString => false
  | PyStr _ => true
  | PyInt n => negb (n =? 0)%Z
  | PyNone => false
  end.

(** An element of [scan_result.faq_data]: a dict, of which the keys
    ['question'] and ['answer'] are read, or something else. *)
Inductive faq :=
| FaqDict (question answer : option pyval)
| FaqOther (v : pyval).

(** What [perform_semantic_analysis] reads of [scan_result].  A field is
    [None] when the object has no such attribute; [extracted_content] is
    [Some None] when the attribute is [None]; [faq_data] is tested with
    [hasattr] first. *)
Record ScanResult := mkScanResult {
  headings : option (list (string * list string));
  extracted_content : option (option string);
  faq_data : option (list faq)
}.

(** [s.split('\n\n')]: the first piece and the pieces after it. *)
Fixpoint split_pieces (s : string) : string * list string :=
  match s with
  | EmptyString => (EmptyString, [])
  | String "010" (String "010" r) =>
      let '(p, ps) := split_pieces r in (EmptyString, p :: ps)
  | String c r =>
      let '(p, ps) := split_pieces r in (String c p, ps)
  end.

Definition split_paragraphs (s : string) : list string :=
  let '(p, ps) := split_pieces s in p :: ps.

(** The chunks of the loop over [scan_result.headings.items()]. *)
Definition heading_chunks (hs : list (string * list string)) : list chunk :=
  flat_map
    (fun '(level, hds) =>
       flat_map
         (fun heading =>
            if (5 <? PyStr.len (PyStr.strip heading))%nat
            then [ChunkDict (Some (PyStr heading))
                            (Some (PyStr ("heading_" +:+ level)))]
            else [])
         hds)
    hs.

(** [[p.strip() for p in content.split('\n\n') if len(p.strip()) > 20]] *)
Definition paragraphs (content : string) : list string :=
  map PyStr.strip
      (List.filter (fun p => (20 <? PyStr.len (PyStr.strip p))%nat)
                   (split_paragraphs content)).

(** The chunks of the main content: the first 20 paragraphs. *)
Definition paragraph_chunks (content : option string) : list chunk :=
  match content with
  | None | Some EmptyString => []
  | Some c =>
      map (fun paragraph =>
             ChunkDict (Some (PyStr paragraph)) (Some (PyStr "paragraph")))
          (take 20 (paragraphs c))
  end.

(** The chunks of one element of [faq_data]. *)
Definition faq_chunks (f : faq) : list chunk :=
  match f with
  | FaqDict q a =>
      let question := default (PyStr "") q in
      let answer := default (PyStr "") a in
      (if truthy question
       then [ChunkDict (Some question) (Some (PyStr "faq_question"))]
       else [])
      ++ (if truthy answer
          then [ChunkDict (Some answer) (Some (PyStr "faq_answer"))]
          else [])
  | FaqOther _ => []
  end.

(** The dict [perform_semantic_analysis] returns: the one for no queries,
    the report of the analyzer, or the one of its [except] clause, with the
    message after ["Semantic analysis failed: "]. *)
Inductive semantic_analysis :=
| NoQueriesProvided
| Analysis (r : report)
| SemanticAnalysisFailed (msg : string).

Definition no_attribute (name : string) : string :=
  "'ScanResult' object has no attribute '" +:+ name +:+ "'".

(** [perform_semantic_analysis(scan_result, queries, client_ip)] *)
Definition perform_semantic_analysis (E : Externals) (st : Service)
    (now1 now2 : Q) (scan_result : ScanResult) (queries : list pyval)
    (client_ip : string) : Service * semantic_analysis :=
  match queries with
  | [] => (st, NoQueriesProvided)
  | _ =>
      let queries :=
        if (10 <? length queries)%nat then take 10 queries else queries in
      match headings scan_result with
      | None => (st, SemanticAnalysisFailed (no_attribute "headings"))
      | Some hs =>
          match extracted_content scan_result with
          | None =>
              (st, SemanticAnalysisFailed (no_attribute "extracted_content"))
          | Some content =>
              let content_chunks :=
                heading_chunks hs ++ paragraph_chunks content
                ++ match faq_data scan_result with
                   | Some faqs => flat_map faq_chunks faqs
                   | None => []
                   end in
              let '(st', r) :=
                analyze_content_relevance E st now1 now2 queries
                  content_chunks client_ip in
              (st', Analysis r)
          end
      end
  end.

(** The [HealthStatus] of [health_check], without its time stamp. *)
Record HealthStatus := mkHealthStatus {
  hs_status : string;
  hs_services : list (string * string);
  hs_version : string
}.

(** [health_check()], the handler with [response_model=HealthStatus]
    (the first of the two functions of this name in main.py); the
    [timestamp] of the answer is left out. *)
Definition health_check (E : Externals) (st : Service)
  : Service * HealthStatus :=
  let '(st', semantic_status) :=
    match (if model st then (st, Ok tt) else initialize E st 3) with
    | (st', Ok _) => (st', if model st' then "healthy" else "unhealthy")
    | (st', Raise _) => (st', "unhealthy")
    end in
  (st',
   mkHealthStatus
     (if String.eqb semantic_status "healthy" then "healthy" else "degraded")
     [("semantic_analysis", semantic_status); ("web_crawler", "healthy")]
     "1.0.0").

(** [RateLimitMiddleware] of main.py: [self.calls_per_minute] and the
    [defaultdict(list)] [self.client_calls]. *)
Record RateLimitMiddleware := mkRateLimitMiddleware {
  calls_per_minute : Z;
  client_calls : gmap string (list Q)
}.

(** What [__call__] returns: the 429 [JSONResponse], or what
    [call_next(request)] returns. *)
Inductive response :=
| TooManyRequests
| Forwarded.

(** [RateLimitMiddleware.__call__]; [client_ip] is [request.client.host]
    and [now] the value of [time.time()].  The cleaned list is stored
    first; [append] then changes the stored list. *)
Definition __call__ (mw : RateLimitMiddleware) (now : Q) (client_ip : string)
  : RateLimitMiddleware * response :=
  let kept :=
    List.filter (fun call_time => Qltb (now - call_time) 60)
                (default [] (client_calls mw !! client_ip)) in
  let cleaned := <[client_ip := kept]> (client_calls mw) in
  if (calls_per_minute mw <=?
      Z.of_nat (length (default [] (cleaned !! client_ip))))%Z
  then (mkRateLimitMiddleware (calls_per_minute mw) cleaned, TooManyRequests)
  else (mkRateLimitMiddleware (calls_per_minute mw)
          (<[client_ip := default [] (cleaned !! client_ip) ++ [now]]> cleaned),
        Forwarded).

(* ===================================================================== *)
(** ** More vocabulary *)
(* ===================================================================== *)

(** The [RateLimiter] with the configuration and the recorded times of a
    middleware. *)
Definition as_rate_limiter (mw : RateLimitMiddleware) : RateLimiter :=
  mkRateLimiter (calls_per_minute mw) 60 (client_calls mw).

(** Requests through the middleware, in order, each with its client and
    its time. *)
Definition middleware_trace (mw : RateLimitMiddleware)
    (requests : list (string * Q)) : RateLimitMiddleware :=
  fold_left (fun m c => fst (__call__ m (snd c) (fst c))) requests mw.

(** Calls of [is_allowed] for any identifiers, in order. *)
Definition is_allowed_trace (rl : RateLimiter) (cs : list (string * Q))
  : RateLimiter :=
  fold_left (fun r c => fst (is_allowed r (snd c) (fst c))) cs rl.

(** No identifier has more recorded calls than [max_calls] allows. *)
Definition window_bounded (rl : RateLimiter) : Prop :=
  forall identifier,
    (Z.of_nat (length (calls_of rl identifier)) <= Z.max 0 (max_calls rl))%Z.

(** The recorded times of [identifier] are in order and none is later
    than [t0]. *)
Definition chronological (rl : RateLimiter) (identifier : string) (t0 : Q)
  : Prop :=
  StronglySorted Qle (calls_of rl identifier) /\
  Forall (fun t => (t <= t0)%Q) (calls_of rl identifier).

(** The verdicts [_generate_recommendations] counts. *)
Definition unanswered (qa : list verdict) : list verdict :=
  List.filter (fun v => negb (is_answered v)) qa.

Definition low_confidence (qa : list verdict) : list verdict :=
  List.filter (fun v => is_answered v && Qltb (confidence v) (6 # 10)) qa.

Definition excellent_message : string :=
  "Excellent content coverage! Consider adding FAQ schema markup for better AEO performance.".

Definition good_message : string :=
  "Good content coverage. Focus on improving answer clarity and adding structured data.".

(** The place of a recommendation in the list: the order in which
    [_generate_recommendations] appends. *)
Definition recommendation_rank (r : recommendation) : nat :=
  match r with
  | LowCoverage _ => 0
  | NoRelevantContent _ _ => 1
  | WeakMatches _ => 2
  | Literal _ => 3
  | AnalysisFailed _ => 4
  end.

(** The call [c] on [st] reaches [self._cache[cache_key] = embeddings]:
    the cache is enabled, the rate limiter admits the call, the model is
    or gets loaded, the cleaned batch is not empty, its key is not in the
    cache, and the embedder returns [embeddings]. *)
Definition stores (E : Externals) (st : Service) (c : encode_call)
    (embeddings : ndarray) : Prop :=
  call_use_cache c = true /\
  admitted st (call_now c) (call_client c) /\
  loaded E st (call_now c) (call_client c) /\
  clean_texts (call_texts c) <> [] /\
  Dict.get (cache_key E (call_texts c)) (_cache st) = None /\
  model_encode E (encodes st) (clean_texts (call_texts c)) = Ok embeddings.

(** Every call of the sequence stores its batch. *)
Fixpoint all_store (E : Externals) (st : Service) (cs : list encode_call)
  : Prop :=
  match cs with
  | [] => True
  | c :: rest =>
      (exists embeddings, stores E st c embeddings) /\
      all_store E (encode_step E st c) rest
  end.

(** The keys of the batches of a sequence of calls. *)
Definition call_keys (E : Externals) (cs : list encode_call) : list Z :=
  map (fun c => cache_key E (call_texts c)) cs.

(* ===================================================================== *)
(** ** Strings and comparisons *)
(* ===================================================================== *)

Module PyStrFacts.
Import PyStr.

Lemma len_take n s : len (take n s) = Nat.min n (len s).
Proof.
  unfold len.
  revert s; induction n as [|n IH]; intros [|c r]; simpl; try reflexivity.
  now rewrite IH.
Qed.


Lemma take_all n s : len s <= n -> take n s = s.
Proof.
  unfold len.
  revert s; induction n as [|n IH]; intros [|c r]; simpl; intros H;
    try reflexivity; try lia.
  f_equal. apply IH. lia.
Qed.

End PyStrFacts.

Lemma Qltb_lt a b : Qltb a b = true <-> (a < b)%Q.
Proof.
  unfold Qltb. rewrite Qlt_alt. destruct (Qcompare a b); split; congruence.
Qed.

Lemma Qltb_ge a b : Qltb a b = false <-> (b <= a)%Q.
Proof.
  unfold Qltb. rewrite Qle_alt.
  rewrite <- (Qcompare_antisym a b).
  destruct (Qcompare a b); simpl; split; congruence.
Qed.

(* ===================================================================== *)
(** ** The rate limiter *)
(* ===================================================================== *)

Section RateLimiterFacts.

Variable rl : RateLimiter.
Variable identifier : string.

Lemma calls_of_set_calls l :
  calls_of (set_calls rl identifier l) identifier = l.
Proof. unfold calls_of, set_calls; simpl. now rewrite lookup_insert_eq. Qed.

Lemma calls_of_set_calls_ne other l :
  other <> identifier ->
  calls_of (set_calls rl identifier l) other = calls_of rl other.
Proof.
  intros Hne. unfold calls_of, set_calls; simpl.
  rewrite lookup_insert_ne; [reflexivity | congruence].
Qed.

Lemma is_allowed_admits now :
  snd (is_allowed rl now identifier) = true <->
  (Z.of_nat (length (prune rl now identifier)) < max_calls rl)%Z.
Proof.
  unfold is_allowed.
  destruct (Z.leb_spec (max_calls rl)
              (Z.of_nat (length (prune rl now identifier)))); simpl;
    split; intros; try lia; congruence.
Qed.

Lemma is_allowed_calls now :
  calls_of (fst (is_allowed rl now identifier)) identifier =
  if snd (is_allowed rl now identifier)
  then prune rl now identifier ++ [now]
  else prune rl now identifier.
Proof.
  unfold is_allowed.
  destruct (max_calls rl <=? _)%Z; simpl; apply calls_of_set_calls.
Qed.

Lemma is_allowed_frame now :
  max_calls (fst (is_allowed rl now identifier)) = max_calls rl /\
  window (fst (is_allowed rl now identifier)) = window rl /\
  forall other, other <> identifier ->
    calls_of (fst (is_allowed rl now identifier)) other = calls_of rl other.
Proof.
  unfold is_allowed.
  destruct (max_calls rl <=? _)%Z; simpl; repeat split;
    intros; now apply calls_of_set_calls_ne.
Qed.

End RateLimiterFacts.

Lemma filter_filter_weaker {A} (p q : A -> bool) (l : list A) :
  (forall x, p x = true -> q x = true) ->
  List.filter p (List.filter q l) = List.filter p l.
Proof.
  intros Hpq. induction l as [|x l IH]; simpl; [reflexivity|].
  destruct (q x) eqn:Hq; simpl.
  - now rewrite IH.
  - destruct (p x) eqn:Hp; [|exact IH].
    apply Hpq in Hp. congruence.
Qed.

Lemma sublist_List_filter {A} (p : A -> bool) (l : list A) :
  sublist (List.filter p l) l.
Proof.
  induction l as [|x l IH]; simpl; [constructor|].
  destruct (p x); now constructor.
Qed.

Lemma prune_recent rl now identifier :
  prune rl now identifier = recent (window rl) now (calls_of rl identifier).
Proof. reflexivity. Qed.

(** A call admitted at [t], no later than [now] and still inside the window
    at [now], adds one to the calls a check at [now] keeps. *)
Lemma admitted_call_counts rl identifier t now :
  (t <= now)%Q -> (now - t < inject_Z (window rl))%Q ->
  snd (is_allowed rl t identifier) = true ->
  length (recent (window rl) now
            (calls_of (fst (is_allowed rl t identifier)) identifier)) =
  S (length (recent (window rl) now (calls_of rl identifier))).
Proof.
  intros Hle Hin Hadm.
  rewrite is_allowed_calls, Hadm, prune_recent.
  unfold recent at 1. rewrite List.filter_app, List.length_app.
  fold (recent (window rl) now (recent (window rl) t (calls_of rl identifier))).
  unfold recent at 1 2.
  rewrite filter_filter_weaker.
  - simpl. apply Qltb_lt in Hin. rewrite Hin. simpl.
    unfold recent. lia.
  - intros x Hx. apply Qltb_lt in Hx. apply Qltb_lt. lra.
Qed.

Lemma is_allowed_seq_window rl identifier times :
  window (fst (is_allowed_seq rl identifier times)) = window rl /\
  max_calls (fst (is_allowed_seq rl identifier times)) = max_calls rl.
Proof.
  revert rl; induction times as [|t times IH]; intros rl; simpl; [easy|].
  destruct (is_allowed rl t identifier) as [rl1 b] eqn:H1.
  specialize (IH rl1).
  destruct (is_allowed_seq rl1 identifier times) as [rl2 bs]; simpl in *.
  pose proof (is_allowed_frame rl identifier t) as (Hm & Hw & _).
  rewrite H1 in Hm, Hw; simpl in *. intuition congruence.
Qed.

Lemma admitted_calls_count rl identifier now times :
  Forall (fun t => t <= now /\ now - t < inject_Z (window rl))%Q times ->
  Forall (fun b => b = true) (snd (is_allowed_seq rl identifier times)) ->
  length (recent (window rl) now
            (calls_of (fst (is_allowed_seq rl identifier times)) identifier)) =
  length (recent (window rl) now (calls_of rl identifier)) + length times.
Proof.
  revert rl; induction times as [|t times IH]; intros rl Hin Hadm; simpl.
  - lia.
  - inversion Hin as [|? ? [Hle Hlt] Hin']; subst.
    simpl in Hadm.
    pose proof (admitted_call_counts rl identifier t now Hle Hlt) as Hstep.
    pose proof (is_allowed_frame rl identifier t) as (_ & Hw & _).
    destruct (is_allowed rl t identifier) as [rl1 b] eqn:H1; simpl in *.
    specialize (IH rl1).
    destruct (is_allowed_seq rl1 identifier times) as [rl2 bs] eqn:H2;
      simpl in *.
    inversion Hadm; subst.
    rewrite Hw in IH. rewrite IH; auto.
    rewrite Hstep; [lia | reflexivity].
Qed.

(** C2.  [is_allowed] keeps one sequence of call times per identifier.  A
    check at [now] keeps, in order, the recorded times [t] with
    [now - t < window] and drops the others; it admits exactly when fewer
    than [max_calls] remain; it records [now] after them when it admits and
    records nothing when it denies; other identifiers and the configuration
    are untouched.  Hence, after [max_calls] admitted calls that are all
    still inside the window at [now], a call at [now] is denied; and when
    the window has passed since every recorded time, a call is admitted and
    the sequence starts afresh at [now]. *)
Theorem is_allowed_sliding_window (rl : RateLimiter) (identifier : string) :
  (forall now,
      let kept := prune rl now identifier in
      let after := is_allowed rl now identifier in
      (forall t, In t kept <->
                 In t (calls_of rl identifier) /\
                 (now - t < inject_Z (window rl))%Q) /\
      sublist kept (calls_of rl identifier) /\
      (snd after = true <-> (Z.of_nat (length kept) < max_calls rl)%Z) /\
      calls_of (fst after) identifier
        = (if snd after then kept ++ [now] else kept) /\
      (forall other, other <> identifier ->
                     calls_of (fst after) other = calls_of rl other) /\
      max_calls (fst after) = max_calls rl /\
      window (fst after) = window rl) /\
  (forall now times,
      Z.of_nat (length times) = max_calls rl ->
      Forall (fun t => t <= now /\ now - t < inject_Z (window rl))%Q times ->
      Forall (fun b => b = true) (snd (is_allowed_seq rl identifier times)) ->
      snd (is_allowed (fst (is_allowed_seq rl identifier times))
                      now identifier) = false) /\
  (forall now,
      (0 < max_calls rl)%Z ->
      Forall (fun t => inject_Z (window rl) <= now - t)%Q
             (calls_of rl identifier) ->
      is_allowed rl now identifier = (set_calls rl identifier [now], true)).
Proof.
  split; [|split].
  - intros now kept after. subst kept after.
    refine (conj _ (conj _ (conj _ (conj _ (conj _ (conj _ _)))))).
    + intros t. unfold prune. rewrite List.filter_In, Qltb_lt. reflexivity.
    + unfold prune. apply sublist_List_filter.
    + apply is_allowed_admits.
    + apply is_allowed_calls.
    + apply (proj2 (proj2 (is_allowed_frame rl identifier now))).
    + apply (proj1 (is_allowed_frame rl identifier now)).
    + apply (proj1 (proj2 (is_allowed_frame rl identifier now))).
  - intros now times Hlen Hin Hadm.
    pose proof (admitted_calls_count rl identifier now times Hin Hadm) as Hc.
    destruct (is_allowed_seq_window rl identifier times) as [Hw Hm].
    destruct (snd (is_allowed _ now identifier)) eqn:Hs; [|reflexivity].
    apply is_allowed_admits in Hs.
    rewrite prune_recent, Hw, Hc, Hm in Hs. lia.
  - intros now Hpos Hold.
    assert (Hk : prune rl now identifier = []).
    { unfold prune. induction (calls_of rl identifier) as [|t l IH];
        [reflexivity|].
      inversion Hold; subst. simpl.
      assert (Qltb (now - t) (inject_Z (window rl)) = false) as ->
          by now apply Qltb_ge.
      auto. }
    unfold is_allowed. rewrite Hk. simpl.
    destruct (Z.leb_spec (max_calls rl) (Z.of_nat 0)) as [Hle|Hgt];
      [lia | reflexivity].
Qed.

Lemma is_allowed_sliding_window_witness :
  snd (is_allowed
         (fst (is_allowed_seq (new_rate_limiter 2 10) "client" [0; 1]%Q))
         5 "client") = false /\
  is_allowed (set_calls (new_rate_limiter 2 10) "client" [0; 1]%Q) 11 "client"
  = (set_calls (set_calls (new_rate_limiter 2 10) "client" [0; 1]%Q)
               "client" [11%Q], true).
Proof.
  split.
  - apply (proj1 (proj2 (is_allowed_sliding_window
                           (new_rate_limiter 2 10) "client"))).
    + reflexivity.
    + repeat constructor; Qclosed.
    + repeat constructor.
  - apply (proj2 (proj2 (is_allowed_sliding_window
                           (set_calls (new_rate_limiter 2 10) "client"
                                      [0; 1]%Q) "client"))).
    + reflexivity.
    + rewrite calls_of_set_calls. repeat constructor; Qclosed.
Defined.

(* ===================================================================== *)
(** ** The cache as a dict *)
(* ===================================================================== *)

Module DictFacts.
Import Dict.

Lemma get_None_keys k d : get k d = None <-> ~ In k (keys d).
Proof.
  induction d as [|[k' v] d IH]; simpl; [tauto|].
  destruct (Z.eqb_spec k k'); split; intros H.
  - discriminate.
  - exfalso. apply H. left. congruence.
  - intros [Heq|Hin]; [congruence | now apply IH].
  - apply IH. intros Hin. apply H. now right.
Qed.

Lemma get_Some_In k v d : get k d = Some v -> In (k, v) d.
Proof.
  induction d as [|[k' v'] d IH]; simpl; [discriminate|].
  destruct (Z.eqb_spec k k'); intros H.
  - left. congruence.
  - right. auto.
Qed.

Lemma set_new k v d : get k d = None -> set k v d = d ++ [(k, v)].
Proof.
  induction d as [|[k' v'] d IH]; simpl; [reflexivity|].
  destruct (Z.eqb_spec k k'); [discriminate|].
  intros H. now rewrite IH.
Qed.

Lemma get_set_eq k v d : get k (set k v d) = Some v.
Proof.
  induction d as [|[k' v'] d IH]; simpl.
  - now rewrite Z.eqb_refl.
  - destruct (Z.eqb_spec k k') as [->|Hne]; simpl.
    + now rewrite Z.eqb_refl.
    + destruct (Z.eqb_spec k k'); [contradiction | exact IH].
Qed.

Lemma get_set_ne k k' v d : k' <> k -> get k' (set k v d) = get k' d.
Proof.
  intros Hne. induction d as [|[k0 v0] d IH]; simpl.
  - destruct (Z.eqb_spec k' k); [contradiction | reflexivity].
  - destruct (Z.eqb_spec k k0) as [->|Hk]; simpl.
    + destruct (Z.eqb_spec k' k0); [contradiction | reflexivity].
    + now rewrite IH.
Qed.

Lemma del_absent k d : ~ In k (keys d) -> del k d = d.
Proof.
  induction d as [|[k' v] d IH]; simpl; [reflexivity|].
  intros H. destruct (Z.eqb_spec k k') as [->|Hne]; simpl.
  - exfalso. apply H. now left.
  - f_equal. apply IH. intros Hin. apply H. now right.
Qed.

(** Deleting the first [n] keys of a dict removes its first [n] entries. *)
Lemma del_oldest d :
  NoDup (keys d) ->
  forall n, fold_left (fun c key => del key c) (take n (keys d)) d = drop n d.
Proof.
  induction d as [|[k v] d IH]; intros Hnd n.
  - now destruct n.
  - destruct n as [|n]; [reflexivity|].
    simpl in Hnd. apply NoDup_cons in Hnd as [Hk Hnd].
    cbn [keys map fst take fold_left drop].
    unfold del at 2. cbn [List.filter fst]. rewrite Z.eqb_refl.
    cbn [negb]. fold (del k d).
    rewrite del_absent by (now rewrite <- list_elem_of_In).
    now apply IH.
Qed.

Lemma get_drop k v n d : get k (drop n d) = Some v -> In (k, v) d.
Proof.
  intros H. apply get_Some_In in H.
  rewrite <- (take_drop n d). apply in_or_app. now right.
Qed.

End DictFacts.

(** The cache after an insertion is trimmed: beyond 1000 entries the first
    100 go. *)
Lemma evict_drop c :
  NoDup (Dict.keys c) ->
  evict c = if (1000 <? length c)%nat then drop 100 c else c.
Proof.
  intros Hnd. unfold evict.
  destruct (1000 <? length c)%nat; [|reflexivity].
  now apply DictFacts.del_oldest.
Qed.

(* ===================================================================== *)
(** ** The outcomes of [initialize] and [encode_texts] *)
(* ===================================================================== *)

Lemma initialize_frame E st n :
  rate_limiter (fst (initialize E st n)) = rate_limiter st /\
  _cache (fst (initialize E st n)) = _cache st /\
  encodes (fst (initialize E st n)) = encodes st /\
  model_name (fst (initialize E st n)) = model_name st.
Proof.
  unfold initialize. destruct (model st); [easy|].
  destruct (load_attempts E (loads st) n None) as [k r]. easy.
Qed.

Lemma initialize_ok E st n u :
  snd (initialize E st n) = Ok u -> model (fst (initialize E st n)) = true.
Proof.
  unfold initialize. destruct (model st) eqn:Hm; [easy|].
  destruct (load_attempts E (loads st) n None) as [k r]; simpl.
  now intros ->.
Qed.

Lemma initialize_loaded E st n :
  model st = true -> initialize E st n = (st, Ok tt).
Proof. unfold initialize. now intros ->. Qed.

Lemma ready_frame E st now client_id :
  rate_limiter (ready E st now client_id)
    = fst (is_allowed (rate_limiter st) now client_id) /\
  _cache (ready E st now client_id) = _cache st /\
  encodes (ready E st now client_id) = encodes st /\
  model_name (ready E st now client_id) = model_name st.
Proof.
  unfold ready.
  pose proof (initialize_frame E (checked st now client_id) 3)
    as (-> & -> & -> & ->).
  easy.
Qed.

Lemma encode_texts_outcome E st now texts use_cache client_id :
  encode_outcome E st now texts use_cache client_id
    (encode_texts E st now texts use_cache client_id).
Proof.
  pose proof (ready_frame E st now client_id) as (_ & Hc & He & _).
  pose proof (enc_denied E st now texts use_cache client_id) as Hdenied.
  pose proof (enc_init_failed E st now texts use_cache client_id) as Hinit.
  pose proof (enc_empty E st now texts use_cache client_id) as Hempty.
  pose proof (enc_hit E st now texts use_cache client_id) as Hhit.
  pose proof (enc_failed E st now texts use_cache client_id) as Hfailed.
  pose proof (enc_encoded E st now texts use_cache client_id) as Hencoded.
  unfold encode_texts, admitted, loaded, ready, checked, cache_key in *.
  destruct (is_allowed (rate_limiter st) now client_id) as [rl allowed].
  simpl fst in *; simpl snd in *.
  destruct allowed; simpl negb; cbv iota; [|now apply Hdenied].
  destruct (initialize E (with_rate_limiter st rl) 3) as [st2 r].
  simpl fst in *; simpl snd in *.
  destruct r as [[]|e]; [|now apply Hinit].
  destruct texts as [|t ts] eqn:Ht; [now apply Hempty|].
  rewrite <- Ht in *. clear Ht t ts.
  destruct (clean_texts texts) as [|c cs] eqn:Hcl; [now apply Hempty|].
  rewrite <- Hcl in *.
  assert (Hne : clean_texts texts <> []) by (rewrite Hcl; discriminate).
  clear Hcl c cs.
  rewrite Hc, He.
  destruct use_cache.
  - destruct (Dict.get (hash E (clean_texts texts)) (_cache st))
      as [cached|] eqn:Hget; [now apply Hhit|].
    destruct (model_encode E (encodes st) (clean_texts texts))
      as [emb|e] eqn:Hm.
    + specialize (Hencoded emb eq_refl eq_refl Hne (fun _ => eq_refl) eq_refl).
      unfold bump_encodes, with_cache in *. simpl in *.
      rewrite ?Hc in Hencoded; rewrite ?He in Hencoded; rewrite ?Hc; rewrite ?He.
      exact Hencoded.
    + specialize (Hfailed e eq_refl eq_refl Hne (fun _ => eq_refl) eq_refl).
      unfold bump_encodes in *. rewrite ?Hc in Hfailed; rewrite ?He in Hfailed; rewrite ?Hc; rewrite ?He.
      exact Hfailed.
  - destruct (model_encode E (encodes st) (clean_texts texts))
      as [emb|e] eqn:Hm.
    + assert (Hd : false = true -> Dict.get (hash E (clean_texts texts))
                                     (_cache st) = None) by discriminate.
      specialize (Hencoded emb eq_refl eq_refl Hne Hd eq_refl).
      unfold bump_encodes in *. rewrite ?Hc in Hencoded; rewrite ?He in Hencoded; rewrite ?Hc; rewrite ?He.
      exact Hencoded.
    + assert (Hd : false = true -> Dict.get (hash E (clean_texts texts))
                                     (_cache st) = None) by discriminate.
      specialize (Hfailed e eq_refl eq_refl Hne Hd eq_refl).
      unfold bump_encodes in *. rewrite ?Hc in Hfailed; rewrite ?He in Hfailed; rewrite ?Hc; rewrite ?He.
      exact Hfailed.
Qed.

(** Whatever the outcome, the rate limiter is the one [is_allowed] left. *)
Lemma encode_texts_rate_limiter E st now texts use_cache client_id :
  rate_limiter (fst (encode_texts E st now texts use_cache client_id))
  = fst (is_allowed (rate_limiter st) now client_id).
Proof.
  pose proof (ready_frame E st now client_id) as (Hr & _).
  destruct (encode_texts_outcome E st now texts use_cache client_id);
    simpl; try exact Hr; try reflexivity.
  destruct use_cache; simpl; exact Hr.
Qed.

(* ===================================================================== *)
(** ** The cache under [encode_texts] *)
(* ===================================================================== *)

Lemma encode_texts_cache E st now texts use_cache client_id :
  NoDup (Dict.keys (_cache st)) ->
  let r := encode_texts E st now texts use_cache client_id in
  (_cache (fst r) = _cache st /\
   inserted_key E st now texts use_cache client_id = []) \/
  (exists embeddings,
      use_cache = true /\
      Dict.get (cache_key E texts) (_cache st) = None /\
      model_encode E (encodes st) (clean_texts texts) = Ok embeddings /\
      snd r = Ok embeddings /\
      inserted_key E st now texts use_cache client_id = [cache_key E texts] /\
      _cache (fst r) = append_trim (_cache st) (cache_key E texts, embeddings)).
Proof.
  intros Hnd r. subst r. unfold inserted_key.
  pose proof (ready_frame E st now client_id) as (_ & Hc & He & _).
  assert (Hn : forall n, (n =? S n)%nat = false)
    by (intros n; apply Nat.eqb_neq; lia).
  destruct (encode_texts_outcome E st now texts use_cache client_id)
    as [Hd|e Ha Hi|Ha Hi Hcl|cached Ha Hi Hcl Hu Hget|e Ha Hi Hcl Hmiss Hm
        |emb Ha Hi Hcl Hmiss Hm]; simpl fst; simpl snd.
  - left. unfold checked; simpl. now rewrite Hn, andb_false_r.
  - left. rewrite Hc, He, Hn. now rewrite andb_false_r.
  - left. rewrite Hc, He, Hn. now rewrite andb_false_r.
  - left. rewrite Hc, He, Hn. now rewrite andb_false_r.
  - left. simpl. rewrite Hc. now rewrite andb_false_r.
  - destruct use_cache; simpl.
    + right. exists emb. rewrite He, Nat.eqb_refl. simpl.
      specialize (Hmiss eq_refl).
      repeat split; auto.
      rewrite DictFacts.set_new by assumption.
      assert (Hnd' : NoDup (Dict.keys (_cache st ++ [(cache_key E texts, emb)]))).
      { unfold Dict.keys. rewrite map_app. simpl.
        apply NoDup_app. repeat split; auto.
        - intros x Hx Hx'. apply list_elem_of_In in Hx.
          apply list_elem_of_In in Hx'. destruct Hx' as [<-|[]].
          now apply DictFacts.get_None_keys in Hmiss.
        - apply NoDup_singleton. }
      rewrite evict_drop by assumption. reflexivity.
    + left. now rewrite Hc.
Qed.

Lemma append_trim_length c entry :
  length c <= 1000 -> length (append_trim c entry) <= 1000.
Proof.
  intros H. unfold append_trim.
  destruct (Nat.ltb_spec 1000 (length (c ++ [entry]))) as [Hlt|Hge].
  - rewrite length_drop, List.length_app. simpl. lia.
  - exact Hge.
Qed.

Lemma append_trim_keys c k v :
  Dict.get k c = None -> NoDup (Dict.keys c) ->
  NoDup (Dict.keys (append_trim c (k, v))) /\
  exists evicted,
    Dict.keys c ++ [k] = evicted ++ Dict.keys (append_trim c (k, v)) /\
    (length evicted = 0 \/ length evicted = 100).
Proof.
  intros Hget Hnd.
  assert (Hnd' : NoDup (Dict.keys (c ++ [(k, v)]))).
  { unfold Dict.keys. rewrite map_app. simpl.
    apply NoDup_app. repeat split; auto.
    - intros x Hx Hx'. apply list_elem_of_In in Hx.
      apply list_elem_of_In in Hx'. destruct Hx' as [<-|[]].
      now apply DictFacts.get_None_keys in Hget.
    - apply NoDup_singleton. }
  assert (Hk : Dict.keys c ++ [k] = Dict.keys (c ++ [(k, v)]))
    by (unfold Dict.keys; now rewrite map_app).
  unfold append_trim.
  destruct (Nat.ltb_spec 1000 (length (c ++ [(k, v)]))) as [Hlt|Hge].
  - split.
    + unfold Dict.keys in *. rewrite <- skipn_map.
      rewrite <- (take_drop 100 (map fst (c ++ [(k, v)]))) in Hnd'.
      now apply NoDup_app in Hnd' as (_ & _ & ?).
    + exists (take 100 (Dict.keys (c ++ [(k, v)]))). split.
      * rewrite Hk. unfold Dict.keys. rewrite <- skipn_map.
        now rewrite take_drop.
      * right. rewrite length_take. unfold Dict.keys. rewrite length_map. lia.
  - split; [exact Hnd'|]. exists []. split; [exact Hk | now left].
Qed.

Lemma encode_texts_cache_inv E st now texts use_cache client_id :
  cache_inv st ->
  cache_inv (fst (encode_texts E st now texts use_cache client_id)).
Proof.
  intros [Hnd Hlen].
  destruct (encode_texts_cache E st now texts use_cache client_id Hnd)
    as [[Hc _]|(emb & _ & Hget & _ & _ & _ & Hc)]; unfold cache_inv; rewrite Hc.
  - easy.
  - split.
    + now apply append_trim_keys.
    + now apply append_trim_length.
Qed.

Lemma encode_calls_fifo E cs :
  forall st, cache_inv st ->
    cache_inv (encode_calls E st cs) /\
    exists evicted,
      Dict.keys (_cache st) ++ insertions E st cs
      = evicted ++ Dict.keys (_cache (encode_calls E st cs)).
Proof.
  induction cs as [|c cs IH]; intros st Hinv; simpl.
  - split; [exact Hinv|]. exists []. now rewrite app_nil_r.
  - pose proof (encode_texts_cache_inv E st (call_now c) (call_texts c)
                  (call_use_cache c) (call_client c) Hinv) as Hinv'.
    destruct (IH (encode_step E st c) Hinv') as [Hfin [ev Hev]].
    split; [exact Hfin|].
    destruct Hinv as [Hnd Hlen].
    destruct (encode_texts_cache E st (call_now c) (call_texts c)
                (call_use_cache c) (call_client c) Hnd)
      as [[Hc Hins]|(emb & _ & Hget & _ & _ & Hins & Hc)].
    + rewrite Hins. simpl. exists ev. rewrite <- Hev.
      unfold encode_step. now rewrite Hc.
    + rewrite Hins.
      destruct (append_trim_keys (_cache st) _ emb Hget Hnd)
        as [_ (ev0 & Hev0 & _)].
      exists (ev0 ++ ev).
      rewrite app_assoc, Hev0, <- Hc. fold (encode_step E st c).
      rewrite <- !app_assoc. f_equal. exact Hev.
Qed.

Lemma get_app k (a b : Dict.t) :
  Dict.get k (a ++ b)
  = match Dict.get k a with Some v => Some v | None => Dict.get k b end.
Proof.
  induction a as [|[k' v'] a IH]; simpl; [reflexivity|].
  now destruct (k =? k')%Z.
Qed.

Lemma get_drop_None k n (c : Dict.t) :
  Dict.get k c = None -> Dict.get k (drop n c) = None.
Proof.
  intros H. destruct (Dict.get k (drop n c)) as [v|] eqn:Hd; [|reflexivity].
  apply DictFacts.get_drop in Hd.
  apply DictFacts.get_None_keys in H. exfalso. apply H.
  unfold Dict.keys. apply in_map_iff. now exists (k, v).
Qed.

Lemma get_append_trim k v c :
  Dict.get k c = None -> Dict.get k (append_trim c (k, v)) = Some v.
Proof.
  intros H. unfold append_trim.
  destruct (Nat.ltb_spec 1000 (length (c ++ [(k, v)]))) as [Hlt|Hge].
  - rewrite List.length_app in Hlt; simpl in Hlt.
    rewrite drop_app_le by lia.
    rewrite get_app, get_drop_None by assumption.
    simpl. now rewrite Z.eqb_refl.
  - rewrite get_app, H. simpl. now rewrite Z.eqb_refl.
Qed.

Lemma In_get_NoDup k v (d : Dict.t) :
  NoDup (Dict.keys d) -> In (k, v) d -> Dict.get k d = Some v.
Proof.
  induction d as [|[k' v'] d IH]; simpl; [easy|].
  intros Hnd Hin. apply NoDup_cons in Hnd as [Hk Hnd].
  destruct Hin as [[= -> ->]|Hin].
  - now rewrite Z.eqb_refl.
  - destruct (Z.eqb_spec k k') as [->|Hne]; [|now apply IH].
    exfalso. apply Hk. apply list_elem_of_In.
    unfold Dict.keys. apply in_map_iff. now exists (k', v).
Qed.

Lemma get_append_trim_inv k k' v v' (c : Dict.t) :
  NoDup (Dict.keys c) -> Dict.get k c = None ->
  Dict.get k' (append_trim c (k, v)) = Some v' ->
  Dict.get k' c = Some v' \/ (k' = k /\ v' = v).
Proof.
  intros Hnd Hget Hk'.
  assert (Hin : In (k', v') (c ++ [(k, v)])).
  { unfold append_trim in Hk'.
    destruct (1000 <? length (c ++ [(k, v)]))%nat.
    - now apply DictFacts.get_drop in Hk'.
    - now apply DictFacts.get_Some_In in Hk'. }
  apply in_app_or in Hin as [Hin|[[= -> ->]|[]]].
  - left. now apply In_get_NoDup.
  - now right.
Qed.

Lemma set_evict_append_trim (c : Dict.t) k v :
  NoDup (Dict.keys c) -> Dict.get k c = None ->
  evict (Dict.set k v c) = append_trim c (k, v).
Proof.
  intros Hnd Hget.
  rewrite DictFacts.set_new by assumption.
  rewrite evict_drop; [reflexivity|].
  unfold Dict.keys. rewrite map_app. simpl.
  apply NoDup_app. repeat split; auto.
  - intros x Hx Hx'. apply list_elem_of_In in Hx.
    apply list_elem_of_In in Hx'. destruct Hx' as [<-|[]].
    now apply DictFacts.get_None_keys in Hget.
  - apply NoDup_singleton.
Qed.

(** A call that stores returns what the embedder returned and appends the
    entry to the cache, which is then trimmed. *)
Lemma encode_step_stores E st c embeddings :
  NoDup (Dict.keys (_cache st)) ->
  stores E st c embeddings ->
  snd (encode_texts E st (call_now c) (call_texts c) (call_use_cache c)
         (call_client c)) = Ok embeddings /\
  encodes (encode_step E st c) = S (encodes st) /\
  _cache (encode_step E st c)
  = append_trim (_cache st) (cache_key E (call_texts c), embeddings).
Proof.
  intros Hnd (Hu & Ha' & Hi' & Hcl' & Hget' & Hm').
  unfold encode_step, admitted, loaded in *.
  pose proof (ready_frame E st (call_now c) (call_client c))
    as (_ & Hc & He & _).
  destruct (encode_texts_outcome E st (call_now c) (call_texts c)
              (call_use_cache c) (call_client c))
    as [Hd|e Ha Hi|Ha Hi Hcl|cached Ha Hi Hcl Hu0 Hget|e Ha Hi Hcl Hmiss Hm
        |emb Ha Hi Hcl Hmiss Hm]; try congruence.
  rewrite Hm' in Hm. injection Hm as <-.
  rewrite Hu. cbn [fst snd with_cache bump_encodes _cache encodes].
  rewrite He.
  refine (conj eq_refl (conj eq_refl _)).
  now apply set_evict_append_trim.
Qed.

(** A call that does not store leaves the cache as it is. *)
Lemma encode_step_keeps E st c :
  (forall embeddings, ~ stores E st c embeddings) ->
  _cache (encode_step E st c) = _cache st.
Proof.
  intros Hno. unfold encode_step.
  pose proof (ready_frame E st (call_now c) (call_client c))
    as (_ & Hc & _).
  destruct (encode_texts_outcome E st (call_now c) (call_texts c)
              (call_use_cache c) (call_client c))
    as [Hd|e Ha Hi|Ha Hi Hcl|cached Ha Hi Hcl Hu0 Hget|e Ha Hi Hcl Hmiss Hm
        |emb Ha Hi Hcl Hmiss Hm]; cbn [fst]; try exact Hc; try reflexivity.
  destruct (call_use_cache c) eqn:Hu; cbn [_cache with_cache bump_encodes];
    [|exact Hc].
  exfalso. apply (Hno emb). unfold stores. rewrite Hu. auto 10.
Qed.

Lemma append_trim_cases (c : Dict.t) entry :
  length c <= 1000 ->
  (length c < 1000 -> append_trim c entry = c ++ [entry]) /\
  (length c = 1000 -> append_trim c entry = drop 100 c ++ [entry]).
Proof.
  intros Hle. unfold append_trim. rewrite List.length_app. simpl.
  split; intros Hl.
  - destruct (Nat.ltb_spec 1000 (length c + 1)); [lia | reflexivity].
  - destruct (Nat.ltb_spec 1000 (length c + 1)); [|lia].
    rewrite drop_app_le by lia. reflexivity.
Qed.

Lemma append_trim_history (c : Dict.t) k v :
  length c <= 1000 ->
  exists m,
    Dict.keys (append_trim c (k, v)) = drop m (Dict.keys c ++ [k]) /\
    (m = 0 \/ m = 100 /\ length (append_trim c (k, v)) = 901).
Proof.
  intros Hle.
  assert (Hk : Dict.keys (c ++ [(k, v)]) = Dict.keys c ++ [k])
    by (unfold Dict.keys; now rewrite map_app).
  unfold append_trim. rewrite List.length_app. simpl.
  destruct (Nat.ltb_spec 1000 (length c + 1)).
  - exists 100. split.
    + unfold Dict.keys in *. now rewrite <- skipn_map, Hk.
    + right. split; [reflexivity|].
      rewrite length_drop, List.length_app. simpl. lia.
  - exists 0. split; [now rewrite drop_0 | now left].
Qed.

Lemma all_store_history E cs :
  forall st, cache_inv st -> all_store E st cs ->
    exists n,
      Dict.keys (_cache (encode_calls E st cs))
      = drop n (Dict.keys (_cache st) ++ call_keys E cs) /\
      (exists k, n = 100 * k) /\
      (0 < n -> 900 < length (_cache (encode_calls E st cs))).
Proof.
  induction cs as [|c cs IH]; intros st Hinv Hall.
  - exists 0. cbn. rewrite app_nil_r.
    refine (conj eq_refl (conj _ _)); [now exists 0 | lia].
  - destruct Hall as [[emb Hst] Hall].
    pose proof Hinv as [Hnd Hlen].
    destruct (encode_step_stores E st c emb Hnd Hst) as (_ & _ & Hc).
    assert (Hinv' : cache_inv (encode_step E st c))
      by (apply encode_texts_cache_inv; exact Hinv).
    destruct (IH _ Hinv' Hall) as (n1 & Hk1 & [k1 ->] & Hpos).
    destruct (append_trim_history (_cache st) (cache_key E (call_texts c))
                emb Hlen) as (m & Hm & Hm').
    cbn [encode_calls fold_left call_keys map].
    fold (encode_calls E (encode_step E st c) cs).
    fold (call_keys E cs).
    exists (m + 100 * k1).
    refine (conj _ (conj _ _)).
    + rewrite Hk1, Hc, Hm.
      assert (Hml : m <= length (Dict.keys (_cache st)
                                 ++ [cache_key E (call_texts c)])).
      { rewrite List.length_app. unfold Dict.keys. rewrite length_map.
        simpl. destruct Hm' as [->|[-> Hl]]; [lia|].
        unfold append_trim in Hl. rewrite List.length_app in Hl.
        simpl in Hl.
        destruct (Nat.ltb_spec 1000 (length (_cache st) + 1)); [lia|].
        rewrite List.length_app in Hl. simpl in Hl. lia. }
      rewrite <- drop_app_le by exact Hml.
      rewrite drop_drop. rewrite <- app_assoc. reflexivity.
    + destruct Hm' as [->|[-> _]]; [now exists k1 | exists (S k1); lia].
    + intros Hn.
      destruct (Nat.eq_dec k1 0) as [->|Hk].
      * destruct Hm' as [->|[-> Hl]]; [lia|].
        assert (Hlk : length (Dict.keys (_cache (encode_calls E
                                (encode_step E st c) cs)))
                      = length (drop (100 * 0)
                          (Dict.keys (_cache (encode_step E st c))
                           ++ call_keys E cs))) by now rewrite Hk1.
        unfold Dict.keys in Hlk at 1. rewrite length_map in Hlk.
        rewrite Hlk. change (100 * 0) with 0. rewrite drop_0.
        rewrite List.length_app.
        unfold Dict.keys. rewrite length_map, Hc, Hl. lia.
      * apply Hpos. lia.
Qed.

(** C7.  The cache is a dict of at most 1000 entries after every call of
    [encode_texts], over any sequence of calls.  A call that runs with the
    cache enabled, is admitted, has the model loaded, a batch that is not
    empty after cleaning and not cached, and an embedder that returns,
    stores the batch: it goes last, and when that makes 1001 entries the
    first 100 entries, the oldest, are removed.  Every other call leaves
    the cache as it is.  Over a sequence of such insertions the cached keys
    are the keys cached at the start followed by the keys of the calls, in
    that order, without the first [n] of them, where [n] is a multiple of
    100 and the cache holds more than 900 entries once something was
    removed: the earliest keys are the ones evicted. *)
Theorem cache_capacity_fifo (E : Externals) :
  (forall st cs, cache_inv st -> cache_inv (encode_calls E st cs)) /\
  (forall st c embeddings,
      cache_inv st -> stores E st c embeddings ->
      let st' := encode_step E st c in
      let entry := (cache_key E (call_texts c), embeddings) in
      snd (encode_texts E st (call_now c) (call_texts c) (call_use_cache c)
             (call_client c)) = Ok embeddings /\
      Dict.get (cache_key E (call_texts c)) (_cache st') = Some embeddings /\
      (length (_cache st) < 1000 -> _cache st' = _cache st ++ [entry]) /\
      (length (_cache st) = 1000 ->
       _cache st' = drop 100 (_cache st) ++ [entry])) /\
  (forall st c,
      (forall embeddings, ~ stores E st c embeddings) ->
      _cache (encode_step E st c) = _cache st) /\
  (forall st cs,
      cache_inv st -> all_store E st cs ->
      let st' := encode_calls E st cs in
      exists n,
        Dict.keys (_cache st')
        = drop n (Dict.keys (_cache st) ++ call_keys E cs) /\
        (exists k, n = 100 * k) /\
        length (_cache st') <= 1000 /\
        (0 < n -> 900 < length (_cache st'))).
Proof.
  refine (conj _ (conj _ (conj _ _))).
  - intros st cs Hinv. now apply encode_calls_fifo.
  - intros st c emb [Hnd Hlen] Hst st' entry. subst st' entry.
    destruct (encode_step_stores E st c emb Hnd Hst) as (Hr & _ & Hc).
    destruct Hst as (_ & _ & _ & _ & Hget & _).
    destruct (append_trim_cases (_cache st)
                (cache_key E (call_texts c), emb) Hlen) as [Hlt Heq].
    rewrite Hc.
    refine (conj Hr (conj _ (conj Hlt Heq))).
    now apply get_append_trim.
  - intros st c. apply encode_step_keeps.
  - intros st cs Hinv Hall st'. subst st'.
    destruct (all_store_history E cs st Hinv Hall) as (n & Hk & Hdiv & Hpos).
    exists n. refine (conj Hk (conj Hdiv (conj _ Hpos))).
    now apply encode_calls_fifo.
Qed.

Lemma preloaded_NoDup n :
  NoDup (Dict.keys (map (fun i => (Z.of_nat i, [] : ndarray)) (seq 0 n))).
Proof.
  unfold Dict.keys. rewrite map_map. cbn [fst].
  apply (NoDup_fmap_2 Z.of_nat). apply NoDup_seq.
Qed.

Lemma cache_capacity_fifo_witness :
  let st := with_cache semantic_service
              (map (fun i => (Z.of_nat i, [] : ndarray)) (seq 0 999)) in
  let c1 := mkCall 0 [PyStr "A first batch"] true "client" in
  let c2 := mkCall 1 [PyStr "B second batch"] true "client" in
  let st' := encode_calls Stub.env st [c1; c2] in
  (exists n,
      Dict.keys (_cache st')
      = drop n (Dict.keys (_cache st) ++ call_keys Stub.env [c1; c2]) /\
      (exists k, n = 100 * k) /\
      length (_cache st') <= 1000 /\
      (0 < n -> 900 < length (_cache st'))) /\
  length (_cache (encode_step Stub.env st c1)) = 1000 /\
  length (_cache st') = 901 /\
  Dict.keys (_cache st')
  = map Z.of_nat (seq 100 899) ++ call_keys Stub.env [c1; c2].
Proof.
  intros st c1 c2 st'.
  refine (conj _ _).
  - apply (proj2 (proj2 (proj2 (cache_capacity_fifo Stub.env))) st [c1; c2]).
    + split; [apply preloaded_NoDup|].
      cbn [_cache st with_cache]. rewrite length_map, length_seq. lia.
    + refine (conj _ (conj _ I)).
      * exists [[1; 0; 0; 0]%Q].
        refine (conj eq_refl (conj eq_refl (conj eq_refl (conj _
                  (conj _ eq_refl))))); [discriminate|].
        vm_compute. reflexivity.
      * exists [[0; 1; 0; 0]%Q].
        refine (conj eq_refl (conj eq_refl (conj eq_refl (conj _
                  (conj _ eq_refl))))); [discriminate|].
        vm_compute. reflexivity.
  - vm_compute. repeat split.
Defined.

(** The paths of [encode_texts] that end before [self.model.encode]: an
    empty batch, a batch empty after cleaning, a cache hit. *)
Lemma encode_texts_quiet (E : Externals) (st : Service) (now : Q)
    (texts : list pyval) (use_cache : bool) (client_id : string) :
  admitted st now client_id ->
  let r := encode_texts E st now texts use_cache client_id in
  ((texts = [] \/ clean_texts texts = []) ->
   _cache (fst r) = _cache st /\ encodes (fst r) = encodes st /\
   (loaded E st now client_id -> snd r = Ok [])) /\
  (forall cached,
      clean_texts texts <> [] -> use_cache = true ->
      Dict.get (cache_key E texts) (_cache st) = Some cached ->
      _cache (fst r) = _cache st /\ encodes (fst r) = encodes st /\
      (loaded E st now client_id -> snd r = Ok cached)).
Proof.
  intros Hadm r. subst r.
  pose proof (ready_frame E st now client_id) as (_ & Hc & He & _).
  unfold admitted, loaded in *.
  split.
  - intros Hempty.
    assert (Hcl : clean_texts texts = [])
      by (destruct Hempty as [->|]; [reflexivity | assumption]).
    destruct (encode_texts_outcome E st now texts use_cache client_id)
      as [Hd|e Ha Hi|Ha Hi Hcl'|cached Ha Hi Hcl' Hu Hget
          |e Ha Hi Hcl' Hmiss Hm|emb Ha Hi Hcl' Hmiss Hm];
      simpl fst; simpl snd;
      try congruence; repeat split; auto; congruence.
  - intros cached Hne Hu Hget.
    destruct (encode_texts_outcome E st now texts use_cache client_id)
      as [Hd|e Ha Hi|Ha Hi Hcl'|cached' Ha Hi Hcl' Hu' Hget'
          |e Ha Hi Hcl' Hmiss Hm|emb Ha Hi Hcl' Hmiss Hm];
      simpl fst; simpl snd;
      try congruence; try (specialize (Hmiss Hu); congruence);
      repeat split; auto; congruence.
Qed.

(** C10.  A call of [encode_texts] the rate limiter admits records its
    time stamp in the caller's window, whatever happens next.  When the
    batch is empty, is empty after cleaning, or is found in the cache, the
    cache is unchanged and [self.model.encode] is not called; if the model
    is loaded the call returns the empty batch or the cached one. *)
Theorem encode_texts_consumes_quota (E : Externals) (st : Service) (now : Q)
    (texts : list pyval) (use_cache : bool) (client_id : string) :
  admitted st now client_id ->
  let r := encode_texts E st now texts use_cache client_id in
  calls_of (rate_limiter (fst r)) client_id
    = prune (rate_limiter st) now client_id ++ [now] /\
  ((texts = [] \/ clean_texts texts = []) ->
   _cache (fst r) = _cache st /\ encodes (fst r) = encodes st /\
   (loaded E st now client_id -> snd r = Ok [])) /\
  (forall cached,
      clean_texts texts <> [] -> use_cache = true ->
      Dict.get (cache_key E texts) (_cache st) = Some cached ->
      _cache (fst r) = _cache st /\ encodes (fst r) = encodes st /\
      (loaded E st now client_id -> snd r = Ok cached)).
Proof.
  intros Hadm r. subst r.
  split.
  - rewrite encode_texts_rate_limiter, is_allowed_calls.
    unfold admitted in Hadm. now rewrite Hadm.
  - now apply encode_texts_quiet.
Qed.

Lemma encode_texts_consumes_quota_witness :
  let r := encode_texts Stub.env semantic_service 7 [PyStr "   "] true "client" in
  calls_of (rate_limiter (fst r)) "client" = [7%Q] /\
  _cache (fst r) = [] /\ encodes (fst r) = 0 /\ snd r = Ok [].
Proof.
  intros r.
  assert (Ha : admitted semantic_service 7 "client") by reflexivity.
  destruct (encode_texts_consumes_quota Stub.env semantic_service 7
              [PyStr "   "] true "client" Ha) as (H1 & H2 & _).
  destruct (H2 (or_intror eq_refl)) as (Hc & He & Hr).
  exact (conj H1 (conj Hc (conj He (Hr eq_refl)))).
Defined.

(* ===================================================================== *)
(** ** The cache round trip *)
(* ===================================================================== *)

(** A call that returns leaves the model loaded. *)
Lemma encode_texts_ok_model E st now texts use_cache client_id v :
  snd (encode_texts E st now texts use_cache client_id) = Ok v ->
  model (fst (encode_texts E st now texts use_cache client_id)) = true.
Proof.
  destruct (encode_texts_outcome E st now texts use_cache client_id)
    as [Hd|e Ha Hi|Ha Hi Hcl|cached Ha Hi Hcl Hu Hget|e Ha Hi Hcl Hmiss Hm
        |emb Ha Hi Hcl Hmiss Hm]; simpl; try discriminate; intros _;
    try (now apply (initialize_ok E _ 3 tt)).
  destruct use_cache; simpl; now apply (initialize_ok E _ 3 tt).
Qed.

(** A call that returns with the cache enabled leaves its batch, when it
    is not empty after cleaning, in the cache. *)
Lemma encode_texts_ok_cached E st now texts client_id v :
  NoDup (Dict.keys (_cache st)) ->
  snd (encode_texts E st now texts true client_id) = Ok v ->
  clean_texts texts <> [] ->
  Dict.get (cache_key E texts)
           (_cache (fst (encode_texts E st now texts true client_id)))
  = Some v.
Proof.
  intros Hnd Hok Hne.
  destruct (encode_texts_cache E st now texts true client_id Hnd)
    as [[Hc Hins]|(emb & _ & Hget & _ & Hr & _ & Hc)].
  - rewrite Hc.
    pose proof (ready_frame E st now client_id) as (_ & _ & He & _).
    unfold inserted_key in Hins. rewrite Hok in Hins. simpl in Hins.
    destruct (encode_texts_outcome E st now texts true client_id)
      as [Hd|e Ha Hi|Ha Hi Hcl|cached Ha Hi Hcl Hu Hget|e Ha Hi Hcl Hmiss Hm
          |emb Ha Hi Hcl Hmiss Hm]; simpl in *; try discriminate;
      try contradiction.
    + congruence.
    + rewrite He, Nat.eqb_refl in Hins. discriminate.
  - rewrite Hc. rewrite Hok in Hr. injection Hr as <-.
    now apply get_append_trim.
Qed.

(** A call the rate limiter denies ends there. *)
Lemma encode_texts_denied E st now texts use_cache client_id :
  snd (is_allowed (rate_limiter st) now client_id) = false ->
  encode_texts E st now texts use_cache client_id
  = (checked st now client_id, Raise (Exception rate_limit_message)).
Proof.
  intros Hd. unfold encode_texts, checked.
  destruct (is_allowed (rate_limiter st) now client_id) as [rl allowed].
  simpl in Hd. now subst allowed.
Qed.

(** An admitted call with a loaded model whose batch is not cached calls
    the embedder and returns its outcome. *)
Lemma encode_texts_miss E st now texts client_id :
  admitted st now client_id -> loaded E st now client_id ->
  clean_texts texts <> [] ->
  Dict.get (hash E (clean_texts texts)) (_cache st) = None ->
  let r := encode_texts E st now texts true client_id in
  encodes (fst r) = S (encodes st) /\
  snd r = match model_encode E (encodes st) (clean_texts texts) with
          | Ok embeddings => Ok embeddings
          | Raise e =>
              Raise (Exception ("Embedding generation failed: " +:+ str_exn e))
          end.
Proof.
  intros Ha' Hi' Hcl' Hget' r. subst r.
  unfold admitted, loaded in *.
  pose proof (ready_frame E st now client_id) as (_ & _ & He & _).
  destruct (encode_texts_outcome E st now texts true client_id)
    as [Hd|e Ha Hi|Ha Hi Hcl|cached Ha Hi Hcl Hu0 Hget|e Ha Hi Hcl Hmiss Hm
        |emb Ha Hi Hcl Hmiss Hm]; try congruence;
    try (unfold cache_key in *; congruence);
    rewrite Hm; cbn [fst snd bump_encodes with_cache encodes];
    now rewrite He.
Qed.

(** A key other than the one of the call is not cached after the call if
    it was not cached before. *)
Lemma encode_texts_other_key E st now texts client_id k :
  NoDup (Dict.keys (_cache st)) ->
  k <> hash E (clean_texts texts) ->
  Dict.get k (_cache st) = None ->
  Dict.get k (_cache (fst (encode_texts E st now texts true client_id)))
  = None.
Proof.
  intros Hnd Hk Hget.
  destruct (encode_texts_cache E st now texts true client_id Hnd)
    as [[Hc _]|(emb & _ & Hmiss & _ & _ & _ & Hc)]; rewrite Hc;
    [exact Hget|].
  destruct (Dict.get k (append_trim _ _)) as [v'|] eqn:Hv'; [|reflexivity].
  unfold cache_key in *.
  apply get_append_trim_inv in Hv' as [Hv'|[Heq _]]; auto; congruence.
Qed.

(** C3, as amended.  When a call of [encode_texts] with the cache enabled
    has returned a batch of vectors, a following call that the rate limiter
    admits, for a batch with the same cleaned strings in the same order,
    returns the same batch of vectors, calls [self.model.encode] no further
    time and leaves the cache as it is; a call the rate limiter denies
    raises, whatever its batch, and neither the cache nor the embedder is
    touched.  The entry is selected by the hash of the cleaned strings:
    an admitted call for a batch whose cleaned strings have the hash of
    those of the first batch is answered with the vectors of the first,
    without the embedder, and one whose hash differs and was not cached
    before calls the embedder. *)
Theorem encode_texts_round_trip (E : Externals) (st : Service) (now : Q)
    (texts : list pyval) (client_id : string) (v : ndarray) :
  cache_inv st ->
  snd (encode_texts E st now texts true client_id) = Ok v ->
  let st1 := fst (encode_texts E st now texts true client_id) in
  (forall now' texts' client',
      clean_texts texts' = clean_texts texts ->
      admitted st1 now' client' ->
      let r := encode_texts E st1 now' texts' true client' in
      snd r = Ok v /\ encodes (fst r) = encodes st1 /\
      _cache (fst r) = _cache st1) /\
  (forall now' texts' use_cache' client',
      snd (is_allowed (rate_limiter st1) now' client') = false ->
      let r := encode_texts E st1 now' texts' use_cache' client' in
      snd r = Raise (Exception rate_limit_message) /\
      encodes (fst r) = encodes st1 /\ _cache (fst r) = _cache st1) /\
  (forall now' texts' client',
      clean_texts texts <> [] -> clean_texts texts' <> [] ->
      admitted st1 now' client' ->
      let r := encode_texts E st1 now' texts' true client' in
      (hash E (clean_texts texts') = hash E (clean_texts texts) ->
       snd r = Ok v /\ encodes (fst r) = encodes st1 /\
       _cache (fst r) = _cache st1) /\
      (hash E (clean_texts texts') <> hash E (clean_texts texts) ->
       Dict.get (hash E (clean_texts texts')) (_cache st) = None ->
       encodes (fst r) = S (encodes st1) /\
       snd r = match model_encode E (encodes st1) (clean_texts texts') with
               | Ok embeddings => Ok embeddings
               | Raise e =>
                   Raise (Exception
                            ("Embedding generation failed: " +:+ str_exn e))
               end)).
Proof.
  intros [Hnd _] Hok st1.
  assert (Hload : forall now' client', loaded E st1 now' client').
  { intros now' client'. unfold loaded. rewrite initialize_loaded.
    - reflexivity.
    - apply (encode_texts_ok_model _ _ _ _ _ _ _ Hok). }
  assert (Hhit : forall now' texts' client',
             clean_texts texts <> [] -> clean_texts texts' <> [] ->
             hash E (clean_texts texts') = hash E (clean_texts texts) ->
             admitted st1 now' client' ->
             let r := encode_texts E st1 now' texts' true client' in
             snd r = Ok v /\ encodes (fst r) = encodes st1 /\
             _cache (fst r) = _cache st1).
  { intros now' texts' client' Hne Hne' Hkey Hadm r. subst r.
    destruct (encode_texts_quiet E st1 now' texts' true client' Hadm)
      as (_ & Hq).
    assert (Hget : Dict.get (cache_key E texts') (_cache st1) = Some v).
    { unfold cache_key. rewrite Hkey. now apply encode_texts_ok_cached. }
    destruct (Hq v Hne' eq_refl Hget) as (Hca & Hen & Hr).
    rewrite (Hr (Hload now' client')). now repeat split. }
  refine (conj _ (conj _ _)).
  - intros now' texts' client' Hcl Hadm r.
    destruct (clean_texts texts) as [|c cs] eqn:Hc.
    + destruct (encode_texts_quiet E st1 now' texts' true client' Hadm)
        as (Hempty & _).
      destruct (Hempty (or_intror Hcl)) as (Hca & Hen & Hr).
      subst r. rewrite (Hr (Hload now' client')). repeat split; auto.
      f_equal.
      destruct (encode_texts_outcome E st now texts true client_id)
        as [Hd|e Ha Hi|Ha Hi Hcl'|cached Ha Hi Hcl' Hu Hget
            |e Ha Hi Hcl' Hmiss Hm|emb Ha Hi Hcl' Hmiss Hm];
        simpl in Hok; congruence.
    + apply Hhit; rewrite ?Hcl, ?Hc; try discriminate; auto.
  - intros now' texts' use_cache' client' Hd r. subst r.
    rewrite encode_texts_denied by exact Hd. now repeat split.
  - intros now' texts' client' Hne Hne' Hadm r. subst r. split.
    + intros Hkey. now apply Hhit.
    + intros Hkey Hget.
      apply encode_texts_miss; auto.
      now apply encode_texts_other_key.
Qed.

Lemma encode_texts_round_trip_witness :
  let st1 := fst (encode_texts Stub.env semantic_service 0
                    [PyStr "  A short text "; PyInt 3] true "client") in
  let r := encode_texts Stub.env st1 1 [PyStr "A short text"] true "other" in
  let st2 := fst (encode_texts Stub.env semantic_service 0
                    [PyStr "b"; PyStr "A"] true "client") in
  let r' := encode_texts Stub.env st2 1 [PyStr "a"; PyStr "`"] true "client" in
  (snd r = Ok [[1; 0; 0; 0]%Q] /\ encodes (fst r) = encodes st1 /\
   _cache (fst r) = _cache st1) /\
  (snd r' = Ok [[0; 0; 1; 0]; [1; 0; 0; 0]]%Q /\
   encodes (fst r') = encodes st2 /\ _cache (fst r') = _cache st2).
Proof.
  intros st1 r st2 r'.
  assert (Hinv : cache_inv semantic_service)
    by exact (conj (NoDup_nil_2 : NoDup (Dict.keys (_cache semantic_service)))
                   (Nat.le_0_l 1000)).
  split.
  - apply (proj1 (encode_texts_round_trip Stub.env semantic_service 0
                    [PyStr "  A short text "; PyInt 3] "client"
                    [[1; 0; 0; 0]%Q] Hinv eq_refl)).
    + reflexivity.
    + reflexivity.
  - apply (proj2 (proj2 (encode_texts_round_trip Stub.env semantic_service 0
                           [PyStr "b"; PyStr "A"] "client"
                           [[0; 0; 1; 0]; [1; 0; 0; 0]]%Q Hinv eq_refl))
             1%Q [PyStr "a"; PyStr "`"] "client").
    + discriminate.
    + discriminate.
    + reflexivity.
    + reflexivity.
Defined.

(** C3 as first stated fails: the rate limiter is asked before the cache.
    With one call allowed per window, the second encoding of a batch is
    refused although its vectors are cached. *)
Lemma second_encoding_rate_limited :
  let batch := [PyStr "A short text"] in
  let r1 := encode_texts Stub.env (new_service 1 3600) 0 batch true "client" in
  let r2 := encode_texts Stub.env (fst r1) 1 batch true "client" in
  snd r1 = Ok [[1; 0; 0; 0]%Q] /\
  Dict.get (cache_key Stub.env batch) (_cache (fst r1)) = Some [[1; 0; 0; 0]%Q] /\
  snd r2 = Raise (Exception rate_limit_message).
Proof. vm_compute. repeat split. Qed.

(** *** Keys are hashes: distinct batches can share one *)

(** The key is the hash, not the batch.  In the stub environment, whose
    [hash] is a polynomial hash of 64 bits, the batches [("b", "A")] and
    [("a", "`")] have the same key: the second one is answered from the
    cache with the vectors of the first, and the embedder, which would
    return other vectors for it, is not called. *)
Lemma colliding_batches_share_entry :
  let a := [PyStr "b"; PyStr "A"] in
  let b := [PyStr "a"; PyStr "`"] in
  let r1 := encode_texts Stub.env semantic_service 0 a true "client" in
  let r2 := encode_texts Stub.env (fst r1) 1 b true "client" in
  clean_texts a = ["b"; "A"] /\ clean_texts b = ["a"; "`"] /\
  hash Stub.env (clean_texts a) = hash Stub.env (clean_texts b) /\
  snd r1 = Ok [[0; 0; 1; 0]; [1; 0; 0; 0]]%Q /\
  snd r2 = Ok [[0; 0; 1; 0]; [1; 0; 0; 0]]%Q /\
  encodes (fst r2) = 1 /\
  model_encode Stub.env 1 (clean_texts b)
  = Ok [[0; 0; 1; 0]; [0; 0; 1; 0]]%Q.
Proof. vm_compute. repeat split. Qed.

Lemma bounded_search (P : nat -> Prop) (n : nat) :
  (forall i, {P i} + {~ P i}) ->
  (exists i, i <= n /\ P i) \/ (forall i, i <= n -> ~ P i).
Proof.
  intros Hdec. induction n as [|n [(i & Hi & HP)|Hnone]].
  - destruct (Hdec 0) as [H0|H0].
    + left. exists 0. split; [lia | exact H0].
    + right. intros i Hi. now replace i with 0 by lia.
  - left. exists i. split; [lia | exact HP].
  - destruct (Hdec (S n)) as [HS|HS].
    + left. exists (S n). split; [lia | exact HS].
    + right. intros i Hi.
      destruct (Nat.eq_dec i (S n)) as [->|Hne]; [exact HS|].
      apply Hnone. lia.
Qed.

(** [n + 1] values below [n] cannot all differ. *)
Lemma pigeonhole (n : nat) :
  forall f : nat -> nat,
    (forall i, i <= n -> f i < n) ->
    exists i j, i < j /\ j <= n /\ f i = f j.
Proof.
  induction n as [|n IH]; intros f Hf.
  - specialize (Hf 0 (Nat.le_refl 0)). lia.
  - destruct (bounded_search (fun i => f i = f (S n)) n) as [(i & Hi & He)|Hnone].
    + intros i. apply Nat.eq_dec.
    + exists i, (S n). repeat split; [lia | lia | exact He].
    + set (g := fun i => if Nat.eq_dec (f i) n then f (S n) else f i).
      destruct (IH g) as (i & j & Hij & Hj & Hg).
      * intros i Hi. unfold g.
        pose proof (Hf i ltac:(lia)). pose proof (Hf (S n) ltac:(lia)).
        pose proof (Hnone i Hi).
        destruct (Nat.eq_dec (f i) n); lia.
      * exists i, j. repeat split; [exact Hij | lia |].
        unfold g in Hg.
        pose proof (Hnone i ltac:(lia)). pose proof (Hnone j ltac:(lia)).
        destruct (Nat.eq_dec (f i) n), (Nat.eq_dec (f j) n); congruence.
Qed.

Lemma clean_texts_repeat n :
  clean_texts (repeat (PyStr "a") n) = repeat "a" n.
Proof. induction n as [|n IH]; simpl; [reflexivity | now rewrite IH]. Qed.

(** The builtin [hash] returns a machine integer of 64 bits.  Whatever
    function it is, two batches with different cleaned strings have the
    same cache key. *)
Lemma cache_key_collision (E : Externals) :
  (forall l, - 2 ^ 63 <= hash E l < 2 ^ 63)%Z ->
  exists a b,
    clean_texts a <> clean_texts b /\ cache_key E a = cache_key E b.
Proof.
  intros Hrange.
  set (n := Z.to_nat (2 ^ 64)).
  set (f := fun i => Z.to_nat (hash E (repeat "a" i) + 2 ^ 63)).
  destruct (pigeonhole n f) as (i & j & Hij & _ & Hf).
  - intros i _. unfold f, n.
    specialize (Hrange (repeat "a" i)).
    apply Z2Nat.inj_lt; [lia | lia |].
    change (2 ^ 64)%Z with (2 ^ 63 + 2 ^ 63)%Z. lia.
  - exists (repeat (PyStr "a") i), (repeat (PyStr "a") j).
    unfold cache_key. rewrite !clean_texts_repeat. split.
    + intros Heq. apply (f_equal (@length string)) in Heq.
      rewrite !repeat_length in Heq. lia.
    + unfold f in Hf.
      pose proof (Hrange (repeat "a" i)). pose proof (Hrange (repeat "a" j)).
      apply Z2Nat.inj in Hf; lia.
Qed.

(* ===================================================================== *)
(** ** The analyzer: short circuits and failures *)
(* ===================================================================== *)

Lemma extract_chunk_Some c t m :
  extract_chunk c = Some (t, m) <->
  exists text type,
    c = ChunkDict (Some (PyStr text)) type /\
    10 < PyStr.len (PyStr.strip text) /\
    t = PyStr.strip text /\
    m = mkMetadata (default (PyStr "content") type) (preview text)
                   (PyStr.len text).
Proof.
  split.
  - destruct c as [[[text| |]|] type|v]; simpl; try discriminate.
    destruct (Nat.ltb_spec 10 (PyStr.len (PyStr.strip text))); [|discriminate].
    intros [= <- <-]. now exists text, type.
  - intros (text & type & -> & Hlen & -> & ->). simpl.
    destruct (Nat.ltb_spec 10 (PyStr.len (PyStr.strip text))); [reflexivity|lia].
Qed.

Lemma extract_chunk_short text type :
  PyStr.len (PyStr.strip text) <= 10 ->
  extract_chunk (ChunkDict (Some (PyStr text)) type) = None.
Proof.
  intros H. simpl.
  destruct (Nat.ltb_spec 10 (PyStr.len (PyStr.strip text))); [lia|reflexivity].
Qed.

Lemma extract_content_In content_chunks t m :
  In (t, m) (extract_content content_chunks) <->
  exists c, In c content_chunks /\ extract_chunk c = Some (t, m).
Proof.
  unfold extract_content. rewrite <- list_elem_of_In, list_elem_of_omap.
  split; intros (c & Hc & He); exists c; split; auto;
    now apply list_elem_of_In.
Qed.

Lemma extract_content_nil content_chunks :
  (forall c text, In c content_chunks -> ~ meaningful c text) ->
  extract_content content_chunks = [].
Proof.
  intros H.
  destruct (extract_content content_chunks) as [|[t m] l] eqn:He;
    [reflexivity|].
  assert (Hin : In (t, m) (extract_content content_chunks))
    by (rewrite He; now left).
  apply extract_content_In in Hin as (c & Hc & Hx).
  apply extract_chunk_Some in Hx as (text & type & -> & Hlen & _).
  exfalso. apply (H _ text Hc). now constructor.
Qed.

(** C4.  With no queries or no chunks the analyzer returns the zero report
    at once: the service is unchanged, so neither the rate limiter nor the
    embedder has been touched.  A chunk whose stripped text has at most 10
    characters is dropped; the chunks kept are the dicts with a string
    ['text'] longer than that, by their stripped text.  When no chunk is
    kept the analyzer returns, again without touching the service, the zero
    report whose only recommendation is that no meaningful content was
    found. *)
Theorem analyze_short_circuits (E : Externals) (st : Service) (now1 now2 : Q)
    (client_id : string) :
  (forall queries content_chunks,
      queries = [] \/ content_chunks = [] ->
      analyze_content_relevance E st now1 now2 queries content_chunks client_id
      = (st, mkReport 0 [] 0 [] None None None None)) /\
  (forall text type,
      PyStr.len (PyStr.strip text) <= 10 ->
      extract_chunk (ChunkDict (Some (PyStr text)) type) = None) /\
  (forall content_chunks t,
      In t ((extract_content content_chunks).*1) <->
      exists c text, In c content_chunks /\ meaningful c text /\
                     t = PyStr.strip text) /\
  (forall queries content_chunks,
      queries <> [] -> content_chunks <> [] ->
      (forall c text, In c content_chunks -> ~ meaningful c text) ->
      analyze_content_relevance E st now1 now2 queries content_chunks client_id
      = (st, mkReport 0 [] 0 [Literal no_content_message]
                      None None None None)).
Proof.
  refine (conj _ (conj _ (conj _ _))).
  - intros queries content_chunks [-> | ->]; [reflexivity|].
    now destruct queries.
  - apply extract_chunk_short.
  - intros content_chunks t. split.
    + intros Hin. apply in_map_iff in Hin as ([t' m] & <- & Hin).
      apply extract_content_In in Hin as (c & Hc & Hx).
      apply extract_chunk_Some in Hx as (text & type & -> & Hlen & -> & _).
      exists (ChunkDict (Some (PyStr text)) type), text.
      split; [exact Hc|]. split; [now constructor | reflexivity].
    + intros (c & text & Hc & Hm & ->). destruct Hm as [text type Hlen].
      apply in_map_iff.
      exists (PyStr.strip text,
              mkMetadata (default (PyStr "content") type) (preview text)
                         (PyStr.len text)).
      split; [reflexivity|].
      apply extract_content_In. eexists. split; [exact Hc|].
      apply extract_chunk_Some. now exists text, type.
  - intros queries content_chunks Hq Hc Hnone.
    unfold analyze_content_relevance.
    rewrite (extract_content_nil _ Hnone).
    destruct queries; [contradiction|]. now destruct content_chunks.
Qed.

Lemma analyze_short_circuits_witness :
  analyze_content_relevance Stub.env semantic_service 0 1 []
    [ChunkDict (Some (PyStr "A long enough text")) None] "client"
  = (semantic_service, mkReport 0 [] 0 [] None None None None) /\
  analyze_content_relevance Stub.env semantic_service 0 1 [PyStr "A question"]
    [ChunkDict (Some (PyStr "  too short  ")) None; NotADict PyNone;
     ChunkDict None (Some (PyStr "heading"))] "client"
  = (semantic_service,
     mkReport 0 [] 0 [Literal no_content_message] None None None None).
Proof.
  split.
  - apply (proj1 (analyze_short_circuits Stub.env semantic_service 0 1
                    "client")).
    now left.
  - apply (proj2 (proj2 (proj2 (analyze_short_circuits Stub.env
                                  semantic_service 0 1 "client")))).
    + discriminate.
    + discriminate.
    + intros c text [<-|[<-|[<-|[]]]] Hm; inversion Hm; subst;
        match goal with H : 10 < _ |- _ => vm_compute in H; lia end.
Defined.

(** C1.  Inside the analyzer every exception of the [try] body ends in the
    [except] clause, which returns the zero-valued report with the message
    of the exception under [error]: an exception from encoding the
    queries, from encoding the chunk texts, or from computing the
    similarity.  In particular a call the rate limiter denies and a batch
    the embedder fails on come back as such reports. *)
Theorem analyze_catches_exceptions (E : Externals) (st : Service)
    (now1 now2 : Q) (queries : list pyval) (content_chunks : list chunk)
    (client_id : string) :
  queries <> [] ->
  extract_content content_chunks <> [] ->
  let content := extract_content content_chunks in
  let texts := map PyStr (content.*1) in
  let run :=
    analyze_content_relevance E st now1 now2 queries content_chunks client_id in
  let r1 := encode_texts E st now1 queries true client_id in
  let r2 := encode_texts E (fst r1) now2 texts true client_id in
  (forall e,
      snd (analyze_try E st now1 now2 queries content client_id) = Raise e ->
      snd run = error_report e) /\
  (forall e, snd r1 = Raise e -> run = (fst r1, error_report e)) /\
  (forall qe e,
      snd r1 = Ok qe -> snd r2 = Raise e -> run = (fst r2, error_report e)) /\
  (forall qe ce e,
      snd r1 = Ok qe -> snd r2 = Ok ce ->
      calculate_similarity E qe ce = Raise e ->
      size qe <> 0 -> size ce <> 0 ->
      run = (fst r2, error_report e)) /\
  (snd (is_allowed (rate_limiter st) now1 client_id) = false ->
   snd run = error_report (Exception rate_limit_message)) /\
  (forall e,
      admitted st now1 client_id -> loaded E st now1 client_id ->
      clean_texts queries <> [] ->
      Dict.get (cache_key E queries) (_cache st) = None ->
      model_encode E (encodes st) (clean_texts queries) = Raise e ->
      error (snd run)
      = Some ("Embedding generation failed: " +:+ str_exn e)) /\
  (forall e,
      overall_score (error_report e) = 0%Q /\
      content_coverage (error_report e) = 0%Q /\
      query_analysis (error_report e) = [] /\
      error (error_report e) = Some (str_exn e)).
Proof.
  intros Hq Hc. cbv zeta.
  remember (extract_content content_chunks) as content eqn:Hcont.
  set (texts := map PyStr (content.*1)).
  set (run := analyze_content_relevance E st now1 now2 queries content_chunks
                client_id).
  set (r1 := encode_texts E st now1 queries true client_id).
  set (r2 := encode_texts E (fst r1) now2 texts true client_id).
  assert (Hrun : run = match analyze_try E st now1 now2 queries content
                               client_id with
                       | (st', Ok r) => (st', r)
                       | (st', Raise e) => (st', error_report e)
                       end).
  { subst run. unfold analyze_content_relevance. rewrite <- Hcont.
    destruct queries; [contradiction|].
    destruct content_chunks; [simpl in Hcont; congruence|].
    destruct content; [contradiction | reflexivity]. }
  assert (Htry : analyze_try E st now1 now2 queries content client_id
                 = match r1 with
                   | (st1, Raise e) => (st1, Raise e)
                   | (st1, Ok qe) =>
                       match encode_texts E st1 now2 texts true client_id with
                       | (st2, Raise e) => (st2, Raise e)
                       | (st2, Ok ce) =>
                           (st2, analyze_embeddings E st2 queries content qe ce)
                       end
                   end) by reflexivity.
  assert (H1 : forall e, snd r1 = Raise e -> run = (fst r1, error_report e)).
  { intros e He. rewrite Hrun, Htry.
    destruct r1 as [st1 res]; simpl in *. now subst res. }
  refine (conj _ (conj H1 (conj _ (conj _ (conj _ (conj _ _)))))).
  - intros e He. rewrite Hrun.
    destruct (analyze_try E st now1 now2 queries content client_id)
      as [st' res]; simpl in *. now subst res.
  - intros qe e Hqe He. rewrite Hrun, Htry. subst r2.
    destruct r1 as [st1 res]; simpl in *. subst res.
    destruct (encode_texts E st1 now2 texts true client_id) as [st2 res2];
      simpl in *. now subst res2.
  - intros qe ce e Hqe Hce Hsim Hsq Hsc. rewrite Hrun, Htry. subst r2.
    destruct r1 as [st1 res]; simpl in *. subst res.
    destruct (encode_texts E st1 now2 texts true client_id) as [st2 res2];
      simpl in *. subst res2.
    unfold analyze_embeddings.
    destruct (Nat.eqb_spec (size qe) 0); [contradiction|].
    destruct (Nat.eqb_spec (size ce) 0); [contradiction|].
    simpl. now rewrite Hsim.
  - intros Hdenied.
    rewrite (H1 (Exception rate_limit_message)); [reflexivity|].
    subst r1.
    destruct (encode_texts_outcome E st now1 queries true client_id)
      as [Hd|e Ha Hi|Ha Hi Hcl|cached Ha Hi Hcl Hu Hget|e Ha Hi Hcl Hmiss Hm
          |emb Ha Hi Hcl Hmiss Hm]; unfold admitted in *;
      try reflexivity; congruence.
  - intros e Hadm Hload Hne Hget Hm.
    rewrite (H1 (Exception ("Embedding generation failed: " +:+ str_exn e)));
      [reflexivity|].
    subst r1. unfold cache_key in *.
    destruct (encode_texts_outcome E st now1 queries true client_id)
      as [Hd|e' Ha Hi|Ha Hi Hcl|cached Ha Hi Hcl Hu Hget'|e' Ha Hi Hcl Hmiss Hm'
          |emb Ha Hi Hcl Hmiss Hm']; unfold admitted, loaded, cache_key in *;
      simpl; try congruence.
  - intros e. repeat split.
Qed.

Lemma analyze_catches_exceptions_witness :
  let queries := [PyStr "A question"] in
  let chunks := [ChunkDict (Some (PyStr "A long enough text")) None] in
  snd (analyze_content_relevance Stub.env (new_service 0 3600) 0 1
         queries chunks "client")
  = error_report (Exception rate_limit_message) /\
  snd (analyze_content_relevance Stub.env_no_model semantic_service 0 1
         queries chunks "client")
  = error_report (Exception "model not found") /\
  error (snd (analyze_content_relevance Stub.env_failing semantic_service 0 1
                queries chunks "client"))
  = Some "Embedding generation failed: CUDA out of memory".
Proof.
  intros queries chunks. refine (conj _ (conj _ _)).
  - apply (analyze_catches_exceptions Stub.env (new_service 0 3600) 0 1
             queries chunks "client").
    + discriminate.
    + discriminate.
    + reflexivity.
  - destruct (analyze_catches_exceptions Stub.env_no_model semantic_service
                0 1 queries chunks "client") as (H & _).
    + discriminate.
    + discriminate.
    + apply H. reflexivity.
  - destruct (analyze_catches_exceptions Stub.env_failing semantic_service
                0 1 queries chunks "client")
      as (_ & _ & _ & _ & _ & H & _).
    + discriminate.
    + discriminate.
    + apply (H (Exception "CUDA out of memory")); try reflexivity.
      discriminate.
Defined.

(* ===================================================================== *)
(** ** The loop over the queries *)
(* ===================================================================== *)

Lemma fold_max_spec (r : list Q) (x : Q) :
  let m := fold_left (fun m y => if Qltb m y then y else m) r x in
  In m (x :: r) /\ (x <= m)%Q /\ Forall (fun s => (s <= m)%Q) r.
Proof.
  revert x. induction r as [|y r IH]; intros x; simpl.
  - repeat split; [now left | apply Qle_refl | constructor].
  - destruct (Qltb x y) eqn:Hxy.
    + apply Qltb_lt in Hxy.
      destruct (IH y) as (Hin & Hle & Hall). simpl in Hin.
      repeat split.
      * right. exact Hin.
      * apply Qle_trans with y; [now apply Qlt_le_weak | exact Hle].
      * constructor; assumption.
    + apply Qltb_ge in Hxy.
      destruct (IH x) as (Hin & Hle & Hall). simpl in Hin.
      repeat split.
      * destruct Hin as [Hin|Hin]; [now left | right; now right].
      * exact Hle.
      * constructor; [|assumption]. now apply Qle_trans with x.
Qed.

(** [np.max] returns an entry of the row that no entry exceeds. *)
Lemma np_max_spec row m :
  np_max row = Ok m -> In m row /\ Forall (fun s => (s <= m)%Q) row.
Proof.
  destruct row as [|x r]; simpl; [discriminate|].
  intros [= <-].
  destruct (fold_max_spec r x) as (Hin & Hle & Hall).
  split; [exact Hin | constructor; assumption].
Qed.

Lemma np_index_Ok {A} (a : list A) i x : np_index a i = Ok x <-> a !! i = Some x.
Proof.
  unfold np_index. destruct (a !! i); split; intros H; congruence.
Qed.

Lemma np_index_Raise {A} (a : list A) i :
  length a <= i -> np_index a i = Raise (index_error i (length a)).
Proof.
  intros H. unfold np_index. now rewrite (lookup_ge_None_2 a i).
Qed.

(** What a round of the loop that completes has computed. *)
Lemma analyze_query_Ok E M md i q v :
  analyze_query E M md i q = Ok v ->
  exists row best_idx,
    M !! i = Some row /\
    np_max row = Ok (max_similarity v) /\
    np_argmax row = Ok best_idx /\
    collect_top_matches row md (top_indices E row) = Ok (top_matches v) /\
    query v = q /\
    is_answered v = Qltb (4 # 10) (max_similarity v) /\
    confidence v = Qmin (max_similarity v * 2) 1 /\
    best_match v = match md !! best_idx with
                   | Some m => original_text m
                   | None => ""
                   end.
Proof.
  unfold analyze_query.
  destruct (np_index M i) as [row|] eqn:Hrow; simpl; [|discriminate].
  destruct (np_max row) as [m|] eqn:Hmax; simpl; [|discriminate].
  destruct (np_argmax row) as [b|] eqn:Hb; simpl; [|discriminate].
  destruct (collect_top_matches row md (top_indices E row)) as [top|] eqn:Ht;
    simpl; [|discriminate].
  intros [= <-]. simpl.
  exists row, b. apply np_index_Ok in Hrow. repeat split; auto.
Qed.

Lemma analyze_queries_Ok E M md queries :
  forall i vs,
    analyze_queries E M md i queries = Ok vs ->
    length vs = length queries /\
    forall j v, vs !! j = Some v ->
      exists q, queries !! j = Some q /\
                analyze_query E M md (i + j) q = Ok v.
Proof.
  induction queries as [|q queries IH]; intros i vs; simpl.
  - intros [= <-]. split; [reflexivity|]. intros j v Hj. discriminate.
  - destruct (analyze_query E M md i q) as [v0|] eqn:Hq; simpl; [|discriminate].
    destruct (analyze_queries E M md (S i) queries) as [vs0|] eqn:Hqs;
      simpl; [|discriminate].
    intros [= <-].
    destruct (IH (S i) vs0 Hqs) as [Hlen Hvs].
    split; [simpl; now rewrite Hlen|].
    intros [|j] v Hj; simpl in Hj.
    + injection Hj as <-. exists q. split; [reflexivity|].
      now rewrite Nat.add_0_r.
    + destruct (Hvs j v Hj) as (q' & Hq' & Hv).
      exists q'. split; [exact Hq'|].
      now replace (i + S j) with (S i + j) by lia.
Qed.

(** The loop fails when some query has no row. *)
Lemma analyze_queries_short E M md queries :
  forall i,
    queries <> [] ->
    length M < i + length queries ->
    exists e, analyze_queries E M md i queries = Raise e.
Proof.
  induction queries as [|q queries IH]; intros i Hne Hlen; [contradiction|].
  cbn [analyze_queries].
  destruct (analyze_query E M md i q) as [v|e] eqn:Hq; simpl;
    [|now exists e].
  apply analyze_query_Ok in Hq as (row & _ & Hrow & _).
  apply lookup_lt_Some in Hrow.
  destruct (IH (S i)) as [e He].
  - destruct queries; [simpl in Hlen; lia | discriminate].
  - simpl in Hlen. lia.
  - rewrite He. simpl. now exists e.
Qed.

(** Where the verdicts of a report come from: a report without verdicts,
    or the loop run on the similarity matrix of the two batches. *)
Lemma report_verdicts E st now1 now2 queries content_chunks client_id :
  let run :=
    analyze_content_relevance E st now1 now2 queries content_chunks client_id in
  let content := extract_content content_chunks in
  let r1 := encode_texts E st now1 queries true client_id in
  let r2 := encode_texts E (fst r1) now2 (map PyStr (content.*1)) true
              client_id in
  query_analysis (snd run) = [] \/
  exists qe ce M,
    snd r1 = Ok qe /\ snd r2 = Ok ce /\
    calculate_similarity E qe ce = Ok M /\
    analyze_queries E M (content.*2) 0 queries = Ok (query_analysis (snd run)) /\
    error (snd run) = None /\
    fst run = fst r2.
Proof.
  cbv zeta. unfold analyze_content_relevance.
  destruct queries as [|q0 qs]; [now left|].
  destruct content_chunks as [|c0 cs]; [now left|].
  remember (q0 :: qs) as queries eqn:Hqueries.
  remember (extract_content (c0 :: cs)) as content eqn:Hcont.
  destruct content as [|x content]; [now left|].
  remember (x :: content) as cont eqn:Hx. clear Hx Hcont Hqueries.
  unfold analyze_try.
  destruct (encode_texts E st now1 queries true client_id)
    as [st1 [qe|e]]; cbn [fst snd]; [|now left].
  destruct (encode_texts E st1 now2 _ true client_id)
    as [st2 [ce|e]]; cbn [fst snd]; [|now left].
  unfold analyze_embeddings.
  destruct ((size qe =? 0) || (size ce =? 0))%nat; [now left|].
  destruct (calculate_similarity E qe ce) as [M|e] eqn:HM; cbn [bind];
    [|now left].
  destruct (analyze_queries E M (cont.*2) 0 queries)
    as [qa|e] eqn:Hqa; cbn [bind]; [|now left].
  destruct (_generate_recommendations qa _) as [recs|e]; cbn [bind];
    [|now left].
  right. exists qe, ce, M. cbn [snd fst query_analysis error].
  repeat split; auto.
Qed.

(** A verdict of a report is a round of the loop on a row of the
    similarity matrix. *)
Lemma report_verdict_In E st now1 now2 queries content_chunks client_id v :
  In v (query_analysis
          (snd (analyze_content_relevance E st now1 now2 queries
                  content_chunks client_id))) ->
  exists qe ce M i q,
    calculate_similarity E qe ce = Ok M /\
    queries !! i = Some q /\
    analyze_query E M ((extract_content content_chunks).*2) i q = Ok v.
Proof.
  intros Hin.
  destruct (report_verdicts E st now1 now2 queries content_chunks client_id)
    as [Hnil|(qe & ce & M & _ & _ & HM & Hqa & _)].
  - rewrite Hnil in Hin. destruct Hin.
  - apply list_elem_of_In, list_elem_of_lookup in Hin as [i Hi].
    destruct (analyze_queries_Ok _ _ _ _ _ _ Hqa) as [_ Hvs].
    destruct (Hvs i v Hi) as (q & Hq & Hv).
    now exists qe, ce, M, i, q.
Qed.

(** The similarity matrix behind the verdicts of a report: what
    [cosine_similarity] returns for the embeddings the two calls of
    [encode_texts] return, the queries first. *)
Lemma report_matrix E st now1 now2 queries content_chunks client_id i v :
  let content := extract_content content_chunks in
  let r1 := encode_texts E st now1 queries true client_id in
  let r2 := encode_texts E (fst r1) now2 (map PyStr (content.*1)) true
              client_id in
  let run :=
    analyze_content_relevance E st now1 now2 queries content_chunks client_id in
  query_analysis (snd run) !! i = Some v ->
  exists qe ce M q,
    snd r1 = Ok qe /\ snd r2 = Ok ce /\
    cosine_similarity E qe ce = Ok M /\
    queries !! i = Some q /\
    analyze_query E M (content.*2) i q = Ok v.
Proof.
  cbv zeta. intros Hv.
  destruct (report_verdicts E st now1 now2 queries content_chunks client_id)
    as [Hnil|(qe & ce & M & H1 & H2 & HM & Hqa & _)].
  - rewrite Hnil in Hv. discriminate.
  - destruct (analyze_queries_Ok _ _ _ _ _ _ Hqa) as [_ Hvs].
    destruct (Hvs i v Hv) as (q & Hq & Hav).
    exists qe, ce, M, q. refine (conj H1 (conj H2 (conj _ (conj Hq Hav)))).
    unfold calculate_similarity in HM.
    destruct ((size qe =? 0) || (size ce =? 0))%nat; [|exact HM].
    injection HM as <-.
    apply analyze_query_Ok in Hav as (row & _ & Hrow & _).
    simpl in Hrow. discriminate.
Qed.

(** C5.  The verdict of index [i] of a report has [is_answered] true
    exactly when its [max_similarity] is above 0.4, so a maximum of exactly
    0.4 gives false; its [confidence] is the smaller of twice that maximum
    and 1; and that maximum is the largest entry of row [i] of the matrix
    [cosine_similarity] returns for the embeddings of the queries and of
    the chunks, the row of the verdict's own query: its similarities to
    all chunks. *)
Theorem verdict_thresholds (E : Externals) (st : Service) (now1 now2 : Q)
    (queries : list pyval) (content_chunks : list chunk) (client_id : string)
    (i : nat) (v : verdict) :
  let content := extract_content content_chunks in
  let r1 := encode_texts E st now1 queries true client_id in
  let r2 := encode_texts E (fst r1) now2 (map PyStr (content.*1)) true
              client_id in
  let run :=
    analyze_content_relevance E st now1 now2 queries content_chunks client_id in
  query_analysis (snd run) !! i = Some v ->
  (is_answered v = true <-> (4 # 10 < max_similarity v)%Q) /\
  ((max_similarity v == 4 # 10)%Q -> is_answered v = false) /\
  confidence v = Qmin (max_similarity v * 2) 1 /\
  exists qe ce M row,
    snd r1 = Ok qe /\ snd r2 = Ok ce /\
    cosine_similarity E qe ce = Ok M /\
    M !! i = Some row /\
    queries !! i = Some (query v) /\
    In (max_similarity v) row /\
    Forall (fun s => (s <= max_similarity v)%Q) row.
Proof.
  cbv zeta. intros Hv.
  apply report_matrix in Hv as (qe & ce & M & q & H1 & H2 & HM & Hq & Hav).
  apply analyze_query_Ok in Hav
    as (row & b & Hrow & Hmax & _ & _ & Hqv & Hans & Hconf & _).
  apply np_max_spec in Hmax as [Hmin Hall].
  refine (conj _ (conj _ (conj Hconf _))).
  - rewrite Hans. apply Qltb_lt.
  - intros Heq. rewrite Hans. apply Qltb_ge. rewrite Heq. apply Qle_refl.
  - exists qe, ce, M, row. rewrite Hqv.
    now refine (conj H1 (conj H2 (conj HM (conj Hrow (conj Hq
                  (conj Hmin Hall)))))).
Qed.

Lemma verdict_thresholds_witness :
  let run := analyze_content_relevance Stub.env semantic_service 0 1
               [PyStr "B other question"; PyStr "A question"]
               [ChunkDict (Some (PyStr "T forty percent")) None;
                ChunkDict (Some (PyStr "C unrelated text")) None] "client" in
  exists v,
    query_analysis (snd run) !! 1 = Some v /\
    query v = PyStr "A question" /\
    max_similarity v = (2 # 5)%Q /\
    is_answered v = false /\
    confidence v = Qmin (max_similarity v * 2) 1 /\
    exists row,
      row = [2 # 5; 0]%Q /\
      In (max_similarity v) row /\
      Forall (fun s => (s <= max_similarity v)%Q) row.
Proof.
  intros run.
  set (v := nth 1 (query_analysis (snd run))
              (mkVerdict PyNone false 0 0 "" [])).
  exists v.
  destruct (verdict_thresholds Stub.env semantic_service 0 1
              [PyStr "B other question"; PyStr "A question"]
              [ChunkDict (Some (PyStr "T forty percent")) None;
               ChunkDict (Some (PyStr "C unrelated text")) None] "client"
              1 v eq_refl)
    as (_ & Hb & Hc & qe & ce & M & row & H1 & H2 & HM & Hrow & _ & Hin & Hall).
  vm_compute in H1. injection H1 as <-.
  vm_compute in H2. injection H2 as <-.
  vm_compute in HM. injection HM as <-.
  vm_compute in Hrow. injection Hrow as <-.
  refine (conj eq_refl (conj eq_refl (conj eq_refl (conj (Hb _) (conj Hc _))))).
  - reflexivity.
  - exists [2 # 5; 0]%Q. exact (conj eq_refl (conj Hin Hall)).
Defined.

(** C6, violated.  The confidence is cut off at 1 but not at 0: for a query
    whose similarities are all negative, twice the maximum is returned as
    it is.  Here the only chunk has cosine similarity -1 to the query, and
    the report carries a confidence of -2 and an overall score of -200. *)
Theorem confidence_below_zero :
  let run := analyze_content_relevance Stub.env semantic_service 0 1
               [PyStr "A question"]
               [ChunkDict (Some (PyStr "N opposite text")) None] "client" in
  error (snd run) = None /\
  map max_similarity (query_analysis (snd run)) = [(-1)%Q] /\
  map confidence (query_analysis (snd run)) = [(-2)%Q] /\
  (overall_score (snd run) == -200)%Q /\
  (content_coverage (snd run) == 0)%Q.
Proof. vm_compute. repeat split. Qed.

(* ===================================================================== *)
(** ** Ranking the chunks of a query *)
(* ===================================================================== *)

Lemma StronglySorted_rev {A} (R : A -> A -> Prop) (l : list A) :
  StronglySorted R l -> StronglySorted (fun x y => R y x) (rev l).
Proof.
  induction 1 as [|a l Hl IH Ha]; simpl; [constructor|].
  apply StronglySorted_app_2.
  - intros x1 x2 H1 H2. apply list_elem_of_In in H1, H2.
    destruct H2 as [<-|[]]. apply in_rev in H1.
    rewrite Forall_forall in Ha. apply Ha. now apply list_elem_of_In.
  - exact IH.
  - repeat constructor.
Qed.

Lemma StronglySorted_drop {A} (R : A -> A -> Prop) (n : nat) (l : list A) :
  StronglySorted R l -> StronglySorted R (drop n l).
Proof.
  intros H. rewrite <- (take_drop n l) in H.
  now apply StronglySorted_app_1_r in H.
Qed.

Lemma StronglySorted_List_filter {A} (R : A -> A -> Prop) (p : A -> bool)
    (l : list A) :
  StronglySorted R l -> StronglySorted R (List.filter p l).
Proof.
  induction 1 as [|a l Hl IH Ha]; simpl; [constructor|].
  destruct (p a); [|exact IH].
  constructor; [exact IH|].
  rewrite Forall_forall in *. intros x Hx.
  apply Ha. apply list_elem_of_In in Hx. apply list_elem_of_In.
  apply List.filter_In in Hx. tauto.
Qed.


Section TopIndices.

Variable E : Externals.
Variable row : list Q.
Hypothesis Hok : argsort_ok E row.

Lemma argsort_length : length (argsort E row) = length row.
Proof.
  destruct Hok as [Hp _]. apply Permutation_length in Hp.
  now rewrite length_seq in Hp.
Qed.

Lemma argsort_In x : In x (argsort E row) <-> x < length row.
Proof.
  destruct Hok as [Hp _]. split; intros H.
  - apply (Permutation_in _ Hp) in H. apply in_seq in H. lia.
  - apply (Permutation_in _ (Permutation_sym Hp)). apply in_seq. lia.
Qed.


Lemma top_indices_length :
  length (top_indices E row) = Nat.min 3 (length row).
Proof.
  unfold top_indices, last_n.
  rewrite length_rev, length_drop, argsort_length. lia.
Qed.

Lemma top_indices_sorted : StronglySorted (descending row) (top_indices E row).
Proof.
  unfold top_indices, last_n.
  apply (StronglySorted_rev (ascending row)).
  apply StronglySorted_drop. apply Hok.
Qed.


Lemma top_indices_In x : In x (top_indices E row) -> x < length row.
Proof.
  unfold top_indices, last_n. intros H. apply in_rev in H.
  apply argsort_In.
  rewrite <- (take_drop (length (argsort E row) - 3) (argsort E row)).
  apply in_or_app. now right.
Qed.

(** An index outside the top has a value no larger than any index in it. *)
Lemma top_indices_highest x y :
  In x (top_indices E row) -> y < length row -> ~ In y (top_indices E row) ->
  (score row y <= score row x)%Q.
Proof.
  unfold top_indices, last_n. intros Hx Hy Hny.
  apply in_rev in Hx.
  assert (Hy' : In y (take (length (argsort E row) - 3) (argsort E row))).
  { apply argsort_In in Hy.
    rewrite <- (take_drop (length (argsort E row) - 3) (argsort E row)) in Hy.
    apply in_app_or in Hy as [Hy|Hy]; [exact Hy|].
    exfalso. apply Hny. now apply in_rev in Hy. }
  destruct Hok as [_ Hs].
  rewrite <- (take_drop (length (argsort E row) - 3) (argsort E row)) in Hs.
  apply (StronglySorted_app_1_elem_of _ _ _ y x Hs); now apply list_elem_of_In.
Qed.


End TopIndices.

Lemma collect_top_matches_Ok row md idxs :
  forall tms,
    collect_top_matches row md idxs = Ok tms ->
    Forall2 (listed row md) (List.filter (above_threshold row) idxs) tms.
Proof.
  induction idxs as [|idx rest IH]; intros tms; simpl.
  - intros [= <-]. constructor.
  - unfold np_index, list_index, above_threshold, score.
    destruct (row !! idx) as [s|] eqn:Hs; simpl; [|discriminate].
    destruct (Qltb (1 # 10) s) eqn:Hab.
    + destruct (md !! idx) as [m|] eqn:Hm; simpl; [|discriminate].
      destruct (collect_top_matches row md rest) as [more|]; simpl;
        [|discriminate].
      intros [= <-]. constructor; [|now apply IH].
      exists m. simpl. repeat split; assumption.
    + apply IH.
Qed.

Lemma argmax_from_spec (l : list Q) :
  forall (pre : list Q) (best_idx : nat) (best : Q),
    pre !! best_idx = Some best ->
    (forall j s, j < best_idx -> pre !! j = Some s -> (s < best)%Q) ->
    (forall j s, pre !! j = Some s -> (s <= best)%Q) ->
    let b := argmax_from best_idx best (length pre) l in
    let m := fold_left (fun m y => if Qltb m y then y else m) l best in
    (pre ++ l) !! b = Some m /\
    (forall j s, j < b -> (pre ++ l) !! j = Some s -> (s < m)%Q).
Proof.
  induction l as [|y l IH]; intros pre best_idx best Hb Hlt Hle; simpl.
  - rewrite app_nil_r. split; [exact Hb | exact Hlt].
  - replace (pre ++ y :: l) with ((pre ++ [y]) ++ l)
      by (now rewrite <- app_assoc).
    replace (S (length pre)) with (length (pre ++ [y]))
      by (rewrite List.length_app; simpl; lia).
    destruct (Qltb best y) eqn:Hy.
    + apply Qltb_lt in Hy. apply IH.
      * rewrite lookup_app_r by lia. now rewrite Nat.sub_diag.
      * intros j s Hj Hs. rewrite lookup_app_l in Hs by lia.
        apply Qle_lt_trans with best; [now apply (Hle j) | exact Hy].
      * intros j s Hs.
        destruct (Nat.lt_ge_cases j (length pre)) as [Hj|Hj].
        -- rewrite lookup_app_l in Hs by lia.
           apply Qlt_le_weak.
           apply Qle_lt_trans with best; [now apply (Hle j) | exact Hy].
        -- rewrite lookup_app_r in Hs by lia.
           destruct (j - length pre) as [|k]; simpl in Hs; [|discriminate].
           injection Hs as <-. apply Qle_refl.
    + apply Qltb_ge in Hy. apply IH.
      * apply lookup_lt_Some in Hb as Hb'.
        now rewrite lookup_app_l by lia.
      * intros j s Hj Hs. apply lookup_lt_Some in Hb as Hb'.
        rewrite lookup_app_l in Hs by lia. now apply (Hlt j).
      * intros j s Hs.
        destruct (Nat.lt_ge_cases j (length pre)) as [Hj|Hj].
        -- rewrite lookup_app_l in Hs by lia. now apply (Hle j).
        -- rewrite lookup_app_r in Hs by lia.
           destruct (j - length pre) as [|k]; simpl in Hs; [|discriminate].
           now injection Hs as <-.
Qed.

(** [np.argmax] returns the first index that holds the value of [np.max]. *)
Lemma np_argmax_spec row b m :
  np_argmax row = Ok b -> np_max row = Ok m ->
  row !! b = Some m /\ forall j, j < b -> (score row j < m)%Q.
Proof.
  destruct row as [|x l]; simpl; [discriminate|].
  intros [= <-] [= <-].
  destruct (argmax_from_spec l [x] 0 x) as [Hb Hlt].
  - reflexivity.
  - intros j s Hj. lia.
  - intros [|j] s Hs; simpl in Hs; [|discriminate].
    injection Hs as <-. apply Qle_refl.
  - simpl in Hb, Hlt. split; [exact Hb|].
    intros j Hj. unfold score.
    assert (Hjl : j < length (x :: l)).
    { apply lookup_lt_Some in Hb. lia. }
    destruct (lookup_lt_is_Some_2 (x :: l) j Hjl) as [s Hs].
    rewrite Hs. simpl. now apply (Hlt j).
Qed.



(** The verdict of index [i] of a report is the round of the loop for
    query [i] on row [i] of the similarity matrix. *)
Lemma report_verdict_at E st now1 now2 queries content_chunks client_id
    qe ce M i v :
  let content := extract_content content_chunks in
  let r1 := encode_texts E st now1 queries true client_id in
  let r2 := encode_texts E (fst r1) now2 (map PyStr (content.*1)) true
              client_id in
  let run :=
    analyze_content_relevance E st now1 now2 queries content_chunks client_id in
  snd r1 = Ok qe -> snd r2 = Ok ce ->
  calculate_similarity E qe ce = Ok M ->
  query_analysis (snd run) !! i = Some v ->
  exists q, queries !! i = Some q /\
            analyze_query E M (content.*2) i q = Ok v.
Proof.
  cbv zeta. intros H1 H2 HM Hv.
  destruct (report_verdicts E st now1 now2 queries content_chunks client_id)
    as [Hnil|(qe' & ce' & M' & H1' & H2' & HM' & Hqa & _)].
  - rewrite Hnil in Hv. discriminate.
  - rewrite H1 in H1'. injection H1' as <-.
    rewrite H2 in H2'. injection H2' as <-.
    rewrite HM in HM'. injection HM' as <-.
    destruct (analyze_queries_Ok _ _ _ _ _ _ Hqa) as [_ Hvs].
    exact (Hvs i v Hv).
Qed.




(* ===================================================================== *)
(** ** Queries and rows *)
(* ===================================================================== *)

Lemma lstrip_head s :
  match PyStr.lstrip s with
  | EmptyString => True
  | String c _ => PyStr.is_space c = false
  end.
Proof.
  induction s as [|c r IH]; simpl; [exact I|].
  destruct (PyStr.is_space c) eqn:Hc; [exact IH | exact Hc].
Qed.

Lemma rstrip_head c r :
  PyStr.is_space c = false ->
  exists r', PyStr.rstrip (String c r) = String c r'.
Proof.
  intros Hc. simpl. rewrite Hc.
  destruct (PyStr.rstrip r); eauto.
Qed.

Lemma rstrip_idem s : PyStr.rstrip (PyStr.rstrip s) = PyStr.rstrip s.
Proof.
  induction s as [|c r IH]; simpl; [reflexivity|].
  destruct (PyStr.rstrip r) as [|c' r'] eqn:Hr.
  - destruct (PyStr.is_space c) eqn:Hc; simpl; [reflexivity|].
    now rewrite Hc.
  - simpl. simpl in IH.
    destruct (PyStr.rstrip r') as [|c'' r''] eqn:Hr'.
    + destruct (PyStr.is_space c') eqn:Hc'; [discriminate|].
      now rewrite IH.
    + now rewrite IH.
Qed.

Lemma lstrip_nonspace c r :
  PyStr.is_space c = false -> PyStr.lstrip (String c r) = String c r.
Proof. intros Hc. simpl. now rewrite Hc. Qed.

(** [strip] of a stripped string changes nothing. *)
Lemma strip_idem s : PyStr.strip (PyStr.strip s) = PyStr.strip s.
Proof.
  unfold PyStr.strip.
  pose proof (lstrip_head s) as Hh.
  destruct (PyStr.lstrip s) as [|c r] eqn:Hl; [reflexivity|].
  destruct (rstrip_head c r Hh) as [r' Hr].
  rewrite Hr, (lstrip_nonspace c r' Hh), <- Hr.
  apply rstrip_idem.
Qed.

Lemma clean_texts_cons_usable s rest :
  0 < PyStr.len (PyStr.strip s) ->
  clean_texts (PyStr s :: rest)
  = PyStr.take 1000 (PyStr.strip s) :: clean_texts rest.
Proof.
  intros H. simpl.
  destruct (Nat.ltb_spec 0 (PyStr.len (PyStr.strip s))); [reflexivity | lia].
Qed.

Lemma clean_texts_cons_dropped q rest :
  ~ usable q -> clean_texts (q :: rest) = clean_texts rest.
Proof.
  intros H. destruct q as [s| |]; try reflexivity. simpl.
  destruct (Nat.ltb_spec 0 (PyStr.len (PyStr.strip s))); [|reflexivity].
  exfalso. apply H. now exists s.
Qed.

Lemma usable_dec q : {usable q} + {~ usable q}.
Proof.
  destruct q as [s| |].
  - destruct (lt_dec 0 (PyStr.len (PyStr.strip s))).
    + left. now exists s.
    + right. intros (s' & [= <-] & Hs). lia.
  - right. intros (s' & [=] & _).
  - right. intros (s' & [=] & _).
Qed.

Lemma clean_texts_length_le texts :
  length (clean_texts texts) <= length texts.
Proof.
  induction texts as [|q rest IH]; [simpl; lia|].
  destruct (usable_dec q) as [(s & -> & Hs)|Hn].
  - rewrite clean_texts_cons_usable by assumption. simpl. lia.
  - rewrite clean_texts_cons_dropped by assumption. simpl. lia.
Qed.

(** With usable queries only, cleaning keeps every position. *)
Lemma clean_texts_usable texts :
  Forall usable texts ->
  length (clean_texts texts) = length texts /\
  forall i s, texts !! i = Some (PyStr s) ->
              clean_texts texts !! i = Some (PyStr.take 1000 (PyStr.strip s)).
Proof.
  induction 1 as [|q rest (s & -> & Hs) Hrest [IHl IHi]]; [easy|].
  rewrite clean_texts_cons_usable by assumption. split.
  - simpl. now rewrite IHl.
  - intros [|i] s' Hi; simpl in *.
    + now injection Hi as <-.
    + now apply IHi.
Qed.

(** One dropped query makes the cleaned batch shorter than the batch. *)
Lemma clean_texts_dropped texts :
  Exists (fun q => ~ usable q) texts ->
  length (clean_texts texts) < length texts.
Proof.
  induction 1 as [q rest Hq|q rest Hrest IH].
  - rewrite clean_texts_cons_dropped by assumption.
    pose proof (clean_texts_length_le rest). simpl. lia.
  - pose proof (clean_texts_length_le (q :: rest)).
    destruct (usable_dec q) as [(s & -> & Hs)|Hn].
    + rewrite clean_texts_cons_usable by assumption. simpl. lia.
    + rewrite clean_texts_cons_dropped by assumption. simpl. lia.
Qed.

(** The texts of the chunks that pass the filter are all kept by the
    cleaning step. *)
Lemma content_texts_usable content_chunks :
  Forall usable (map PyStr ((extract_content content_chunks).*1)).
Proof.
  apply Forall_forall. intros q Hq. apply list_elem_of_In in Hq.
  apply in_map_iff in Hq as (t & <- & Ht).
  apply in_map_iff in Ht as ([t' m] & <- & Hin).
  apply extract_content_In in Hin as (c & _ & Hx).
  apply extract_chunk_Some in Hx as (text & type & _ & Hlen & -> & _).
  exists (PyStr.strip text). split; [reflexivity|].
  rewrite strip_idem. simpl. lia.
Qed.

Lemma shaped_size batch v : shaped batch v -> batch <> [] -> size v <> 0.
Proof.
  intros [Hlen Hrows] Hne. unfold size.
  destruct v as [|row v]; [destruct batch; [contradiction | discriminate]|].
  apply Forall_cons in Hrows as [Hrow _].
  simpl. rewrite List.length_app. destruct row; [contradiction | simpl; lia].
Qed.

Lemma encode_texts_shaped E st now texts client_id v :
  encoder_shape E ->
  faithful_at E (_cache st) (clean_texts texts) ->
  snd (encode_texts E st now texts true client_id) = Ok v ->
  shaped (clean_texts texts) v.
Proof.
  intros Henc Hf.
  destruct (encode_texts_outcome E st now texts true client_id)
    as [Hd|e Ha Hi|Ha Hi Hcl|cached Ha Hi Hcl Hu Hget|e Ha Hi Hcl Hmiss Hm
        |emb Ha Hi Hcl Hmiss Hm]; simpl; try discriminate; intros [= <-].
  - rewrite Hcl. split; [reflexivity | constructor].
  - now apply Hf.
  - now apply (Henc _ _ _ Hm).
Qed.

(** The cache stays faithful at [batch] over a call that returns, when
    the key of the call is not the key of [batch] under another shape. *)
Lemma encode_texts_faithful_after E st now texts client_id v batch :
  NoDup (Dict.keys (_cache st)) ->
  faithful_at E (_cache st) batch ->
  snd (encode_texts E st now texts true client_id) = Ok v ->
  (hash E (clean_texts texts) = hash E batch -> shaped batch v) ->
  faithful_at E (_cache (fst (encode_texts E st now texts true client_id)))
              batch.
Proof.
  intros Hnd Hf Hok Hcross.
  destruct (encode_texts_cache E st now texts true client_id Hnd)
    as [[Hc _]|(emb & _ & Hget & _ & Hr & _ & Hc)]; rewrite Hc.
  - exact Hf.
  - rewrite Hok in Hr. injection Hr as <-.
    intros v' Hv'.
    apply get_append_trim_inv in Hv' as [Hv'|[Hk ->]]; auto.
Qed.

Lemma collect_top_matches_total row md idxs :
  length md = length row ->
  (forall idx, In idx idxs -> idx < length row) ->
  exists tms, collect_top_matches row md idxs = Ok tms.
Proof.
  intros Hlen. induction idxs as [|idx rest IH]; intros Hin; simpl.
  - now exists [].
  - assert (Hidx : idx < length row) by (apply Hin; now left).
    destruct IH as [more Hmore]; [intros x Hx; apply Hin; now right|].
    destruct (lookup_lt_is_Some_2 row idx Hidx) as [s Hs].
    destruct (lookup_lt_is_Some_2 md idx ltac:(lia)) as [m Hm].
    unfold np_index, list_index. rewrite Hs, Hm, Hmore. simpl.
    destruct (Qltb (1 # 10) s); eauto.
Qed.

Lemma analyze_query_total E M md i q row :
  M !! i = Some row -> row_ok E md row ->
  exists v, analyze_query E M md i q = Ok v.
Proof.
  intros Hrow (Hne & Hlen & Hok).
  unfold analyze_query.
  rewrite (proj2 (np_index_Ok M i row) Hrow). cbn [bind].
  destruct row as [|x r]; [contradiction|].
  cbn [np_max np_argmax bind].
  destruct (collect_top_matches_total (x :: r) md (top_indices E (x :: r)) Hlen)
    as [tms Htms].
  - intros idx. now apply top_indices_In.
  - rewrite Htms. simpl. eauto.
Qed.

Lemma analyze_queries_total E M md queries :
  Forall (row_ok E md) M ->
  forall i, i + length queries <= length M ->
    exists vs, analyze_queries E M md i queries = Ok vs.
Proof.
  intros HM. induction queries as [|q queries IH]; intros i Hi; simpl in *.
  - now exists [].
  - destruct (lookup_lt_is_Some_2 M i ltac:(lia)) as [row Hrow].
    assert (Hok : row_ok E md row).
    { rewrite Forall_forall in HM. apply HM.
      apply list_elem_of_lookup. now exists i. }
    destruct (analyze_query_total E M md i q row Hrow Hok) as [v Hv].
    destruct (IH (S i) ltac:(lia)) as [vs Hvs].
    rewrite Hv, Hvs. simpl. eauto.
Qed.

Lemma query_previews_total vs :
  Forall (fun v => exists s, query v = PyStr s) vs ->
  exists ps, query_previews vs = Ok ps.
Proof.
  induction 1 as [|v vs [s Hs] Hvs [ps IH]]; simpl; [now exists []|].
  unfold query_preview. rewrite Hs, IH. simpl. eauto.
Qed.

Lemma generate_recommendations_total qa coverage :
  Forall (fun v => exists s, query v = PyStr s) qa ->
  exists recs, _generate_recommendations qa coverage = Ok recs.
Proof.
  intros Hqa. unfold _generate_recommendations.
  set (un := List.filter (fun qa0 => negb (is_answered qa0)) qa).
  destruct (query_previews_total (take 3 un)) as [ps Hps].
  - apply Forall_forall. intros v Hv.
    rewrite Forall_forall in Hqa. apply Hqa.
    apply list_elem_of_In. apply list_elem_of_In in Hv.
    assert (Hin : In v un).
    { rewrite <- (take_drop 3 un). apply in_or_app. now left. }
    unfold un in Hin. apply List.filter_In in Hin. tauto.
  - rewrite Hps. destruct (0 <? length un)%nat; simpl; eauto.
Qed.

Lemma analyze_run_Ok E st now1 now2 queries content_chunks client_id qe ce :
  let content := extract_content content_chunks in
  let r1 := encode_texts E st now1 queries true client_id in
  let r2 := encode_texts E (fst r1) now2 (map PyStr (content.*1)) true
              client_id in
  let run :=
    analyze_content_relevance E st now1 now2 queries content_chunks client_id in
  queries <> [] -> content <> [] ->
  snd r1 = Ok qe -> snd r2 = Ok ce ->
  snd run = match analyze_embeddings E (fst r2) queries content qe ce with
            | Ok r => r
            | Raise e => error_report e
            end.
Proof.
  cbv zeta. intros Hq Hc H1 H2.
  unfold analyze_content_relevance.
  remember (extract_content content_chunks) as content eqn:Hcont.
  destruct queries as [|q0 qs]; [contradiction|].
  destruct content_chunks as [|c0 cs]; [simpl in Hcont; congruence|].
  destruct content as [|x content]; [contradiction|].
  remember (q0 :: qs) as queries. remember (x :: content) as cont.
  unfold analyze_try.
  destruct (encode_texts E st now1 queries true client_id) as [st1 res1];
    cbn [fst snd] in *. subst res1.
  destruct (encode_texts E st1 now2 _ true client_id) as [st2 res2];
    cbn [fst snd] in *. subst res2.
  now destruct (analyze_embeddings E st2 queries cont qe ce).
Qed.

(** With more queries than rows, the loop completes the rounds that have a
    row and raises at the first index past the last row. *)
Lemma analyze_queries_overrun E M md queries :
  Forall (row_ok E md) M ->
  forall i,
    i <= length M -> length M < i + length queries ->
    analyze_queries E M md i queries
    = Raise (index_error (length M) (length M)).
Proof.
  intros HM. induction queries as [|q queries IH]; intros i Hi Hlen;
    cbn [length] in Hlen; [lia|].
  cbn [analyze_queries].
  destruct (Nat.eq_dec i (length M)) as [->|Hne].
  - unfold analyze_query. rewrite np_index_Raise by lia. reflexivity.
  - destruct (lookup_lt_is_Some_2 M i ltac:(lia)) as [row Hrow].
    assert (Hok : row_ok E md row).
    { rewrite Forall_forall in HM. apply HM.
      apply list_elem_of_lookup. now exists i. }
    destruct (analyze_query_total E M md i q row Hrow Hok) as [v ->].
    cbn [bind]. rewrite IH by lia. reflexivity.
Qed.

(** A call that returns for a batch that is empty after cleaning returns
    the empty array. *)
Lemma encode_texts_ok_empty E st now texts use_cache client_id v :
  snd (encode_texts E st now texts use_cache client_id) = Ok v ->
  clean_texts texts = [] -> v = [].
Proof.
  destruct (encode_texts_outcome E st now texts use_cache client_id)
    as [Hd|e Ha Hi|Ha Hi Hcl|cached Ha Hi Hcl Hu Hget|e Ha Hi Hcl Hmiss Hm
        |emb Ha Hi Hcl Hmiss Hm]; simpl; congruence.
Qed.

(** What the verdict of a round says of its row. *)
Lemma analyze_query_row E M md i q v :
  analyze_query E M md i q = Ok v ->
  exists row,
    M !! i = Some row /\
    query v = q /\
    In (max_similarity v) row /\
    Forall (fun s => (s <= max_similarity v)%Q) row /\
    is_answered v = Qltb (4 # 10) (max_similarity v) /\
    confidence v = Qmin (max_similarity v * 2) 1 /\
    Forall2 (listed row md)
            (List.filter (above_threshold row) (top_indices E row))
            (top_matches v) /\
    exists best_idx,
      row !! best_idx = Some (max_similarity v) /\
      (forall j, j < best_idx -> (score row j < max_similarity v)%Q) /\
      best_match v = match md !! best_idx with
                     | Some m => original_text m
                     | None => ""
                     end.
Proof.
  intros Hav.
  apply analyze_query_Ok in Hav
    as (row & b & Hrow & Hmax & Hb & Htop & Hq & Hans & Hconf & Hbest).
  destruct (np_argmax_spec row b _ Hb Hmax) as [Hbm Hfirst].
  apply np_max_spec in Hmax as [Hin Hall].
  apply collect_top_matches_Ok in Htop.
  exists row.
  refine (conj Hrow (conj Hq (conj Hin (conj Hall (conj Hans (conj Hconf
            (conj Htop _))))))).
  exists b. exact (conj Hbm (conj Hfirst Hbest)).
Qed.

Section Shapes.

Variable E : Externals.
Variable st : Service.
Variables now1 now2 : Q.
Variable queries : list pyval.
Variable content_chunks : list chunk.
Variable client_id : string.

Let content := extract_content content_chunks.
Let cq := clean_texts queries.
Let cc := clean_texts (map PyStr (content.*1)).
Let r1 := encode_texts E st now1 queries true client_id.
Let r2 := encode_texts E (fst r1) now2 (map PyStr (content.*1)) true client_id.

Hypothesis Henc : encoder_shape E.
Hypothesis Hcos : cosine_shape E.
Hypothesis Hinv : cache_inv st.
Hypothesis Hfq : faithful_at E (_cache st) cq.
Hypothesis Hfc : faithful_at E (_cache st) cc.
Hypothesis Hcross : hash E cq = hash E cc -> cq = cc.

Variables qe ce M : ndarray.
Hypothesis H1 : snd r1 = Ok qe.
Hypothesis H2 : snd r2 = Ok ce.
Hypothesis HM : cosine_similarity E qe ce = Ok M.
Hypothesis Hsort : Forall (argsort_ok E) M.
Hypothesis Hcq : cq <> [].
Hypothesis Hcontent : content <> [].

(** The shapes of the two batches of embeddings and of the matrix. *)
Lemma run_shapes :
  size qe <> 0 /\ size ce <> 0 /\
  length M = length cq /\
  Forall (fun row => length row = length content) M /\
  Forall (row_ok E (content.*2)) M.
Proof.
  destruct Hinv as [Hnd _].
  destruct (clean_texts_usable _ (content_texts_usable content_chunks))
    as [Hlc _]. fold content in Hlc. fold cc in Hlc.
  rewrite !length_map in Hlc.
  assert (Hsq : shaped cq qe)
    by now apply (encode_texts_shaped E st now1 queries client_id).
  assert (Hfc' : faithful_at E (_cache (fst r1)) cc).
  { apply (encode_texts_faithful_after E st now1 queries client_id qe);
      auto.
    intros Hk. fold cq in Hk. now rewrite <- (Hcross Hk). }
  assert (Hsc : shaped cc ce)
    by now apply (encode_texts_shaped E (fst r1) now2 _ client_id).
  destruct (Hcos _ _ _ HM) as [HlM Hrows].
  assert (Hlce : length ce = length content)
    by (destruct Hsc as [-> _]; exact Hlc).
  assert (Hrows' : Forall (fun row => length row = length content) M).
  { apply Forall_forall. intros row Hrow. rewrite Forall_forall in Hrows.
    rewrite <- Hlce. now apply Hrows. }
  refine (conj _ (conj _ (conj _ (conj Hrows' _)))).
  - now apply (shaped_size _ _ Hsq).
  - apply (shaped_size _ _ Hsc). intros Hnil.
    rewrite Hnil in Hlc. apply Hcontent. apply List.length_zero_iff_nil.
    simpl in Hlc. lia.
  - rewrite HlM. now destruct Hsq as [-> _].
  - apply Forall_forall. intros row Hrow.
    rewrite Forall_forall in Hrows', Hsort.
    specialize (Hrows' row Hrow). specialize (Hsort row Hrow).
    split; [|split; [|exact Hsort]].
    + intros ->. apply Hcontent. apply List.length_zero_iff_nil.
      simpl in Hrows'. lia.
    + rewrite length_fmap. lia.
Qed.

End Shapes.

(** C9, as amended.  When every query is a string that is not empty once
    stripped, the cleaning step keeps every query at its position.  Then,
    with an embedder and a similarity function of the documented shapes and
    a cache whose entries under the two keys have the shapes of the two
    batches, the similarity matrix has one row per query, each as long as
    the list of kept chunks, the analysis completes, and its verdict of
    index [i] carries query [i] and is computed from row [i]: the maximum
    of that row, the answer and the confidence taken from it, the chunks of
    that row above 0.1 among its top three, and the first chunk that
    reaches the maximum.  When some query is not such a string it is
    dropped and the cleaned batch is shorter than the query list.  If no
    query is left, the analysis returns the report "Failed to generate
    embeddings".  Otherwise the matrix has one row per cleaned query, the
    loop over the queries runs past the last row, and the analysis returns
    the error report of that [IndexError]. *)
Theorem queries_aligned_with_rows (E : Externals) (st : Service)
    (now1 now2 : Q) (queries : list pyval) (content_chunks : list chunk)
    (client_id : string) (qe ce : ndarray) :
  let content := extract_content content_chunks in
  let cq := clean_texts queries in
  let cc := clean_texts (map PyStr (content.*1)) in
  let r1 := encode_texts E st now1 queries true client_id in
  let r2 := encode_texts E (fst r1) now2 (map PyStr (content.*1)) true
              client_id in
  let run :=
    analyze_content_relevance E st now1 now2 queries content_chunks client_id in
  queries <> [] -> content <> [] ->
  snd r1 = Ok qe -> snd r2 = Ok ce ->
  (Forall usable queries ->
   length cq = length queries /\
   forall i s, queries !! i = Some (PyStr s) ->
               cq !! i = Some (PyStr.take 1000 (PyStr.strip s))) /\
  (Exists (fun q => ~ usable q) queries -> length cq < length queries) /\
  (cq = [] ->
   snd run = zero_report [Literal "Failed to generate embeddings"] None) /\
  (forall M,
      cq <> [] ->
      encoder_shape E -> cosine_shape E -> cache_inv st ->
      faithful_at E (_cache st) cq -> faithful_at E (_cache st) cc ->
      (hash E cq = hash E cc -> cq = cc) ->
      cosine_similarity E qe ce = Ok M ->
      Forall (argsort_ok E) M ->
      length M = length cq /\
      Forall (fun row => length row = length content) M /\
      (Forall usable queries ->
       error (snd run) = None /\
       length (query_analysis (snd run)) = length queries /\
       forall i q, queries !! i = Some q ->
         exists row v,
           M !! i = Some row /\
           query_analysis (snd run) !! i = Some v /\
           query v = q /\
           In (max_similarity v) row /\
           Forall (fun s => (s <= max_similarity v)%Q) row /\
           is_answered v = Qltb (4 # 10) (max_similarity v) /\
           confidence v = Qmin (max_similarity v * 2) 1 /\
           Forall2 (listed row (content.*2))
                   (List.filter (above_threshold row) (top_indices E row))
                   (top_matches v) /\
           exists best_idx,
             row !! best_idx = Some (max_similarity v) /\
             (forall j, j < best_idx -> (score row j < max_similarity v)%Q) /\
             best_match v = match content.*2 !! best_idx with
                            | Some m => original_text m
                            | None => ""
                            end) /\
      (Exists (fun q => ~ usable q) queries ->
       length M < length queries /\
       analyze_queries E M (content.*2) 0 queries
       = Raise (index_error (length M) (length M)) /\
       snd run = error_report (index_error (length M) (length M)))).
Proof.
  cbv zeta. intros Hq Hc H1 H2.
  pose proof (analyze_run_Ok E st now1 now2 queries content_chunks client_id
                qe ce Hq Hc H1 H2) as Hrun.
  cbv zeta in Hrun.
  refine (conj _ (conj _ (conj _ _))).
  - apply clean_texts_usable.
  - apply clean_texts_dropped.
  - intros Hnil.
    apply (encode_texts_ok_empty _ _ _ _ _ _ _ H1) in Hnil. subst qe.
    rewrite Hrun. reflexivity.
  - intros M Hcq Henc Hcos Hinv Hfq Hfc Hcross HM Hsort.
    destruct (run_shapes E st now1 now2 queries content_chunks client_id
                Henc Hcos Hinv Hfq Hfc Hcross qe ce M H1 H2 HM Hsort Hcq Hc)
      as (Hsq & Hsc & HlM & Hrows & Hrok).
    unfold analyze_embeddings, calculate_similarity in Hrun.
    destruct (Nat.eqb_spec (size qe) 0); [contradiction|].
    destruct (Nat.eqb_spec (size ce) 0); [contradiction|].
    cbn [orb] in Hrun. rewrite HM in Hrun. cbn [bind] in Hrun.
    refine (conj HlM (conj Hrows (conj _ _))).
    + intros Hus.
      destruct (clean_texts_usable queries Hus) as [Hlq _].
      destruct (analyze_queries_total E M _ queries Hrok 0 ltac:(lia))
        as [qa Hqa].
      destruct (analyze_queries_Ok _ _ _ _ _ _ Hqa) as [Hlqa Hvs].
      assert (Hstr : Forall (fun v => exists s, query v = PyStr s) qa).
      { apply Forall_forall. intros v Hv.
        apply list_elem_of_lookup in Hv as [i Hi].
        destruct (Hvs i v Hi) as (q & Hqi & Hav).
        apply analyze_query_Ok in Hav as (_ & _ & _ & _ & _ & _ & -> & _).
        rewrite Forall_forall in Hus.
        destruct (Hus q) as (s & -> & _); [|now exists s].
        apply list_elem_of_lookup. now exists i. }
      rewrite Hqa in Hrun. cbn [bind] in Hrun.
      destruct (generate_recommendations_total qa
                  (Qnat (length (List.filter is_answered qa))
                   / Qnat (length queries) * 100)%Q Hstr) as [recs Hrecs].
      rewrite Hrecs in Hrun. cbn [bind] in Hrun.
      rewrite Hrun. cbn [error query_analysis].
      refine (conj eq_refl (conj Hlqa _)).
      intros i q Hi.
      assert (Hi' : i < length qa)
        by (rewrite Hlqa; now apply lookup_lt_Some in Hi).
      destruct (lookup_lt_is_Some_2 qa i Hi') as [v Hv].
      destruct (Hvs i v Hv) as (q' & Hq' & Hav).
      simpl in Hq'. rewrite Hi in Hq'. injection Hq' as <-.
      simpl in Hav.
      apply analyze_query_row in Hav as (row & Hrow & Hrest).
      exists row, v. exact (conj Hrow (conj Hv Hrest)).
    + intros Hex.
      pose proof (clean_texts_dropped queries Hex) as Hlt.
      assert (Hover : analyze_queries E M ((extract_content content_chunks).*2)
                        0 queries
                      = Raise (index_error (length M) (length M))).
      { apply analyze_queries_overrun; [exact Hrok | lia | lia]. }
      rewrite Hover in Hrun. cbn [bind] in Hrun.
      refine (conj _ (conj Hover Hrun)). lia.
Qed.

Lemma stub_vector_nonempty text : Stub.vector text <> [].
Proof.
  destruct text as [|[[] [] [] [] [] [] [] []] r]; simpl; discriminate.
Qed.

Lemma stub_encoder_shape : encoder_shape Stub.env.
Proof.
  intros k texts emb [= <-]. split; [apply length_map|].
  apply Forall_forall. intros row Hrow. apply list_elem_of_In in Hrow.
  apply in_map_iff in Hrow as (t & <- & _). apply stub_vector_nonempty.
Qed.

Lemma stub_cosine_shape : cosine_shape Stub.env.
Proof.
  intros X Y M [= <-]. split; [apply length_map|].
  apply Forall_forall. intros row Hrow. apply list_elem_of_In in Hrow.
  apply in_map_iff in Hrow as (x & <- & _). apply length_map.
Qed.

Lemma queries_aligned_with_rows_witness :
  let chunks := [ChunkDict (Some (PyStr "C unrelated text")) None;
                 ChunkDict (Some (PyStr "H relevant text")) None] in
  let run := analyze_content_relevance Stub.env semantic_service 0 1
               [PyStr "A question"; PyStr "  B other question "] chunks
               "client" in
  let run' := analyze_content_relevance Stub.env semantic_service 0 1
                [PyStr "   "; PyStr "A question"] chunks "client" in
  (error (snd run) = None /\ length (query_analysis (snd run)) = 2) /\
  snd run' = error_report (index_error 1 1).
Proof.
  intros chunks run run'.
  assert (Hinv : cache_inv semantic_service)
    by (split; [constructor | simpl; lia]).
  assert (Hf : forall batch,
             faithful_at Stub.env (_cache semantic_service) batch)
    by (intros batch v Hv; discriminate).
  split.
  - destruct (proj2 (proj2 (proj2
                (queries_aligned_with_rows Stub.env semantic_service
                   0 1 [PyStr "A question"; PyStr "  B other question "]
                   chunks "client"
                   [[1; 0; 0; 0]%Q; [0; 1; 0; 0]%Q]
                   [[0; 0; 1; 0]%Q; [3 # 5; 4 # 5; 0; 0]%Q]
                   ltac:(discriminate) ltac:(discriminate)
                   eq_refl eq_refl)))
                [[0; 3 # 5]%Q; [0; 4 # 5]%Q])
      as (_ & _ & Hal & _).
    + discriminate.
    + exact stub_encoder_shape.
    + exact stub_cosine_shape.
    + exact Hinv.
    + apply Hf.
    + apply Hf.
    + intros Hk. vm_compute in Hk. discriminate.
    + reflexivity.
    + repeat constructor; Qclosed.
    + destruct Hal as (Herr & Hlen & _).
      * repeat constructor; eexists; (split; [reflexivity | vm_compute; lia]).
      * exact (conj Herr Hlen).
  - destruct (proj2 (proj2 (proj2
                (queries_aligned_with_rows Stub.env semantic_service
                   0 1 [PyStr "   "; PyStr "A question"]
                   chunks "client"
                   [[1; 0; 0; 0]%Q]
                   [[0; 0; 1; 0]%Q; [3 # 5; 4 # 5; 0; 0]%Q]
                   ltac:(discriminate) ltac:(discriminate)
                   eq_refl eq_refl)))
                [[0; 3 # 5]%Q])
      as (_ & _ & _ & Hdrop).
    + discriminate.
    + exact stub_encoder_shape.
    + exact stub_cosine_shape.
    + exact Hinv.
    + apply Hf.
    + apply Hf.
    + intros Hk. vm_compute in Hk. discriminate.
    + reflexivity.
    + repeat constructor; Qclosed.
    + destruct Hdrop as (_ & _ & Hrun).
      * left. intros (s & [= <-] & Hs). vm_compute in Hs. lia.
      * exact Hrun.
Defined.

(** C9 as first stated fails when every query is dropped: the embeddings
    of the queries are empty, the analysis stops before the similarity
    matrix is computed, and the loop over the queries never runs.  The
    report carries no error. *)
Lemma all_queries_dropped :
  let run := analyze_content_relevance Stub.env semantic_service 0 1
               [PyStr "   "; PyInt 7]
               [ChunkDict (Some (PyStr "H relevant text")) None] "client" in
  clean_texts [PyStr "   "; PyInt 7] = [] /\
  snd run = zero_report [Literal "Failed to generate embeddings"] None /\
  error (snd run) = None /\
  encodes (fst run) = 1.
Proof. vm_compute. repeat split. Qed.

(* ===================================================================== *)
(** ** The ranges of the scores *)
(* ===================================================================== *)

Lemma round2_le_100 x : (x <= 100)%Q -> (round2 x <= 100)%Q.
Proof.
  intros Hx. unfold round2.
  set (y := (x * 100)%Q). set (f := Qfloor y).
  assert (Hy : (y <= inject_Z 10000)%Q) by (unfold y, inject_Z; lra).
  assert (Hf : (f <= 10000)%Z).
  { unfold f. rewrite <- (Qfloor_Z 10000). now apply Qfloor_resp_le. }
  assert (Hup : (inject_Z f < y)%Q -> (f + 1 <= 10000)%Z).
  { intros Hlt. assert (Hlt' : (inject_Z f < inject_Z 10000)%Q)
      by (eapply Qlt_le_trans; eauto).
    rewrite <- Zlt_Qlt in Hlt'. lia. }
  assert (Hn : forall n, (n <= 10000)%Z -> (inject_Z n / 100 <= 100)%Q).
  { intros n Hle. unfold Qdiv, Qmult, Qinv, inject_Z, Qle; simpl. lia. }
  destruct (Qcompare (y - inject_Z f) (1 # 2)) eqn:Hc; apply Hn.
  - apply Qeq_alt in Hc.
    destruct (Z.even f); [exact Hf|]. apply Hup. lra.
  - exact Hf.
  - apply Qgt_alt in Hc. apply Hup. lra.
Qed.

Lemma round2_ge_0 x : (0 <= x)%Q -> (0 <= round2 x)%Q.
Proof.
  intros Hx. unfold round2.
  set (y := (x * 100)%Q). set (f := Qfloor y).
  assert (Hf : (0 <= f)%Z).
  { unfold f. rewrite <- (Qfloor_Z 0). apply Qfloor_resp_le.
    unfold y, inject_Z. lra. }
  assert (Hn : forall n, (0 <= n)%Z -> (0 <= inject_Z n / 100)%Q).
  { intros n Hle. unfold Qdiv, Qmult, Qinv, inject_Z, Qle; simpl. lia. }
  destruct (Qcompare (y - inject_Z f) (1 # 2)); apply Hn;
    try destruct (Z.even f); lia.
Qed.

Lemma Qnat_S n : (Qnat (S n) == Qnat n + 1)%Q.
Proof.
  unfold Qnat. rewrite Nat2Z.inj_succ, <- Z.add_1_r, inject_Z_plus.
  reflexivity.
Qed.

Lemma Qnat_le n m : n <= m -> (Qnat n <= Qnat m)%Q.
Proof. intros H. unfold Qnat. rewrite <- Zle_Qle. lia. Qed.

Lemma total_score_le qa :
  Forall (fun v => (confidence v <= 1)%Q) qa ->
  (total_score qa <= Qnat (length qa))%Q.
Proof.
  unfold total_score. intros H.
  assert (Hgen : forall acc,
             (fold_left (fun a v => a + confidence v) qa acc
              <= acc + Qnat (length qa))%Q).
  { induction H as [|v qa Hv Hqa IH]; intros acc; simpl.
    - change (acc <= acc + 0)%Q. lra.
    - specialize (IH (acc + confidence v)%Q).
      change (length (v :: qa)) with (S (length qa)).
      rewrite Qnat_S. lra. }
  specialize (Hgen 0%Q). lra.
Qed.

(** The scores of a report: both 0, or the rounded means over the verdicts
    of the loop. *)
Lemma report_scores E st now1 now2 queries content_chunks client_id :
  let r :=
    snd (analyze_content_relevance E st now1 now2 queries content_chunks
           client_id) in
  (overall_score r = 0%Q /\ content_coverage r = 0%Q /\ query_analysis r = [])
  \/
  (exists M md,
      queries <> [] /\
      analyze_queries E M md 0 queries = Ok (query_analysis r) /\
      overall_score r
      = round2 (total_score (query_analysis r) / Qnat (length queries) * 100) /\
      content_coverage r
      = round2 (Qnat (length (List.filter is_answered (query_analysis r)))
                / Qnat (length queries) * 100)).
Proof.
  cbv zeta. unfold analyze_content_relevance.
  destruct queries as [|q0 qs]; [now left|].
  destruct content_chunks as [|c0 cs]; [now left|].
  remember (q0 :: qs) as queries eqn:Hqueries.
  assert (Hne : queries <> []) by (subst; discriminate).
  remember (extract_content (c0 :: cs)) as content eqn:Hcont.
  destruct content as [|x content]; [now left|].
  remember (x :: content) as cont eqn:Hx. clear Hx Hcont Hqueries.
  unfold analyze_try.
  destruct (encode_texts E st now1 queries true client_id)
    as [st1 [qe|e]]; cbn [fst snd]; [|now left].
  destruct (encode_texts E st1 now2 _ true client_id)
    as [st2 [ce|e]]; cbn [fst snd]; [|now left].
  unfold analyze_embeddings.
  destruct ((size qe =? 0) || (size ce =? 0))%nat; [now left|].
  destruct (calculate_similarity E qe ce) as [M|e] eqn:HM; cbn [bind];
    [|now left].
  destruct (analyze_queries E M (cont.*2) 0 queries)
    as [qa|e] eqn:Hqa; cbn [bind]; [|now left].
  destruct (_generate_recommendations qa _) as [recs|e]; cbn [bind];
    [|now left].
  right. exists M, (cont.*2).
  cbn [snd query_analysis overall_score content_coverage].
  repeat split; auto.
Qed.

(** What does hold of the ranges in C6: no confidence exceeds 1, the
    overall score does not exceed 100, and the coverage lies between 0 and
    100.  The lower bounds of the confidence and of the overall score hold
    when no maximum similarity is negative. *)
Lemma report_ranges E st now1 now2 queries content_chunks client_id :
  let r :=
    snd (analyze_content_relevance E st now1 now2 queries content_chunks
           client_id) in
  Forall (fun v => (confidence v <= 1)%Q) (query_analysis r) /\
  (overall_score r <= 100)%Q /\
  (0 <= content_coverage r <= 100)%Q /\
  Forall (fun v => (0 <= max_similarity v)%Q -> (0 <= confidence v)%Q)
         (query_analysis r).
Proof.
  cbv zeta.
  pose proof (report_scores E st now1 now2 queries content_chunks client_id)
    as Hscores.
  assert (Hconf : Forall (fun v => confidence v = Qmin (max_similarity v * 2) 1)
                         (query_analysis
                            (snd (analyze_content_relevance E st now1 now2
                                    queries content_chunks client_id)))).
  { apply Forall_forall. intros v Hv. apply list_elem_of_In in Hv.
    apply report_verdict_In in Hv as (qe & ce & M & i & q & _ & _ & Hv).
    now apply analyze_query_Ok in Hv as (_ & _ & _ & _ & _ & _ & _ & _ & ? & _). }
  cbv zeta in Hscores.
  remember (snd (analyze_content_relevance E st now1 now2 queries
                   content_chunks client_id)) as r eqn:Hr.
  clear Hr.
  assert (Hle1 : Forall (fun v => (confidence v <= 1)%Q) (query_analysis r)).
  { eapply Forall_impl; [exact Hconf|]. intros v ->. apply Q.le_min_r. }
  assert (Hge0 : Forall (fun v => (0 <= max_similarity v)%Q ->
                                  (0 <= confidence v)%Q) (query_analysis r)).
  { eapply Forall_impl; [exact Hconf|]. intros v -> Hm.
    apply Q.min_glb; lra. }
  refine (conj Hle1 (conj _ (conj _ Hge0))).
  - destruct Hscores as [(-> & _)|(M & md & Hne & Hqa & -> & _)]; [lra|].
    destruct (analyze_queries_Ok _ _ _ _ _ _ Hqa) as [Hlen _].
    apply round2_le_100.
    pose proof (total_score_le _ Hle1) as Ht. rewrite Hlen in Ht.
    assert (Hpos : (0 < Qnat (length queries))%Q).
    { unfold Qnat. rewrite <- (Zlt_Qlt 0).
      destruct queries; [contradiction | simpl; lia]. }
    assert (Hd : (total_score (query_analysis r) / Qnat (length queries) <= 1)%Q)
      by (apply Qle_shift_div_r; [exact Hpos | lra]).
    lra.
  - destruct Hscores as [(_ & -> & _)|(M & md & Hne & Hqa & _ & ->)]; [lra|].
    destruct (analyze_queries_Ok _ _ _ _ _ _ Hqa) as [Hlen _].
    assert (Hpos : (0 < Qnat (length queries))%Q).
    { unfold Qnat. rewrite <- (Zlt_Qlt 0).
      destruct queries; [contradiction | simpl; lia]. }
    pose proof (List.filter_length_le is_answered (query_analysis r)) as Hfl.
    rewrite Hlen in Hfl. apply Qnat_le in Hfl.
    assert (H0 : (0 <= Qnat (length (List.filter is_answered
                                       (query_analysis r))))%Q).
    { unfold Qnat. rewrite <- (Zle_Qle 0). lia. }
    set (a := Qnat (length (List.filter is_answered (query_analysis r)))) in *.
    assert (Hd1 : (a / Qnat (length queries) <= 1)%Q)
      by (apply Qle_shift_div_r; [exact Hpos | lra]).
    assert (Hd0 : (0 <= a / Qnat (length queries))%Q)
      by (apply Qle_shift_div_l; [exact Hpos | lra]).
    split; [apply round2_ge_0 | apply round2_le_100]; lra.
Qed.


(* ===================================================================== *)
(** ** More on the rate limiter *)
(* ===================================================================== *)

Lemma is_allowed_bounded rl now identifier :
  window_bounded rl -> window_bounded (fst (is_allowed rl now identifier)).
Proof.
  intros Hb other. unfold window_bounded in Hb.
  destruct (is_allowed_frame rl identifier now) as (Hm & _ & Hother).
  rewrite Hm.
  destruct (String.string_dec other identifier) as [->|Hne].
  - rewrite is_allowed_calls.
    pose proof (List.filter_length_le
                  (fun t => Qltb (now - t) (inject_Z (window rl)))
                  (calls_of rl identifier)) as Hle.
    fold (prune rl now identifier) in Hle.
    specialize (Hb identifier).
    destruct (snd (is_allowed rl now identifier)) eqn:Ha.
    + apply is_allowed_admits in Ha.
      rewrite List.length_app. simpl. lia.
    + lia.
  - rewrite Hother by assumption. apply Hb.
Qed.

(** X1.  Whatever calls are made, for whatever identifiers and at whatever
    times, no identifier ever has more time stamps recorded than
    [max_calls]: the memory of the limiter is bounded per identifier. *)
Theorem rate_window_bounded (rl : RateLimiter) (cs : list (string * Q)) :
  window_bounded rl -> window_bounded (is_allowed_trace rl cs).
Proof.
  revert rl. induction cs as [|[identifier now] cs IH]; intros rl Hb;
    [exact Hb|].
  apply IH. now apply is_allowed_bounded.
Qed.

Lemma rate_window_bounded_witness :
  (Z.of_nat (length (calls_of
                       (is_allowed_trace (new_rate_limiter 2 10)
                          [("a", 0%Q); ("a", 1%Q); ("b", 1%Q); ("a", 2%Q)])
                       "a")) <= 2)%Z.
Proof.
  apply (rate_window_bounded (new_rate_limiter 2 10)
           [("a", 0%Q); ("a", 1%Q); ("b", 1%Q); ("a", 2%Q)]).
  intros identifier. vm_compute. discriminate.
Defined.

Lemma is_allowed_chronological rl identifier t0 now :
  chronological rl identifier t0 -> (t0 <= now)%Q ->
  chronological (fst (is_allowed rl now identifier)) identifier now.
Proof.
  intros [Hs Hle] Hnow. unfold chronological.
  rewrite is_allowed_calls.
  assert (Hks : StronglySorted Qle (prune rl now identifier))
    by (apply StronglySorted_List_filter; exact Hs).
  assert (Hkl : Forall (fun t => (t <= now)%Q) (prune rl now identifier)).
  { apply Forall_forall. intros t Ht. apply list_elem_of_In in Ht.
    apply List.filter_In in Ht as [Ht _].
    rewrite Forall_forall in Hle.
    apply Qle_trans with t0; [|exact Hnow].
    apply Hle. now apply list_elem_of_In. }
  destruct (snd (is_allowed rl now identifier)); [|now split].
  split.
  - apply StronglySorted_app_2; [|exact Hks|repeat constructor].
    intros x1 x2 H1 H2. apply list_elem_of_In in H2 as [<-|[]].
    rewrite Forall_forall in Hkl. now apply Hkl.
  - apply Forall_app. split; [exact Hkl|].
    repeat constructor. apply Qle_refl.
Qed.

(** X2.  With a clock that does not go back, the time stamps recorded for
    an identifier stay in non-decreasing order, and each of them is one of
    the times of the calls made (or was recorded before). *)
Theorem rate_window_chronological (rl : RateLimiter) (identifier : string)
    (t0 : Q) (times : list Q) :
  chronological rl identifier t0 ->
  StronglySorted Qle (t0 :: times) ->
  let rl' := fst (is_allowed_seq rl identifier times) in
  StronglySorted Qle (calls_of rl' identifier) /\
  Forall (fun t => In t (calls_of rl identifier) \/ In t times)
         (calls_of rl' identifier).
Proof.
  cbv zeta. revert rl t0.
  induction times as [|now times IH]; intros rl t0 Hc Hs; simpl.
  - split; [apply Hc|]. apply Forall_forall. intros t Ht.
    left. now apply list_elem_of_In.
  - apply StronglySorted_inv in Hs as [Hs Ht0].
    apply Forall_cons in Ht0 as [Hnow _].
    pose proof (is_allowed_chronological rl identifier t0 now Hc Hnow) as Hc'.
    pose proof (is_allowed_calls rl identifier now) as Hcalls.
    destruct (is_allowed rl now identifier) as [rl1 b]; simpl in *.
    destruct (IH rl1 now Hc' Hs) as [Hsorted Hfrom].
    destruct (is_allowed_seq rl1 identifier times) as [rl2 bs]; simpl in *.
    split; [exact Hsorted|].
    eapply Forall_impl; [exact Hfrom|].
    intros t [Ht|Ht]; [|right; now right].
    rewrite Hcalls in Ht.
    assert (Hk : In t (prune rl now identifier) -> In t (calls_of rl identifier))
      by (intros H; now apply List.filter_In in H).
    destruct b.
    + apply in_app_or in Ht as [Ht|[<-|[]]]; [left; auto | right; now left].
    + left. auto.
Qed.

Lemma rate_window_chronological_witness :
  StronglySorted Qle
    (calls_of (fst (is_allowed_seq (new_rate_limiter 2 10) "a"
                      [1; 2; 2; 15]%Q)) "a").
Proof.
  apply (rate_window_chronological (new_rate_limiter 2 10) "a" 0
           [1; 2; 2; 15]%Q).
  - split; constructor.
  - repeat constructor; Qclosed.
Defined.

(** X3.  The two degenerate configurations.  With [max_calls] at most 0
    every call is denied and nothing is recorded.  With [window] at most 0
    and [max_calls] positive, the limiter admits every call made at or
    after the recorded times: it never limits. *)
Theorem rate_limiter_degenerate (rl : RateLimiter) (identifier : string)
    (now : Q) :
  ((max_calls rl <= 0)%Z ->
   snd (is_allowed rl now identifier) = false /\
   calls_of (fst (is_allowed rl now identifier)) identifier
   = prune rl now identifier) /\
  ((window rl <= 0)%Z -> (0 < max_calls rl)%Z ->
   Forall (fun t => (t <= now)%Q) (calls_of rl identifier) ->
   is_allowed rl now identifier = (set_calls rl identifier [now], true)).
Proof.
  split.
  - intros Hm.
    assert (Hd : snd (is_allowed rl now identifier) = false).
    { destruct (snd (is_allowed rl now identifier)) eqn:Ha; [|reflexivity].
      apply is_allowed_admits in Ha. lia. }
    split; [exact Hd|]. now rewrite is_allowed_calls, Hd.
  - intros Hw Hm Hle.
    assert (Hk : prune rl now identifier = []).
    { unfold prune. induction (calls_of rl identifier) as [|t l IH];
        [reflexivity|].
      apply Forall_cons in Hle as [Ht Hl]. simpl.
      assert (Qltb (now - t) (inject_Z (window rl)) = false) as ->.
      { apply Qltb_ge.
        assert (Hwq : (inject_Z (window rl) <= inject_Z 0)%Q)
          by (rewrite <- Zle_Qle; exact Hw).
        unfold inject_Z at 2 in Hwq. lra. }
      auto. }
    unfold is_allowed. rewrite Hk.
    destruct (Z.leb_spec (max_calls rl) (Z.of_nat (length (@nil Q))))
      as [Hle'|Hgt]; [simpl in Hle'; lia | reflexivity].
Qed.

Lemma rate_limiter_degenerate_witness :
  snd (is_allowed (new_rate_limiter 0 3600) 5 "a") = false /\
  is_allowed (set_calls (new_rate_limiter 3 0) "a" [1; 2; 3]%Q) 3 "a"
  = (set_calls (set_calls (new_rate_limiter 3 0) "a" [1; 2; 3]%Q) "a" [3%Q],
     true).
Proof.
  split.
  - apply (proj1 (rate_limiter_degenerate (new_rate_limiter 0 3600) "a" 5)).
    simpl. lia.
  - apply (proj2 (rate_limiter_degenerate
                    (set_calls (new_rate_limiter 3 0) "a" [1; 2; 3]%Q) "a" 3)).
    + simpl. lia.
    + simpl. lia.
    + rewrite calls_of_set_calls. repeat constructor; Qclosed.
Defined.


(* ===================================================================== *)
(** ** Loading the model *)
(* ===================================================================== *)

Lemma load_attempts_spec E n :
  forall k last,
    (exists j,
        k <= j < k + n /\
        SentenceTransformer E j = None /\
        (forall i, k <= i < j -> SentenceTransformer E i <> None) /\
        load_attempts E k n last = (S j, Ok tt)) \/
    ((forall i, k <= i < k + n -> SentenceTransformer E i <> None) /\
     exists e,
       load_attempts E k n last = (k + n, Raise e) /\
       (0 < n -> SentenceTransformer E (k + n - 1) = Some e) /\
       (n = 0 ->
        e = match last with
            | Some e' => e'
            | None => TypeError "exceptions must derive from BaseException"
            end)).
Proof.
  induction n as [|n IH]; intros k last; simpl.
  - right. split; [intros i Hi; lia|].
    eexists. rewrite Nat.add_0_r. split; [reflexivity|].
    split; [lia | reflexivity].
  - destruct (SentenceTransformer E k) as [e|] eqn:Hk.
    + destruct (IH (S k) (Some e))
        as [(j & Hj & Hnone & Hbefore & Heq)|(Hall & e' & Heq & Hlast & Hzero)].
      * left. exists j. repeat split; try lia; auto.
        intros i Hi. destruct (Nat.eq_dec i k) as [->|Hne]; [congruence|].
        apply Hbefore. lia.
      * right. split.
        -- intros i Hi. destruct (Nat.eq_dec i k) as [->|Hne]; [congruence|].
           apply Hall. lia.
        -- exists e'. rewrite Heq.
           replace (S k + n) with (k + S n) by lia.
           split; [reflexivity|]. split; [|lia].
           intros _. destruct n as [|n'].
           ++ rewrite (Hzero eq_refl).
              now replace (k + 1 - 1) with k by lia.
           ++ replace (k + S (S n') - 1) with (S k + S n' - 1) by lia.
              apply Hlast. lia.
    + left. exists k. repeat split; try lia; auto.
Qed.

(** X4.  [initialize] does nothing once the model is loaded.  Otherwise it
    constructs the model up to [retry_count] times and stops at the first
    construction that succeeds; when all fail it raises the exception of
    the last one, after exactly [retry_count] constructions, and leaves the
    model unloaded, so that a later call starts over.  The rate limiter and
    the cache are not touched. *)
Theorem initialize_retries (E : Externals) (st : Service) (retry_count : nat) :
  let r := initialize E st retry_count in
  (model st = true -> r = (st, Ok tt)) /\
  (model st = false ->
   (exists j,
       loads st <= j < loads st + retry_count /\
       SentenceTransformer E j = None /\
       (forall i, loads st <= i < j -> SentenceTransformer E i <> None) /\
       snd r = Ok tt /\ model (fst r) = true /\ loads (fst r) = S j) \/
   ((forall i, loads st <= i < loads st + retry_count ->
               SentenceTransformer E i <> None) /\
    model (fst r) = false /\ loads (fst r) = loads st + retry_count /\
    exists e,
      snd r = Raise e /\
      (0 < retry_count ->
       SentenceTransformer E (loads st + retry_count - 1) = Some e))) /\
  rate_limiter (fst r) = rate_limiter st /\
  _cache (fst r) = _cache st /\
  encodes (fst r) = encodes st.
Proof.
  cbv zeta. split; [apply initialize_loaded|].
  split; [|destruct (initialize_frame E st retry_count) as (? & ? & ? & _);
           auto].
  intros Hm. unfold initialize. rewrite Hm.
  destruct (load_attempts_spec E retry_count (loads st) None)
    as [(j & Hj & Hnone & Hbefore & Heq)|(Hall & e & Heq & Hlast & _)];
    rewrite Heq; simpl.
  - left. exists j. repeat split; auto; lia.
  - right. repeat split; auto. now exists e.
Qed.

Lemma initialize_retries_witness :
  model (fst (initialize Stub.env semantic_service 3)) = true /\
  loads (fst (initialize Stub.env_no_model semantic_service 3)) = 3.
Proof.
  destruct (initialize_retries Stub.env semantic_service 3) as (_ & H1 & _).
  destruct (initialize_retries Stub.env_no_model semantic_service 3)
    as (_ & H2 & _).
  split.
  - destruct (H1 eq_refl) as [(j & _ & _ & _ & _ & Hm & _)|(_ & Hm & _)];
      [exact Hm | vm_compute in Hm; discriminate].
  - destruct (H2 eq_refl) as [(j & _ & Hnone & _)|(_ & _ & Hl & _)];
      [discriminate | exact Hl].
Defined.

Lemma encode_texts_loaded E st now texts use_cache client_id :
  model st = true ->
  model (fst (encode_texts E st now texts use_cache client_id)) = true /\
  loads (fst (encode_texts E st now texts use_cache client_id)) = loads st.
Proof.
  intros Hm.
  assert (Hready : ready E st now client_id = checked st now client_id).
  { unfold ready. rewrite initialize_loaded; [reflexivity | exact Hm]. }
  destruct (encode_texts_outcome E st now texts use_cache client_id);
    rewrite ?Hready; try (destruct use_cache); simpl; auto.
Qed.

(** X5.  Once the model is loaded no call of [encode_texts] constructs it
    again or unloads it, over any sequence of calls. *)
Theorem model_loaded_once (E : Externals) (st : Service)
    (cs : list encode_call) :
  model st = true ->
  model (encode_calls E st cs) = true /\
  loads (encode_calls E st cs) = loads st.
Proof.
  revert st. induction cs as [|c cs IH]; intros st Hm; [now split|].
  destruct (encode_texts_loaded E st (call_now c) (call_texts c)
              (call_use_cache c) (call_client c) Hm) as [Hm' Hl'].
  destruct (IH (encode_step E st c) Hm') as [Hm'' Hl''].
  simpl. split; [exact Hm''|]. unfold encode_step in *. congruence.
Qed.

Lemma model_loaded_once_witness :
  let st := fst (initialize Stub.env semantic_service 3) in
  let cs := [mkCall 0 [PyStr "A text"] true "a";
             mkCall 1 [PyStr "B text"] false "b"] in
  model (encode_calls Stub.env st cs) = true /\
  loads (encode_calls Stub.env st cs) = loads st.
Proof.
  intros st cs. apply (model_loaded_once Stub.env st cs). reflexivity.
Defined.

(** X6.  [health_check] reports "healthy" exactly when the model is loaded
    after it, and "degraded" otherwise: a model that cannot be loaded never
    makes it fail.  Its [services] are [semantic_analysis], "healthy" with
    a loaded model and "unhealthy" without, and [web_crawler], always
    "healthy"; its [version] is "1.0.0".  A loaded model is not touched; an
    unloaded one is given the three constructions of [initialize], so a
    degraded service is tried again at the next check. *)
Theorem health_check_status (E : Externals) (st : Service) :
  let r := health_check E st in
  (hs_status (snd r) = "healthy" <-> model (fst r) = true) /\
  (hs_status (snd r) = "degraded" <-> model (fst r) = false) /\
  hs_services (snd r)
  = [("semantic_analysis", if model (fst r) then "healthy" else "unhealthy");
     ("web_crawler", "healthy")] /\
  hs_version (snd r) = "1.0.0" /\
  (model st = true -> fst r = st) /\
  (model st = false ->
   (model (fst r) = true <->
    exists j, loads st <= j < loads st + 3 /\ SentenceTransformer E j = None) /\
   (model (fst r) = false -> loads (fst r) = loads st + 3)) /\
  rate_limiter (fst r) = rate_limiter st /\ _cache (fst r) = _cache st.
Proof.
  cbv zeta. unfold health_check.
  destruct (model st) eqn:Hm.
  - simpl. rewrite Hm. simpl. repeat split; auto; try discriminate.
  - destruct (initialize_retries E st 3) as (_ & Hinit & Hrl & Hc & _).
    specialize (Hinit Hm).
    destruct (initialize E st 3) as [st' res]; simpl in *.
    destruct Hinit as [(j & Hj & Hnone & _ & -> & Hm' & Hl)
                      |(Hall & Hm' & Hl & e & -> & _)]; simpl;
      rewrite ?Hm'; simpl.
    + repeat split; auto; try discriminate. intros _. now exists j.
    + repeat split; auto; try discriminate.
      intros (j & Hj & Hnone). exfalso. now apply (Hall j).
Qed.

Lemma health_check_status_witness :
  hs_status (snd (health_check Stub.env_no_model semantic_service))
  = "degraded" /\
  fst (health_check Stub.env
         (fst (initialize Stub.env semantic_service 3)))
  = fst (initialize Stub.env semantic_service 3).
Proof.
  split.
  - apply (proj1 (proj2 (health_check_status Stub.env_no_model
                           semantic_service))).
    reflexivity.
  - apply (proj1 (proj2 (proj2 (proj2 (proj2 (health_check_status Stub.env
             (fst (initialize Stub.env semantic_service 3)))))))).
    reflexivity.
Defined.

(* ===================================================================== *)
(** ** More on [encode_texts] *)
(* ===================================================================== *)

(** X7.  [encode_texts] fails fast.  A call the rate limiter denies raises
    the rate-limit exception without loading the model, calling the
    embedder or touching the cache, and its time is not recorded.  A call
    whose model cannot be loaded raises the loader's exception without
    calling the embedder or touching the cache. *)
Theorem encode_texts_fail_fast (E : Externals) (st : Service) (now : Q)
    (texts : list pyval) (use_cache : bool) (client_id : string) :
  let r := encode_texts E st now texts use_cache client_id in
  (snd (is_allowed (rate_limiter st) now client_id) = false ->
   snd r = Raise (Exception rate_limit_message) /\
   model (fst r) = model st /\ loads (fst r) = loads st /\
   encodes (fst r) = encodes st /\ _cache (fst r) = _cache st /\
   calls_of (rate_limiter (fst r)) client_id
   = prune (rate_limiter st) now client_id) /\
  (forall e,
      admitted st now client_id ->
      snd (initialize E (checked st now client_id) 3) = Raise e ->
      snd r = Raise e /\
      encodes (fst r) = encodes st /\ _cache (fst r) = _cache st).
Proof.
  cbv zeta.
  pose proof (ready_frame E st now client_id) as (_ & Hc & He & _).
  split.
  - intros Hd.
    assert (Hcalls : calls_of (rate_limiter (fst (encode_texts E st now texts
                                                  use_cache client_id)))
                       client_id = prune (rate_limiter st) now client_id)
      by (now rewrite encode_texts_rate_limiter, is_allowed_calls, Hd).
    destruct (encode_texts_outcome E st now texts use_cache client_id);
      unfold admitted in *; try congruence.
    simpl in *. repeat split; auto.
  - intros e Ha Hi.
    destruct (encode_texts_outcome E st now texts use_cache client_id);
      unfold admitted, loaded in *; try congruence.
    simpl. repeat split; auto. congruence.
Qed.

Lemma encode_texts_fail_fast_witness :
  let r := encode_texts Stub.env (new_service 0 3600) 0 [PyStr "A text"]
             true "client" in
  snd r = Raise (Exception rate_limit_message) /\
  model (fst r) = false /\ loads (fst r) = 0 /\ encodes (fst r) = 0 /\
  _cache (fst r) = [] /\ calls_of (rate_limiter (fst r)) "client" = [].
Proof.
  intros r.
  apply (proj1 (encode_texts_fail_fast Stub.env (new_service 0 3600) 0
                  [PyStr "A text"] true "client")).
  reflexivity.
Defined.

(** X8.  A call of [encode_texts] calls the embedder at most once, and it
    calls it exactly when the call is admitted, the model is loaded, the
    cleaned batch is not empty, and the batch is not served from the
    cache.  A failure of the embedder is not retried. *)
Theorem encoder_called_iff (E : Externals) (st : Service) (now : Q)
    (texts : list pyval) (use_cache : bool) (client_id : string) :
  let r := encode_texts E st now texts use_cache client_id in
  (encodes (fst r) = S (encodes st) <->
   admitted st now client_id /\ loaded E st now client_id /\
   clean_texts texts <> [] /\
   (use_cache = true -> Dict.get (cache_key E texts) (_cache st) = None)) /\
  (encodes (fst r) = encodes st \/ encodes (fst r) = S (encodes st)).
Proof.
  cbv zeta.
  pose proof (ready_frame E st now client_id) as (_ & Hc & He & _).
  assert (Hn : forall n, n <> S n) by (intros n; lia).
  destruct (encode_texts_outcome E st now texts use_cache client_id)
    as [Hd|e Ha Hi|Ha Hi Hcl|cached Ha Hi Hcl Hu Hget|e Ha Hi Hcl Hmiss Hm
        |emb Ha Hi Hcl Hmiss Hm]; unfold admitted, loaded in *; simpl fst.
  - split; [|left; reflexivity]. unfold checked; simpl.
    split; [intros H; now apply Hn in H | intros (H & _); congruence].
  - rewrite He. split; [|left; reflexivity].
    split; [intros H; now apply Hn in H | intros (_ & H & _); congruence].
  - rewrite He. split; [|left; reflexivity].
    split; [intros H; now apply Hn in H | intros (_ & _ & H & _); congruence].
  - rewrite He. split; [|left; reflexivity].
    split; [intros H; now apply Hn in H|].
    intros (_ & _ & _ & H). specialize (H Hu). congruence.
  - simpl. rewrite He. split; [|right; reflexivity].
    split; [intros _; repeat split; auto | reflexivity].
  - assert (Hen : encodes (if use_cache
                           then with_cache (bump_encodes (ready E st now client_id))
                                  (evict (Dict.set (cache_key E texts) emb
                                            (_cache st)))
                           else bump_encodes (ready E st now client_id))
                  = S (encodes st))
      by (destruct use_cache; simpl; now rewrite He).
    rewrite Hen. split; [|right; reflexivity].
    split; [intros _; repeat split; auto | reflexivity].
Qed.

Lemma encoder_called_iff_witness :
  encodes (fst (encode_texts Stub.env semantic_service 0 [PyStr "A text"]
                  true "client")) = 1.
Proof.
  apply (proj1 (encoder_called_iff Stub.env semantic_service 0
                  [PyStr "A text"] true "client")).
  repeat split; try reflexivity. discriminate.
Defined.

(** X9.  With [use_cache=False] the cache is neither read nor written: it
    is the same after the call, and an admitted call with a loaded model
    and a batch that is not empty after cleaning returns what the embedder
    returns for the cleaned batch, also when the batch is cached. *)
Theorem encode_texts_without_cache (E : Externals) (st : Service) (now : Q)
    (texts : list pyval) (client_id : string) :
  let r := encode_texts E st now texts false client_id in
  _cache (fst r) = _cache st /\
  (admitted st now client_id -> loaded E st now client_id ->
   clean_texts texts <> [] ->
   snd r = match model_encode E (encodes st) (clean_texts texts) with
           | Ok embeddings => Ok embeddings
           | Raise e =>
               Raise (Exception ("Embedding generation failed: " +:+ str_exn e))
           end).
Proof.
  cbv zeta.
  pose proof (ready_frame E st now client_id) as (_ & Hc & He & _).
  destruct (encode_texts_outcome E st now texts false client_id)
    as [Hd|e Ha Hi|Ha Hi Hcl|cached Ha Hi Hcl Hu Hget|e Ha Hi Hcl Hmiss Hm
        |emb Ha Hi Hcl Hmiss Hm]; unfold admitted, loaded in *;
    simpl fst; simpl snd; (split; [auto|]); try congruence;
    try discriminate.
  - intros _ _ _. now rewrite Hm.
  - intros _ _ _. now rewrite Hm.
Qed.

Lemma encode_texts_without_cache_witness :
  let st := fst (encode_texts Stub.env semantic_service 0 [PyStr "A text"]
                   true "client") in
  let r := encode_texts Stub.env st 1 [PyStr "A text"] false "client" in
  _cache (fst r) = _cache st /\ snd r = Ok [[1; 0; 0; 0]%Q] /\
  encodes (fst r) = 2.
Proof.
  intros st r.
  destruct (encode_texts_without_cache Stub.env st 1 [PyStr "A text"] "client")
    as [Hc Hr].
  refine (conj Hc (conj (Hr eq_refl eq_refl _) eq_refl)).
  discriminate.
Defined.

(** X10.  A call of [encode_texts] never changes an entry of the cache in
    place: a key that is cached before and after the call holds the same
    vectors, and an entry cached after the call was cached before or holds
    what the call returned, under the key of its batch. *)
Theorem cache_entries_immutable (E : Externals) (st : Service) (now : Q)
    (texts : list pyval) (use_cache : bool) (client_id : string) :
  cache_inv st ->
  let r := encode_texts E st now texts use_cache client_id in
  (forall k v v',
      Dict.get k (_cache st) = Some v ->
      Dict.get k (_cache (fst r)) = Some v' -> v' = v) /\
  (forall k v',
      Dict.get k (_cache (fst r)) = Some v' ->
      Dict.get k (_cache st) = Some v' \/
      (k = cache_key E texts /\ snd r = Ok v' /\
       Dict.get k (_cache st) = None)).
Proof.
  intros [Hnd _]. cbv zeta.
  assert (Hafter : forall k v',
             Dict.get k (_cache (fst (encode_texts E st now texts use_cache
                                        client_id))) = Some v' ->
             Dict.get k (_cache st) = Some v' \/
             (k = cache_key E texts /\
              snd (encode_texts E st now texts use_cache client_id) = Ok v' /\
              Dict.get k (_cache st) = None)).
  { intros k v' Hk.
    destruct (encode_texts_cache E st now texts use_cache client_id Hnd)
      as [[Hc _]|(emb & _ & Hget & _ & Hr & _ & Hc)]; rewrite Hc in Hk.
    - now left.
    - apply get_append_trim_inv in Hk as [Hk|[-> ->]]; auto. }
  split; [|exact Hafter].
  intros k v v' Hv Hv'.
  destruct (Hafter k v' Hv') as [H|(_ & _ & H)]; congruence.
Qed.

Lemma cache_entries_immutable_witness :
  let st := fst (encode_texts Stub.env semantic_service 0 [PyStr "A text"]
                   true "client") in
  let r := encode_texts Stub.env st 1 [PyStr "B text"] true "client" in
  let k := cache_key Stub.env [PyStr "B text"] in
  Dict.get k (_cache st) = Some [[0; 1; 0; 0]%Q] \/
  (k = cache_key Stub.env [PyStr "B text"] /\
   snd r = Ok [[0; 1; 0; 0]%Q] /\ Dict.get k (_cache st) = None).
Proof.
  intros st r k.
  assert (Hinv : cache_inv st).
  { apply encode_texts_cache_inv. split; [constructor | simpl; lia]. }
  apply (proj2 (cache_entries_immutable Stub.env st 1 [PyStr "B text"] true
                  "client" Hinv)).
  reflexivity.
Defined.

Lemma strip_head s :
  match PyStr.strip s with
  | EmptyString => True
  | String c _ => PyStr.is_space c = false
  end.
Proof.
  unfold PyStr.strip. pose proof (lstrip_head s) as Hh.
  destruct (PyStr.lstrip s) as [|c r]; [exact I|].
  destruct (rstrip_head c r Hh) as [r' ->]. exact Hh.
Qed.

(** X11.  The cleaning step of [encode_texts] returns no more strings than
    it was given; each is the stripped text of one of the given strings,
    cut at 1000 characters, has between 1 and 1000 characters and starts
    with a character that is not white space. *)
Theorem clean_texts_shape (texts : list pyval) :
  length (clean_texts texts) <= length texts /\
  Forall (fun s =>
            1 <= PyStr.len s <= 1000 /\
            (exists t, In (PyStr t) texts /\
                       s = PyStr.take 1000 (PyStr.strip t)) /\
            exists c r, s = String c r /\ PyStr.is_space c = false)
         (clean_texts texts).
Proof.
  split; [apply clean_texts_length_le|].
  induction texts as [|q rest IH]; [constructor|].
  assert (IH' : Forall (fun s =>
                  1 <= PyStr.len s <= 1000 /\
                  (exists t, In (PyStr t) (q :: rest) /\
                             s = PyStr.take 1000 (PyStr.strip t)) /\
                  exists c r, s = String c r /\ PyStr.is_space c = false)
                  (clean_texts rest)).
  { eapply Forall_impl; [exact IH|].
    intros s (Hl & (t & Ht & Hs) & Hc). repeat split; try apply Hl; auto.
    exists t. split; [now right | exact Hs]. }
  destruct (usable_dec q) as [(t & -> & Ht)|Hn].
  - rewrite clean_texts_cons_usable by assumption.
    constructor; [|exact IH'].
    pose proof (strip_head t) as Hh.
    pose proof (PyStrFacts.len_take 1000 (PyStr.strip t)) as Hlen.
    destruct (PyStr.strip t) as [|c r] eqn:Hst; [simpl in Ht; lia|].
    repeat split.
    + rewrite Hlen. lia.
    + rewrite Hlen. lia.
    + exists t. split; [now left | now rewrite Hst].
    + exists c, (PyStr.take 999 r). split; [reflexivity | exact Hh].
  - rewrite clean_texts_cons_dropped by assumption. exact IH'.
Qed.

(* ===================================================================== *)
(** ** The recommendations *)
(* ===================================================================== *)

Lemma query_previews_Ok vs ps :
  query_previews vs = Ok ps ->
  length ps = length vs /\ Forall (fun p => PyStr.len p <= 50) ps.
Proof.
  revert ps. induction vs as [|v vs IH]; intros ps; cbn [query_previews].
  - intros [= <-]. split; [reflexivity | constructor].
  - unfold query_preview.
    destruct (query v) as [s| |]; cbn [bind]; try discriminate.
    destruct (query_previews vs) as [ps'|]; cbn [bind]; [|discriminate].
    intros [= <-]. destruct (IH ps' eq_refl) as [Hl Hf].
    split; [cbn [length]; now rewrite Hl|].
    constructor; [|exact Hf].
    change (PyStr.len (PyStr.take 50 s) <= 50).
    rewrite PyStrFacts.len_take. lia.
Qed.

Lemma query_previews_Raise vs e :
  query_previews vs = Raise e ->
  (exists msg, e = TypeError msg) /\
  exists v, In v vs /\ forall s, query v <> PyStr s.
Proof.
  induction vs as [|v vs IH]; simpl; [discriminate|].
  unfold query_preview.
  destruct (query v) as [s| |] eqn:Hq; simpl.
  - destruct (query_previews vs) as [ps'|e']; simpl; [discriminate|].
    intros [= <-]. destruct (IH eq_refl) as [Hm (v' & Hin & Hv')].
    split; [exact Hm|]. exists v'. split; [now right | exact Hv'].
  - intros [= <-]. split; [eauto|].
    exists v. split; [now left | intros s; congruence].
  - intros [= <-]. split; [eauto|].
    exists v. split; [now left | intros s; congruence].
Qed.

Lemma generate_recommendations_unfold qa coverage :
  _generate_recommendations qa coverage
  = do r2 <-
      (if (0 <? length (unanswered qa))%nat
       then do ps <- query_previews (take 3 (unanswered qa));
            Ok [NoRelevantContent (length (unanswered qa)) ps]
       else Ok []);
    Ok ((if Qltb coverage 50 then [LowCoverage coverage] else [])
        ++ r2
        ++ (if (0 <? length (low_confidence qa))%nat
            then [WeakMatches (length (low_confidence qa))] else [])
        ++ (if negb (Qltb coverage 80) then [Literal excellent_message]
            else if negb (Qltb coverage 60) then [Literal good_message]
            else [])).
Proof. reflexivity. Qed.

(** X12.  The recommendations follow fixed rules and come in a fixed
    order: low coverage, queries without relevant content, weak matches,
    praise, each at most once.  There are at most 4.  The low-coverage one is present exactly
    when the coverage is below 50; the one about queries without relevant
    content exactly when some verdict is not answered, with their number
    and the previews, of at most 50 characters, of the first 3; the one
    about weak matches exactly when some answered verdict has a confidence
    below 0.6, with their number; the praise for excellent coverage exactly
    from 80 on and the one for good coverage exactly from 60 to below 80,
    so never with the low-coverage one. *)
Theorem recommendation_rules (qa : list verdict) (coverage : Q)
    (recs : list recommendation) :
  _generate_recommendations qa coverage = Ok recs ->
  length recs <= 4 /\
  (forall c, In (LowCoverage c) recs <-> c = coverage /\ (coverage < 50)%Q) /\
  (forall n ps,
      In (NoRelevantContent n ps) recs <->
      n = length (unanswered qa) /\ 0 < n /\
      query_previews (take 3 (unanswered qa)) = Ok ps) /\
  (forall n ps,
      In (NoRelevantContent n ps) recs ->
      length ps = Nat.min 3 n /\ Forall (fun p => PyStr.len p <= 50) ps) /\
  (forall n, In (WeakMatches n) recs <->
             n = length (low_confidence qa) /\ 0 < n) /\
  (forall msg, In (Literal msg) recs <->
               (msg = excellent_message /\ (80 <= coverage)%Q) \/
               (msg = good_message /\ (60 <= coverage)%Q /\ (coverage < 80)%Q)) /\
  (forall msg, ~ In (AnalysisFailed msg) recs) /\
  StronglySorted (fun a b => recommendation_rank a < recommendation_rank b)
                 recs.
Proof.
  rewrite generate_recommendations_unfold.
  set (un := unanswered qa). set (low := low_confidence qa).
  intros Hrecs.
  assert (Hr2 : exists r2,
             (if (0 <? length un)%nat
              then do ps <- query_previews (take 3 un);
                   Ok [NoRelevantContent (length un) ps]
              else Ok []) = Ok r2 /\
             recs = (if Qltb coverage 50 then [LowCoverage coverage] else [])
                    ++ r2
                    ++ (if (0 <? length low)%nat
                        then [WeakMatches (length low)] else [])
                    ++ (if negb (Qltb coverage 80)
                        then [Literal excellent_message]
                        else if negb (Qltb coverage 60)
                        then [Literal good_message] else [])).
  { destruct (if (0 <? length un)%nat then _ else _) as [r2|e];
      simpl in Hrecs; [|discriminate].
    injection Hrecs as <-. now exists r2. }
  clear Hrecs. destruct Hr2 as (r2 & Hr2 & ->).
  assert (Hr2' : (r2 = [] /\ length un = 0) \/
                 (exists ps, r2 = [NoRelevantContent (length un) ps] /\
                             0 < length un /\
                             query_previews (take 3 un) = Ok ps)).
  { destruct (Nat.ltb_spec 0 (length un)) as [Hpos|Hz].
    - destruct (query_previews (take 3 un)) as [ps|e] eqn:Hps; simpl in Hr2;
        [|discriminate].
      injection Hr2 as <-. right. now exists ps.
    - injection Hr2 as <-. left. split; [reflexivity | lia]. }
  clear Hr2.
  pose proof (Qltb_lt coverage 50) as H50.
  pose proof (Qltb_ge coverage 50) as H50'.
  pose proof (Qltb_lt coverage 80) as H80.
  pose proof (Qltb_ge coverage 80) as H80'.
  pose proof (Qltb_lt coverage 60) as H60.
  pose proof (Qltb_ge coverage 60) as H60'.
  assert (Hlow : (0 <? length low)%nat = true <-> 0 < length low)
    by apply Nat.ltb_lt.
  refine (conj _ (conj _ (conj _ (conj _ (conj _ (conj _ (conj _ _))))))).
  - rewrite !List.length_app.
    assert (length r2 <= 1)
      by (destruct Hr2' as [[-> _]|(ps & -> & _)]; simpl; lia).
    destruct (Qltb coverage 50), (0 <? length low)%nat,
      (Qltb coverage 80), (Qltb coverage 60); simpl; lia.
  - intros c. rewrite !in_app_iff.
    destruct Hr2' as [[-> _]|(ps & -> & _)];
      destruct (Qltb coverage 50), (0 <? length low)%nat,
        (Qltb coverage 80), (Qltb coverage 60); simpl;
      intuition (try congruence; try discriminate).
  - intros n ps. rewrite !in_app_iff.
    destruct Hr2' as [[-> Hz]|(ps' & -> & Hpos & Hps)];
      destruct (Qltb coverage 50), (0 <? length low)%nat,
        (Qltb coverage 80), (Qltb coverage 60); simpl;
      intuition (try congruence; try discriminate; try lia);
      match goal with
      | H : NoRelevantContent _ _ = NoRelevantContent _ _ |- _ =>
          injection H as <- <-; auto
      | _ => idtac
      end; left; congruence.
  - intros n ps. rewrite !in_app_iff. intros Hin.
    assert (Hps : n = length un /\ query_previews (take 3 un) = Ok ps).
    { destruct Hr2' as [[-> Hz]|(ps' & -> & Hpos & Hps)];
        destruct (Qltb coverage 50), (0 <? length low)%nat,
          (Qltb coverage 80), (Qltb coverage 60); simpl in Hin;
        intuition (try congruence; try discriminate);
        match goal with
        | H : NoRelevantContent _ _ = NoRelevantContent _ _ |- _ =>
            injection H as <- <-; auto
        end. }
    destruct Hps as [-> Hps].
    apply query_previews_Ok in Hps as [Hl Hf].
    split; [|exact Hf]. rewrite Hl, length_take. reflexivity.
  - intros n. rewrite !in_app_iff.
    destruct Hr2' as [[-> _]|(ps & -> & _)];
      destruct (Qltb coverage 50), (0 <? length low)%nat eqn:Hl,
        (Qltb coverage 80), (Qltb coverage 60); simpl;
      intuition (try congruence; try discriminate; try lia);
      match goal with
      | H : WeakMatches _ = WeakMatches _ |- _ => injection H as <-; auto
      | _ => idtac
      end; try (left; congruence).
  - intros msg. rewrite !in_app_iff.
    destruct Hr2' as [[-> _]|(ps & -> & _)];
      destruct (Qltb coverage 50), (0 <? length low)%nat,
        (Qltb coverage 80), (Qltb coverage 60); simpl;
      intuition (try congruence; try discriminate; try lra; subst; auto).
  - intros msg. rewrite !in_app_iff.
    destruct Hr2' as [[-> _]|(ps & -> & _)];
      destruct (Qltb coverage 50), (0 <? length low)%nat,
        (Qltb coverage 80), (Qltb coverage 60); simpl;
      intuition discriminate.
  - destruct Hr2' as [[-> _]|(ps & -> & _)];
      destruct (Qltb coverage 50), (0 <? length low)%nat,
        (Qltb coverage 80), (Qltb coverage 60); simpl;
      repeat (constructor; simpl; try lia).
Qed.

Lemma recommendation_rules_witness :
  let qa := [mkVerdict (PyStr "What is it?") false (2 # 10) (1 # 10) "" [];
             mkVerdict (PyStr "Who made it?") true (5 # 10) (25 # 100) "" []] in
  let recs := [LowCoverage 40; NoRelevantContent 1 ["What is it?"];
               WeakMatches 1] in
  length recs <= 4 /\
  (In (Literal excellent_message) recs <->
   (excellent_message = excellent_message /\ (80 <= 40)%Q) \/
   (excellent_message = good_message /\ (60 <= 40)%Q /\ (40 < 80)%Q)) /\
  StronglySorted (fun a b => recommendation_rank a < recommendation_rank b)
                 recs.
Proof.
  intros qa recs.
  destruct (recommendation_rules qa 40 recs eq_refl)
    as (Hlen & _ & _ & _ & _ & Hlit & _ & Hord).
  exact (conj Hlen (conj (Hlit excellent_message) Hord)).
Defined.

(** X13.  [_generate_recommendations] raises only a [TypeError], and it
    does so exactly when the [query] of one of the first three unanswered
    verdicts is not a string. *)
Theorem recommendations_type_error (qa : list verdict) (coverage : Q) :
  (forall e,
      _generate_recommendations qa coverage = Raise e ->
      exists msg, e = TypeError msg) /\
  ((exists e, _generate_recommendations qa coverage = Raise e) <->
   exists v, In v (take 3 (unanswered qa)) /\ forall s, query v <> PyStr s).
Proof.
  rewrite generate_recommendations_unfold.
  set (un := unanswered qa).
  destruct (Nat.ltb_spec 0 (length un)) as [Hpos|Hz].
  - destruct (query_previews (take 3 un)) as [ps|e] eqn:Hps; cbn [bind].
    + split; [discriminate|]. split; [intros [e He]; discriminate|].
      intros (v & Hin & Hv). exfalso.
      clear - Hps Hin Hv. revert ps Hps.
      induction (take 3 un) as [|w l IH]; intros ps Hps; [destruct Hin|].
      cbn [query_previews] in Hps. unfold query_preview in Hps.
      destruct (query w) as [s| |] eqn:Hw; cbn [bind] in Hps;
        try discriminate.
      destruct (query_previews l) as [ps'|]; cbn [bind] in Hps;
        [|discriminate].
      destruct Hin as [->|Hin]; [now apply (Hv s)|].
      now apply (IH Hin ps').
    + apply query_previews_Raise in Hps as [Hmsg Hex].
      split; [intros e' [= <-]; exact Hmsg|].
      split; [intros _; exact Hex | intros _; now exists e].
  - cbn [bind]. split; [discriminate|].
    split; [intros [e He]; discriminate|].
    intros (v & Hin & _).
    assert (Hun : un = []) by (destruct un; [reflexivity | simpl in Hz; lia]).
    rewrite Hun in Hin. destruct Hin.
Qed.


(* ===================================================================== *)
(** ** More on the analyzer *)
(* ===================================================================== *)

Lemma analyze_queries_query E M md queries :
  forall i vs,
    analyze_queries E M md i queries = Ok vs -> map query vs = queries.
Proof.
  induction queries as [|q queries IH]; intros i vs; cbn [analyze_queries].
  - now intros [= <-].
  - destruct (analyze_query E M md i q) as [v|] eqn:Hv; cbn [bind];
      [|discriminate].
    destruct (analyze_queries E M md (S i) queries) as [vs'|] eqn:Hvs;
      cbn [bind]; [|discriminate].
    intros [= <-]. cbn [map].
    apply analyze_query_Ok in Hv as (_ & _ & _ & _ & _ & _ & -> & _).
    now rewrite (IH _ _ Hvs).
Qed.

Lemma encode_texts_model_name E st now texts use_cache client_id :
  model_name (fst (encode_texts E st now texts use_cache client_id))
  = model_name st.
Proof.
  pose proof (ready_frame E st now client_id) as (_ & _ & _ & Hn).
  destruct (encode_texts_outcome E st now texts use_cache client_id);
    try (destruct use_cache); simpl; auto.
Qed.

Lemma encode_texts_encodes_le E st now texts use_cache client_id :
  encodes st <= encodes (fst (encode_texts E st now texts use_cache client_id))
  <= S (encodes st).
Proof.
  pose proof (ready_frame E st now client_id) as (_ & _ & He & _).
  destruct (encode_texts_outcome E st now texts use_cache client_id);
    try (destruct use_cache); simpl; rewrite ?He; lia.
Qed.

(** The run of the analyzer past its two guards, by the outcomes of the
    two calls of [encode_texts]. *)
Lemma analyze_run_unfold E st now1 now2 queries content_chunks client_id :
  let content := extract_content content_chunks in
  let r1 := encode_texts E st now1 queries true client_id in
  let r2 := encode_texts E (fst r1) now2 (map PyStr (content.*1)) true
              client_id in
  queries <> [] -> content <> [] ->
  analyze_content_relevance E st now1 now2 queries content_chunks client_id
  = match snd r1 with
    | Raise e => (fst r1, error_report e)
    | Ok qe =>
        match snd r2 with
        | Raise e => (fst r2, error_report e)
        | Ok ce =>
            (fst r2,
             match analyze_embeddings E (fst r2) queries content qe ce with
             | Ok r => r
             | Raise e => error_report e
             end)
        end
    end.
Proof.
  cbv zeta. intros Hq Hc.
  unfold analyze_content_relevance.
  remember (extract_content content_chunks) as content eqn:Hcont.
  destruct queries as [|q0 qs]; [contradiction|].
  destruct content_chunks as [|c0 cs]; [simpl in Hcont; congruence|].
  destruct content as [|x content]; [contradiction|].
  remember (q0 :: qs) as queries. remember (x :: content) as cont.
  unfold analyze_try.
  destruct (encode_texts E st now1 queries true client_id) as [st1 [qe|e]];
    cbn [fst snd]; [|reflexivity].
  destruct (encode_texts E st1 now2 _ true client_id) as [st2 [ce|e]];
    cbn [fst snd]; [|reflexivity].
  now destruct (analyze_embeddings E st2 queries cont qe ce).
Qed.

(** X14.  A report is of one of two kinds.  One that carries
    [total_queries] carries no [error]; its [total_queries] is the number
    of queries; it has one verdict per query, in the order of the queries
    and each under its query; [queries_answered] is the number of
    answered verdicts; the scores are the rounded percentages of the mean
    confidence and of the answered verdicts; the recommendations are those
    of [_generate_recommendations] for the coverage before rounding.  One
    that does not has no verdicts and both scores 0. *)
Theorem report_consistent (E : Externals) (st : Service) (now1 now2 : Q)
    (queries : list pyval) (content_chunks : list chunk) (client_id : string) :
  let r :=
    snd (analyze_content_relevance E st now1 now2 queries content_chunks
           client_id) in
  let qa := query_analysis r in
  let answered := length (List.filter is_answered qa) in
  match total_queries r with
  | Some n =>
      n = length queries /\ 0 < n /\
      error r = None /\
      length qa = n /\
      map query qa = queries /\
      queries_answered r = Some answered /\
      answered <= n /\
      overall_score r = round2 (total_score qa / Qnat n * 100) /\
      content_coverage r = round2 (Qnat answered / Qnat n * 100) /\
      _generate_recommendations qa (Qnat answered / Qnat n * 100)
      = Ok (recommendations r) /\
      analysis_metadata r
      = Some (n, length (extract_content content_chunks), model_name st)
  | None =>
      qa = [] /\ overall_score r = 0%Q /\ content_coverage r = 0%Q /\
      queries_answered r = None /\ analysis_metadata r = None
  end.
Proof.
  cbv zeta. unfold analyze_content_relevance.
  destruct queries as [|q0 qs]; [now repeat split|].
  destruct content_chunks as [|c0 cs]; [now repeat split|].
  remember (q0 :: qs) as queries eqn:Hqueries.
  assert (Hne : 0 < length queries) by (subst; simpl; lia).
  remember (extract_content (c0 :: cs)) as content eqn:Hcont.
  destruct content as [|x content]; [now repeat split|].
  remember (x :: content) as cont eqn:Hx. clear Hx Hcont Hqueries.
  unfold analyze_try.
  pose proof (encode_texts_model_name E st now1 queries true client_id) as Hn1.
  destruct (encode_texts E st now1 queries true client_id)
    as [st1 [qe|e]]; cbn [fst snd] in *; [|now repeat split].
  pose proof (encode_texts_model_name E st1 now2 (map PyStr (cont.*1)) true
                client_id) as Hn2.
  destruct (encode_texts E st1 now2 _ true client_id)
    as [st2 [ce|e]]; cbn [fst snd] in *; [|now repeat split].
  unfold analyze_embeddings.
  destruct ((size qe =? 0) || (size ce =? 0))%nat; [now repeat split|].
  destruct (calculate_similarity E qe ce) as [M|e] eqn:HM; cbn [bind];
    [|now repeat split].
  destruct (analyze_queries E M (cont.*2) 0 queries)
    as [qa|e] eqn:Hqa; cbn [bind]; [|now repeat split].
  destruct (_generate_recommendations qa _) as [recs|e] eqn:Hrecs;
    cbn [bind]; [|now repeat split].
  cbn [snd total_queries error query_analysis queries_answered overall_score
       content_coverage recommendations analysis_metadata].
  destruct (analyze_queries_Ok _ _ _ _ _ _ Hqa) as [Hlen _].
  pose proof (analyze_queries_query _ _ _ _ _ _ Hqa) as Hmap.
  pose proof (List.filter_length_le is_answered qa) as Hfl.
  repeat split; auto; try lia. congruence.
Qed.

Lemma encode_texts_ok_admitted E st now texts use_cache client_id v :
  snd (encode_texts E st now texts use_cache client_id) = Ok v ->
  admitted st now client_id.
Proof.
  destruct (encode_texts_outcome E st now texts use_cache client_id);
    simpl; try discriminate; auto.
Qed.

(** X15.  An analysis takes two calls from the quota of its client, one
    per batch.  When both batches are encoded, the window of the client
    afterwards is what was still recent, followed by the two clock values.
    When the queries have been encoded and only their call fits into the
    quota, the analysis ends in the rate-limit report; what the first call
    did stays: its recorded time, its cache entry, its call of the
    embedder. *)
Theorem analysis_takes_two_calls (E : Externals) (st : Service)
    (now1 now2 : Q) (queries : list pyval) (content_chunks : list chunk)
    (client_id : string) (qe : ndarray) :
  let content := extract_content content_chunks in
  let r1 := encode_texts E st now1 queries true client_id in
  let r2 := encode_texts E (fst r1) now2 (map PyStr (content.*1)) true
              client_id in
  let run :=
    analyze_content_relevance E st now1 now2 queries content_chunks client_id in
  let w := window (rate_limiter st) in
  let before := calls_of (rate_limiter st) client_id in
  queries <> [] -> content <> [] ->
  snd r1 = Ok qe ->
  (forall ce,
      snd r2 = Ok ce ->
      calls_of (rate_limiter (fst run)) client_id
      = recent w now2 (recent w now1 before ++ [now1]) ++ [now2]) /\
  ((now1 <= now2)%Q -> (now2 - now1 < inject_Z w)%Q ->
   (max_calls (rate_limiter st)
    <= Z.of_nat (length (recent w now2 before)) + 1)%Z ->
   snd run = error_report (Exception rate_limit_message) /\
   fst run = checked (fst r1) now2 client_id /\
   encodes (fst run) = encodes (fst r1) /\
   _cache (fst run) = _cache (fst r1)).
Proof.
  cbv zeta. intros Hq Hc H1.
  pose proof (analyze_run_unfold E st now1 now2 queries content_chunks
                client_id Hq Hc) as Hrun.
  cbv zeta in Hrun. rewrite H1 in Hrun.
  set (r1 := encode_texts E st now1 queries true client_id) in *.
  pose proof (encode_texts_ok_admitted _ _ _ _ _ _ _ H1) as Ha1.
  assert (Hrl1 : rate_limiter (fst r1)
                 = fst (is_allowed (rate_limiter st) now1 client_id))
    by apply encode_texts_rate_limiter.
  destruct (is_allowed_frame (rate_limiter st) client_id now1)
    as (Hm1 & Hw1 & _).
  assert (Hcalls1 : calls_of (rate_limiter (fst r1)) client_id
                    = recent (window (rate_limiter st)) now1
                        (calls_of (rate_limiter st) client_id) ++ [now1]).
  { rewrite Hrl1, is_allowed_calls. unfold admitted in Ha1.
    now rewrite Ha1. }
  assert (Hprune2 : prune (rate_limiter (fst r1)) now2 client_id
                    = recent (window (rate_limiter st)) now2
                        (recent (window (rate_limiter st)) now1
                           (calls_of (rate_limiter st) client_id) ++ [now1])).
  { rewrite prune_recent, Hcalls1, Hrl1, Hw1. reflexivity. }
  split.
  - intros ce H2. rewrite H2 in Hrun. rewrite Hrun. cbn [fst].
    pose proof (encode_texts_ok_admitted _ _ _ _ _ _ _ H2) as Ha2.
    rewrite encode_texts_rate_limiter, is_allowed_calls.
    unfold admitted in Ha2. rewrite Ha2. now rewrite Hprune2.
  - intros Hle Hlt Hmax.
    assert (Hd : snd (is_allowed (rate_limiter (fst r1)) now2 client_id)
                 = false).
    { destruct (snd (is_allowed (rate_limiter (fst r1)) now2 client_id))
        eqn:Hadm; [|reflexivity].
      apply is_allowed_admits in Hadm.
      rewrite Hprune2, Hrl1, Hm1 in Hadm.
      unfold recent at 1 in Hadm.
      rewrite List.filter_app, List.length_app in Hadm.
      fold (recent (window (rate_limiter st)) now2
              (recent (window (rate_limiter st)) now1
                 (calls_of (rate_limiter st) client_id))) in Hadm.
      unfold recent at 1 2 in Hadm.
      rewrite filter_filter_weaker in Hadm.
      - simpl in Hadm. apply Qltb_lt in Hlt. rewrite Hlt in Hadm.
        simpl in Hadm. unfold recent in Hmax. lia.
      - intros x Hx. apply Qltb_lt in Hx. apply Qltb_lt. lra. }
    destruct (encode_texts_outcome E (fst r1) now2
                (map PyStr ((extract_content content_chunks).*1)) true
                client_id) as [Hd'| | | | |];
      unfold admitted in *; try congruence.
    rewrite Hrun. cbn [fst snd]. repeat split.
Qed.

Lemma analysis_takes_two_calls_witness :
  let run := analyze_content_relevance Stub.env (new_service 1 3600) 0 1
               [PyStr "A question"]
               [ChunkDict (Some (PyStr "A long enough text")) None] "client" in
  snd run = error_report (Exception rate_limit_message) /\
  encodes (fst run) = 1 /\ length (_cache (fst run)) = 1.
Proof.
  intros run.
  destruct (analysis_takes_two_calls Stub.env (new_service 1 3600) 0 1
              [PyStr "A question"]
              [ChunkDict (Some (PyStr "A long enough text")) None] "client"
              [[1; 0; 0; 0]%Q]) as [_ H].
  - discriminate.
  - discriminate.
  - reflexivity.
  - destruct H as (Hr & _ & He & Hc).
    + Qclosed.
    + Qclosed.
    + simpl. lia.
    + exact (conj Hr (conj eq_refl eq_refl)).
Defined.

Lemma StronglySorted_head_max {A} (R : A -> A -> Prop) x l y :
  StronglySorted R (x :: l) -> In y l -> R x y.
Proof.
  intros Hs Hy. apply StronglySorted_inv in Hs as [_ Hx].
  rewrite Forall_forall in Hx. apply Hx. now apply list_elem_of_In.
Qed.

(** The first of the top indices holds the largest value of the row. *)
Lemma top_indices_head E row m :
  argsort_ok E row -> np_max row = Ok m ->
  exists x0 rest,
    top_indices E row = x0 :: rest /\ (score row x0 == m)%Q.
Proof.
  intros Hok Hmax.
  apply np_max_spec in Hmax as [Hin Hall].
  pose proof (top_indices_length E row Hok) as Hlen.
  destruct (top_indices E row) as [|x0 rest] eqn:Htop.
  { destruct row; [destruct Hin | simpl in Hlen; lia]. }
  exists x0, rest. split; [reflexivity|].
  assert (Hx0 : x0 < length row)
    by (apply (top_indices_In E row Hok); rewrite Htop; now left).
  apply Qle_antisym.
  - unfold score. destruct (lookup_lt_is_Some_2 row x0 Hx0) as [s Hs].
    rewrite Hs. simpl. rewrite Forall_forall in Hall. apply Hall.
    apply list_elem_of_lookup. now exists x0.
  - apply list_elem_of_In, list_elem_of_lookup in Hin as [b Hb].
    assert (Hsb : score row b = m) by (unfold score; now rewrite Hb).
    rewrite <- Hsb.
    destruct (Nat.eq_dec b x0) as [->|Hne]; [apply Qle_refl|].
    destruct (in_dec Nat.eq_dec b (top_indices E row)) as [Hbt|Hbt].
    + rewrite Htop in Hbt. destruct Hbt as [Hbt|Hbt]; [congruence|].
      pose proof (top_indices_sorted E row Hok) as Hs. rewrite Htop in Hs.
      apply (StronglySorted_head_max _ _ _ _ Hs Hbt).
    + apply (top_indices_highest E row Hok).
      * rewrite Htop. now left.
      * now apply lookup_lt_Some in Hb.
      * exact Hbt.
Qed.

(** X16.  For a verdict of a report, with numpy's [argsort] sorting as it
    promises: when the maximum similarity is above 0.1, [top_matches] is
    not empty and its first entry has the maximum similarity as its score;
    when it is not, [top_matches] is empty.  So an answered query always
    lists at least one match. *)
Theorem top_match_is_maximum (E : Externals) (st : Service) (now1 now2 : Q)
    (queries : list pyval) (content_chunks : list chunk) (client_id : string)
    (qe ce M : ndarray) (i : nat) (v : verdict) :
  let content := extract_content content_chunks in
  let r1 := encode_texts E st now1 queries true client_id in
  let r2 := encode_texts E (fst r1) now2 (map PyStr (content.*1)) true
              client_id in
  let run :=
    analyze_content_relevance E st now1 now2 queries content_chunks client_id in
  snd r1 = Ok qe -> snd r2 = Ok ce ->
  calculate_similarity E qe ce = Ok M ->
  Forall (argsort_ok E) M ->
  query_analysis (snd run) !! i = Some v ->
  ((1 # 10 < max_similarity v)%Q ->
   exists tm rest,
     top_matches v = tm :: rest /\ (tm_score tm == max_similarity v)%Q) /\
  ((max_similarity v <= 1 # 10)%Q -> top_matches v = []) /\
  (is_answered v = true -> top_matches v <> []).
Proof.
  cbv zeta. intros H1 H2 HM HokM Hv.
  destruct (report_verdict_at E st now1 now2 queries content_chunks client_id
              qe ce M i v H1 H2 HM Hv) as (q & Hq & Hav).
  apply analyze_query_Ok in Hav
    as (row & b & Hrow & Hmax & Hb & Htop & _ & Hans & _).
  assert (Hok : argsort_ok E row).
  { rewrite Forall_forall in HokM. apply HokM.
    apply list_elem_of_lookup. now exists i. }
  apply collect_top_matches_Ok in Htop.
  destruct (top_indices_head E row _ Hok Hmax) as (x0 & rest & Hti & Hx0).
  assert (Hhigh : (1 # 10 < max_similarity v)%Q ->
            exists tm rest',
              top_matches v = tm :: rest' /\
              (tm_score tm == max_similarity v)%Q).
  { intros Hgt. rewrite Hti in Htop. cbn [List.filter] in Htop.
    assert (Hab : above_threshold row x0 = true).
    { unfold above_threshold. apply Qltb_lt. now rewrite Hx0. }
    rewrite Hab in Htop.
    inversion Htop as [|? tm ? rest' (m & Hs & _) Hrest]; subst.
    exists tm, rest'. split; [reflexivity|].
    unfold score in Hx0. rewrite Hs in Hx0. exact Hx0. }
  refine (conj Hhigh (conj _ _)).
  - intros Hle.
    assert (Hnone : List.filter (above_threshold row) (top_indices E row) = []).
    { apply np_max_spec in Hmax as [_ Hall].
      clear - Hok Hall Hle.
      assert (Hin : forall x, In x (top_indices E row) ->
                      above_threshold row x = false).
      { intros x Hx. apply (top_indices_In E row Hok) in Hx.
        unfold above_threshold, score.
        destruct (lookup_lt_is_Some_2 row x Hx) as [s Hs]. rewrite Hs. simpl.
        apply Qltb_ge. rewrite Forall_forall in Hall.
        apply Qle_trans with (max_similarity v); [|exact Hle].
        apply Hall. apply list_elem_of_lookup. now exists x. }
      induction (top_indices E row) as [|x l IH]; [reflexivity|].
      cbn [List.filter]. rewrite (Hin x) by now left.
      apply IH. intros y Hy. apply Hin. now right. }
    rewrite Hnone in Htop. now inversion Htop.
  - intros Ha. rewrite Hans in Ha. apply Qltb_lt in Ha.
    destruct Hhigh as (tm & rest' & -> & _); [lra | discriminate].
Qed.

Lemma top_match_is_maximum_witness :
  let chunks := [ChunkDict (Some (PyStr "C unrelated text")) None;
                 ChunkDict (Some (PyStr "H relevant text")) None] in
  let run := analyze_content_relevance Stub.env semantic_service 0 1
               [PyStr "A question"] chunks "client" in
  let v := nth 0 (query_analysis (snd run))
               (mkVerdict PyNone false 0 0 "" []) in
  exists tm rest,
    top_matches v = tm :: rest /\ (tm_score tm == max_similarity v)%Q.
Proof.
  intros chunks run v.
  assert (Hok : Forall (argsort_ok Stub.env) [[0; 3 # 5]%Q]).
  { repeat constructor; Qclosed. }
  apply (proj1 (top_match_is_maximum Stub.env semantic_service 0 1
                  [PyStr "A question"] chunks "client"
                  [[1; 0; 0; 0]%Q]
                  [[0; 0; 1; 0]%Q; [3 # 5; 4 # 5; 0; 0]%Q]
                  [[0; 3 # 5]%Q] 0 v eq_refl eq_refl eq_refl Hok eq_refl)).
  Qclosed.
Defined.

(** X17.  An analysis keeps the cache a dict of at most 1000 entries and
    every rate window within [max_calls]; it calls the embedder at most
    twice, and does not change the name of the model. *)
Theorem analysis_keeps_invariants (E : Externals) (st : Service)
    (now1 now2 : Q) (queries : list pyval) (content_chunks : list chunk)
    (client_id : string) :
  cache_inv st -> window_bounded (rate_limiter st) ->
  let st' :=
    fst (analyze_content_relevance E st now1 now2 queries content_chunks
           client_id) in
  cache_inv st' /\ window_bounded (rate_limiter st') /\
  encodes st <= encodes st' <= encodes st + 2 /\
  model_name st' = model_name st.
Proof.
  intros Hinv Hwb. cbv zeta.
  assert (Hstep : forall s now texts,
             cache_inv s -> window_bounded (rate_limiter s) ->
             let s' := fst (encode_texts E s now texts true client_id) in
             cache_inv s' /\ window_bounded (rate_limiter s') /\
             encodes s <= encodes s' <= S (encodes s) /\
             model_name s' = model_name s).
  { intros s now texts Hi Hw. cbv zeta.
    refine (conj (encode_texts_cache_inv _ _ _ _ _ _ Hi) (conj _ (conj _ _))).
    - rewrite encode_texts_rate_limiter. now apply is_allowed_bounded.
    - apply encode_texts_encodes_le.
    - apply encode_texts_model_name. }
  assert (Hsame : cache_inv st /\ window_bounded (rate_limiter st) /\
                  encodes st <= encodes st <= encodes st + 2 /\
                  model_name st = model_name st)
    by (refine (conj Hinv (conj Hwb (conj _ eq_refl))); lia).
  destruct queries as [|q0 qs]; [exact Hsame|].
  destruct (extract_content content_chunks) as [|x content] eqn:Hcont.
  { unfold analyze_content_relevance. rewrite Hcont.
    destruct content_chunks; exact Hsame. }
  rewrite analyze_run_unfold by (try discriminate; rewrite Hcont; discriminate).
  cbv zeta. rewrite Hcont.
  destruct (Hstep st now1 (q0 :: qs) Hinv Hwb) as (Hi1 & Hw1 & He1 & Hn1).
  set (r1 := encode_texts E st now1 (q0 :: qs) true client_id) in *.
  destruct (snd r1) as [qe|e]; cbn [fst].
  - destruct (Hstep (fst r1) now2 (map PyStr ((x :: content).*1)) Hi1 Hw1)
      as (Hi2 & Hw2 & He2 & Hn2).
    set (r2 := encode_texts E (fst r1) now2 _ true client_id) in *.
    destruct (snd r2) as [ce|e]; cbn [fst];
      (refine (conj Hi2 (conj Hw2 (conj _ _))); [lia | congruence]).
  - refine (conj Hi1 (conj Hw1 (conj _ Hn1))). lia.
Qed.

Lemma analysis_keeps_invariants_witness :
  let st' := fst (analyze_content_relevance Stub.env semantic_service 0 1
                    [PyStr "A question"]
                    [ChunkDict (Some (PyStr "A long enough text")) None]
                    "client") in
  cache_inv st' /\ window_bounded (rate_limiter st') /\
  encodes semantic_service <= encodes st' <= encodes semantic_service + 2 /\
  model_name st' = model_name semantic_service.
Proof.
  apply (analysis_keeps_invariants Stub.env semantic_service 0 1
           [PyStr "A question"]
           [ChunkDict (Some (PyStr "A long enough text")) None] "client").
  - split; [constructor | simpl; lia].
  - intros identifier. vm_compute. discriminate.
Defined.


(* ===================================================================== *)
(** ** The caller [perform_semantic_analysis] *)
(* ===================================================================== *)

Lemma analysis_verdicts_le E st now1 now2 queries content_chunks client_id :
  length (query_analysis
            (snd (analyze_content_relevance E st now1 now2 queries
                    content_chunks client_id)))
  <= length queries.
Proof.
  destruct (report_verdicts E st now1 now2 queries content_chunks client_id)
    as [->|(qe & ce & M & _ & _ & _ & Hqa & _)]; [simpl; lia|].
  destruct (analyze_queries_Ok _ _ _ _ _ _ Hqa) as [-> _]. lia.
Qed.

(** X18.  [perform_semantic_analysis] passes at most the first 10 queries
    to the analyzer, so its report has at most 10 verdicts and queries
    after the tenth have no effect.  Without queries, or with a scan result
    that lacks [headings] or [extracted_content], it returns its own dict
    and leaves the service untouched: no quota is taken. *)
Theorem perform_semantic_analysis_cap (E : Externals) (st : Service)
    (now1 now2 : Q) (scan_result : ScanResult) (queries : list pyval)
    (client_ip : string) :
  let run := perform_semantic_analysis E st now1 now2 scan_result queries
               client_ip in
  (queries = [] -> run = (st, NoQueriesProvided)) /\
  (queries <> [] -> headings scan_result = None ->
   run = (st, SemanticAnalysisFailed (no_attribute "headings"))) /\
  (queries <> [] -> headings scan_result <> None ->
   extracted_content scan_result = None ->
   run = (st, SemanticAnalysisFailed (no_attribute "extracted_content"))) /\
  (forall hs content,
      queries <> [] ->
      headings scan_result = Some hs ->
      extracted_content scan_result = Some content ->
      let chunks :=
        heading_chunks hs ++ paragraph_chunks content
        ++ match faq_data scan_result with
           | Some faqs => flat_map faq_chunks faqs
           | None => []
           end in
      let analysis :=
        analyze_content_relevance E st now1 now2 (take 10 queries) chunks
          client_ip in
      run = (fst analysis, Analysis (snd analysis)) /\
      length (query_analysis (snd analysis)) <= 10 /\
      run = perform_semantic_analysis E st now1 now2 scan_result
              (take 10 queries) client_ip).
Proof.
  cbv zeta.
  assert (Hcap : forall qs : list pyval,
             (if (10 <? length qs)%nat then take 10 qs else qs) = take 10 qs).
  { intros qs. destruct (Nat.ltb_spec 10 (length qs)); [reflexivity|].
    now rewrite take_ge. }
  unfold perform_semantic_analysis.
  refine (conj _ (conj _ (conj _ _))).
  - now intros ->.
  - intros Hq Hh. rewrite Hh. now destruct queries.
  - intros Hq Hh Hc. rewrite Hc.
    destruct (headings scan_result); [|contradiction]. now destruct queries.
  - intros hs content Hq Hh Hc. rewrite Hh, Hc, !Hcap, take_idemp.
    destruct queries as [|q0 qs]; [contradiction|].
    cbn [take].
    destruct (analyze_content_relevance E st now1 now2 _ _ client_ip)
      as [st' r] eqn:Hrun.
    cbn [fst snd]. repeat split.
    pose proof (analysis_verdicts_le E st now1 now2 (q0 :: take 9 qs)
                  (heading_chunks hs ++ paragraph_chunks content
                   ++ match faq_data scan_result with
                      | Some faqs => flat_map faq_chunks faqs
                      | None => []
                      end) client_ip) as Hle.
    rewrite Hrun in Hle. cbn [snd] in Hle.
    pose proof (length_take_le qs 9). 
    assert (length (q0 :: take 9 qs) <= 10).
    { cbn [length]. rewrite length_take. lia. }
    lia.
Qed.

Lemma perform_semantic_analysis_cap_witness :
  let scan := mkScanResult (Some [("h1", ["A heading long enough"])])
                           (Some None) None in
  let queries := repeat (PyStr "A question") 12 in
  perform_semantic_analysis Stub.env semantic_service 0 1 scan queries "ip"
  = perform_semantic_analysis Stub.env semantic_service 0 1 scan
      (take 10 queries) "ip".
Proof.
  intros scan queries.
  apply (proj2 (proj2 (proj2 (perform_semantic_analysis_cap Stub.env
           semantic_service 0 1 scan queries "ip")))
           [("h1", ["A heading long enough"])] None).
  - discriminate.
  - reflexivity.
  - reflexivity.
Defined.

Lemma extract_content_app a b :
  extract_content (a ++ b) = extract_content a ++ extract_content b.
Proof. unfold extract_content. apply omap_app. Qed.

Lemma extract_paragraph_chunks (l : list string) :
  Forall (fun p => 20 < PyStr.len p /\ PyStr.strip p = p) l ->
  (extract_content
     (map (fun paragraph =>
             ChunkDict (Some (PyStr paragraph)) (Some (PyStr "paragraph")))
          l)).*1 = l.
Proof.
  induction 1 as [|p l [Hlen Hst] Hl IH]; [reflexivity|].
  cbn [map]. unfold extract_content. cbn [omap list_omap extract_chunk].
  rewrite Hst.
  destruct (Nat.ltb_spec 10 (PyStr.len p)); [|lia].
  cbn [fmap list_fmap fst]. f_equal. exact IH.
Qed.

Lemma paragraphs_stripped content :
  Forall (fun p => 20 < PyStr.len p /\ PyStr.strip p = p) (paragraphs content).
Proof.
  unfold paragraphs. apply Forall_forall. intros p Hp.
  apply list_elem_of_In, in_map_iff in Hp as (p0 & <- & Hp0).
  apply List.filter_In in Hp0 as [_ Hlen].
  apply Nat.ltb_lt in Hlen. split; [exact Hlen | apply strip_idem].
Qed.

(** X19.  How the thresholds of the caller and of the analyzer compose.  A
    heading becomes a chunk when its stripped text has more than 5
    characters, but the analyzer keeps it only with more than 10: headings
    of 6 to 10 characters are built and then dropped.  Every paragraph
    chunk is kept by the analyzer as it is; there are at most 20 of them,
    the first paragraphs of more than 20 characters. *)
Theorem caller_chunks_kept :
  (forall hs,
      (extract_content (heading_chunks hs)).*1
      = flat_map
          (fun '(level, hds) =>
             map PyStr.strip
                 (List.filter
                    (fun h => (10 <? PyStr.len (PyStr.strip h))%nat) hds))
          hs) /\
  (forall content,
      (extract_content (paragraph_chunks content)).*1
      = match content with
        | None | Some EmptyString => []
        | Some c => take 20 (paragraphs c)
        end) /\
  (forall content, length (paragraph_chunks content) <= 20) /\
  (forall a b,
      extract_content (a ++ b) = extract_content a ++ extract_content b).
Proof.
  refine (conj _ (conj _ (conj _ extract_content_app))).
  - induction hs as [|[level hds] hs IH]; [reflexivity|].
    cbn [heading_chunks flat_map]. fold (heading_chunks hs).
    rewrite extract_content_app, fmap_app, IH. f_equal.
    clear IH. induction hds as [|h hds IHh]; [reflexivity|].
    cbn [flat_map List.filter map].
    rewrite extract_content_app, fmap_app, IHh.
    destruct (Nat.ltb_spec 5 (PyStr.len (PyStr.strip h))) as [H5|H5];
      destruct (Nat.ltb_spec 10 (PyStr.len (PyStr.strip h))) as [H10|H10];
      try lia; unfold extract_content; cbn [omap list_omap extract_chunk].
    + destruct (Nat.ltb_spec 10 (PyStr.len (PyStr.strip h))); [|lia].
      reflexivity.
    + destruct (Nat.ltb_spec 10 (PyStr.len (PyStr.strip h))); [lia|].
      reflexivity.
    + reflexivity.
  - intros [[|c r]|]; try reflexivity.
    unfold paragraph_chunks. apply extract_paragraph_chunks.
    apply Forall_take. apply paragraphs_stripped.
  - intros [[|c r]|]; simpl; try lia.
    rewrite length_map, length_take. lia.
Qed.


(* ===================================================================== *)
(** ** The middleware of main.py *)
(* ===================================================================== *)

Lemma middleware_call_is_allowed mw now client_ip :
  as_rate_limiter (fst (__call__ mw now client_ip))
  = fst (is_allowed (as_rate_limiter mw) now client_ip) /\
  (snd (__call__ mw now client_ip) = Forwarded <->
   snd (is_allowed (as_rate_limiter mw) now client_ip) = true).
Proof.
  unfold __call__, is_allowed, prune, calls_of, set_calls, as_rate_limiter.
  cbn [max_calls window calls].
  rewrite lookup_insert_eq. cbn [default].
  change (inject_Z 60) with 60%Q.
  destruct (calls_per_minute mw <=? _)%Z;
    cbn [fst snd calls_per_minute client_calls].
  - split; [reflexivity | split; discriminate].
  - rewrite insert_insert_eq. split; [reflexivity | split; reflexivity].
Qed.

Lemma middleware_call_bounded mw now client_ip :
  window_bounded (as_rate_limiter mw) ->
  window_bounded (as_rate_limiter (fst (__call__ mw now client_ip))).
Proof.
  intros Hb. rewrite (proj1 (middleware_call_is_allowed mw now client_ip)).
  now apply is_allowed_bounded.
Qed.

(** X20.  The middleware of main.py is the rate limiter of the semantic
    service over again, with a window of 60 seconds and [calls_per_minute]
    as [max_calls]: a request is forwarded exactly when [is_allowed] would
    admit it, and the same times are recorded, over any sequence of
    requests.  So no client ever has more than [calls_per_minute] times
    recorded, and a request answered with 429 is not recorded. *)
Theorem middleware_is_rate_limiter (mw : RateLimitMiddleware) :
  (forall now client_ip,
      let after := __call__ mw now client_ip in
      let allowed := is_allowed (as_rate_limiter mw) now client_ip in
      as_rate_limiter (fst after) = fst allowed /\
      (snd after = Forwarded <-> snd allowed = true) /\
      (snd after = TooManyRequests ->
       default [] (client_calls (fst after) !! client_ip)
       = prune (as_rate_limiter mw) now client_ip)) /\
  (forall requests,
      as_rate_limiter (middleware_trace mw requests)
      = is_allowed_trace (as_rate_limiter mw) requests) /\
  (forall requests,
      window_bounded (as_rate_limiter mw) ->
      window_bounded (as_rate_limiter (middleware_trace mw requests))).
Proof.
  refine (conj _ (conj _ _)).
  - intros now client_ip. cbv zeta.
    destruct (middleware_call_is_allowed mw now client_ip) as [Hst Hr].
    refine (conj Hst (conj Hr _)).
    intros Hdenied.
    change (default [] (client_calls (fst (__call__ mw now client_ip))
                          !! client_ip))
      with (calls_of (as_rate_limiter (fst (__call__ mw now client_ip)))
              client_ip).
    rewrite Hst, is_allowed_calls.
    destruct (snd (is_allowed (as_rate_limiter mw) now client_ip)) eqn:Ha;
      [|reflexivity].
    rewrite (proj2 Hr eq_refl) in Hdenied. discriminate.
  - intros requests. revert mw.
    induction requests as [|[client_ip now] requests IH]; intros mw;
      [reflexivity|].
    unfold middleware_trace, is_allowed_trace. cbn [fold_left fst snd].
    fold (middleware_trace (fst (__call__ mw now client_ip)) requests).
    rewrite <- (proj1 (middleware_call_is_allowed mw now client_ip)).
    apply IH.
  - intros requests. revert mw.
    induction requests as [|[client_ip now] requests IH]; intros mw Hb;
      [exact Hb|].
    apply IH. now apply middleware_call_bounded.
Qed.

Lemma middleware_is_rate_limiter_witness :
  (Z.of_nat (length (calls_of
                       (as_rate_limiter
                          (middleware_trace (mkRateLimitMiddleware 2 ∅)
                             [("a", 0%Q); ("a", 1%Q); ("b", 1%Q);
                              ("a", 2%Q); ("a", 61%Q)]))
                       "a")) <= 2)%Z.
Proof.
  refine (proj2 (proj2 (middleware_is_rate_limiter
                          (mkRateLimitMiddleware 2 ∅)))
            [("a", 0%Q); ("a", 1%Q); ("b", 1%Q); ("a", 2%Q); ("a", 61%Q)]
            _ "a").
  intros identifier. vm_compute. discriminate.
Defined.
